(** * spotify_songs_relink: audit and relink of a Spotify library

    A shallow embedding of [spotify_songs_relink.py].  The script is one
    sequential procedure, [main], talking to three outside parties: the
    Spotify web API (through the [spotipy] client), the console and the
    file system (one [.xlsx] workbook).  The embedding keeps that shape:

    - the outside world is an explicit [World] value threaded through every
      step: the state of the remote service, the trace of remote calls
      issued so far, what the script wrote on the standard output and on
      the standard error, what is left to read on the console and the
      workbooks saved;
    - a Python statement that may raise is a computation in the monad [M],
      whose result is a value, a raised exception or fuel exhaustion (the
      three [while True] loops of the script take a fuel argument);
    - the remote service is a parameter: a record of transition functions
      over an abstract state [R], each returning either a failure (the
      exception raised by the client) or the decoded JSON answer;
    - [main] is cut along the numbered steps of its comments; each piece
      keeps the names of the variables it reads and writes.

    Three libraries are taken as the script sees them. What [argparse]
    makes of [sys.argv] is an input of [main] ([CommandLine]). Of
    [openpyxl] the model keeps the values of the cells, the rows, the
    column widths, and the checks under which a value, a row or a column is
    refused; the texts of its errors and the outcome of writing the file
    are parameters. The answers of [spotipy] are those of the service.

    Outside the model: the construction of the OAuth client and what it
    does on its own account to obtain and keep a token (the console and the
    files of the model are those of the script's own [print], [input] and
    [wb.save]), the fonts and alignments of the workbook, and
    [KeyboardInterrupt], which is raised asynchronously. *)

From Stdlib Require Import String Ascii List Bool Arith Lia NArith ZArith DecimalString.
Import ListNotations.
Open Scope list_scope.
Open Scope string_scope.

(** ** Python values *)

(** The empty string, written out once. *)
Definition empty : string := EmptyString.

(** Truth value of a Python [str]: every string but the empty one. *)
Definition truthy (s : string) : bool :=
  match s with
  | EmptyString => false
  | String _ _ => true
  end.

(** ["\n"] *)
Definition nl : string := String (ascii_of_nat 10) EmptyString.

(** [c * n] for a one-character string [c]. *)
Fixpoint repeat_char (c : ascii) (n : nat) : string :=
  match n with
  | O => EmptyString
  | S k => String c (repeat_char c k)
  end.

(** [str(n)] for a non-negative [int]. *)
Definition str_of_nat (n : nat) : string :=
  NilEmpty.string_of_uint (Nat.to_uint n).

(** A Python [str] is a sequence of code points. It is represented by its
    UTF-8 encoding, one [ascii] per byte; the bytes [10xxxxxx] continue the
    code point begun before them. *)
Definition continuation (c : ascii) : bool :=
  let n := nat_of_ascii c in
  (Nat.leb 128 n && Nat.ltb n 192)%bool.

(** [len(s)]: the number of code points of [s]. *)
Fixpoint len (s : string) : nat :=
  match s with
  | EmptyString => 0
  | String c s' => if continuation c then len s' else S (len s')
  end.

(** [s[:n]]: the first [n] code points of [s]. *)
Fixpoint slice_to (n : N) (s : string) : string :=
  match s with
  | EmptyString => EmptyString
  | String c s' =>
      if continuation c then String c (slice_to n s')
      else if N.eqb n 0 then EmptyString
      else String c (slice_to (N.pred n) s')
  end.

(** Whether a predicate holds of some byte of [s]. *)
Fixpoint any_char (p : ascii -> bool) (s : string) : bool :=
  match s with
  | EmptyString => false
  | String c s' => (p c || any_char p s')%bool
  end.

(** ** Exceptions *)

(** The classes of [Exception] that the script can meet. *)
Inductive exn_class : Type :=
| SpotifyException
| IndexError
| EOFError
| IllegalCharacterError
| ValueError
| OtherException.

(** What a statement can raise: an [Exception] with its message
    ([str(e)]), or the [SystemExit] of [sys.exit(code)], which no
    [except Exception] clause catches. *)
Inductive exn : Type :=
| PyException (cls : exn_class) (msg : string)
| SystemExit (code : nat).

Definition is_Exception (e : exn) : bool :=
  match e with
  | PyException _ _ => true
  | SystemExit _ => false
  end.

Definition is_SpotifyException (e : exn) : bool :=
  match e with
  | PyException SpotifyException _ => true
  | _ => false
  end.

(** [str(e)] *)
Definition str_of_exn (e : exn) : string :=
  match e with
  | PyException _ msg => msg
  | SystemExit code => str_of_nat code
  end.

(** A failed call on a library: the class and message of the exception it
    raises. *)
Definition failure : Type := (exn_class * string)%type.

(** The answer to a call. *)
Definition reply (A : Type) : Type := (failure + A)%type.

(** Sequencing of calls that may fail: the first failure is the answer. *)
Definition and_then {A B : Type} (r : reply A) (k : A -> reply B) : reply B :=
  match r with
  | inl f => inl f
  | inr a => k a
  end.

(** ** Worksheets *)

(** A cell value: a string or a count. *)
Inductive Cell : Type :=
| CStr (s : string)
| CInt (n : nat).

(** A worksheet of [openpyxl]: its title; its rows in the order appended,
    each with the values of its cells from column 1 on (a row appended
    empty holds no cell); and the widths set in [column_dimensions], by
    column number. *)
Record Sheet : Type := {
  sh_title : string;
  sh_rows : list (list Cell);
  sh_widths : list (nat * nat)
}.

(** A workbook: its sheets, in order. *)
Definition Workbook : Type := list Sheet.

(** ** The runtime *)

(** What the script calls and has no counterpart on Rocq strings: the
    Unicode case mappings, [str.strip], [int] on a string ([None] stands
    for [ValueError]) and the wall clock read through
    [datetime.now().strftime(fmt)]; the texts of the errors of [openpyxl],
    which differ between its versions: [str(e)] of the
    [IllegalCharacterError] raised for a value, of the [ValueError] raised
    for a row beyond the last one allowed and of the [ValueError] raised
    for a column that has no letter; and what becomes of [wb.save(filename)]
    ([None] when the file is written, the exception raised otherwise). *)
Record Builtins : Type := {
  lower : string -> string;
  upper : string -> string;
  strip : string -> string;
  int_of_str : string -> option Z;
  strftime_now : string -> string;
  illegal_character_error : string -> string;
  row_limit_error : string;
  column_limit_error : string;
  save_error : string -> Workbook -> option failure
}.

(** A Python [dict] with [str] keys: insertion-ordered, a later write to an
    existing key replaces the value and keeps the key's position. *)
Definition dict (V : Type) : Type := list (string * V).

Fixpoint dict_set {V : Type} (k : string) (v : V) (d : dict V) : dict V :=
  match d with
  | [] => [(k, v)]
  | (k', v') :: d' =>
      if String.eqb k' k then (k', v) :: d' else (k', v') :: dict_set k v d'
  end.

Fixpoint dict_get {V : Type} (k : string) (d : dict V) : option V :=
  match d with
  | [] => None
  | (k', v') :: d' => if String.eqb k' k then Some v' else dict_get k d'
  end.

Definition dict_keys {V : Type} (d : dict V) : list string := map fst d.

(** ** Data received from the remote service

    Each record lists the JSON fields the script reads from one kind of
    object.  A field is an [option] where the script tests for its presence
    ([None] stands for an absent key or a JSON [null]). *)

(** The authenticated user. *)
Record User : Type := {
  display_name : string;
  user_id : string
}.

(** A playlist as listed for the user, or fetched by identifier. *)
Record Playlist : Type := {
  pl_name : string;
  pl_id : string;
  pl_owner_id : string
}.

(** The track of a source item (a playlist entry or a saved track):
    [track['id']], [track['name']], the names of [track['artists']] and
    [track['album']['name']]. *)
Record Track : Type := {
  t_id : option string;
  t_name : string;
  t_artists : list string;
  t_album : string
}.

(** A source item: [item['track']]. *)
Record Item : Type := {
  track : option Track
}.

(** One page of a source: [results['items']]; an item may be [None]. *)
Definition Page : Type := list (option Item).

(** A track as resolved by [sp.tracks]: [id], the identifier inside
    [linked_from] when that key is present with a non-empty value,
    [is_playable] and [album['name']]. *)
Record ResolvedTrack : Type := {
  r_id : string;
  r_linked_from : option string;
  r_is_playable : bool;
  r_album : string
}.

(** A search result: [id], [name], [is_playable], [album['name']]. *)
Record Candidate : Type := {
  c_id : string;
  c_name : string;
  c_is_playable : bool;
  c_album : string
}.

(** ** Remote calls *)

(** The calls the script makes on the [spotipy] client, with their
    arguments. *)
Inductive Call : Type :=
| CurrentUser
| AvailableMarkets
| CurrentUserPlaylists (limit offset : nat)
| GetPlaylist (playlist_id : string)
| PlaylistItems (playlist_id : string) (limit offset : nat) (market : string)
| CurrentUserSavedTracks (limit offset : nat)
| Tracks (track_ids : list string) (market : string)
| Search (q : string) (limit : nat)
| PlaylistAddItems (playlist_id : string) (items : list string)
| PlaylistRemoveAllOccurrencesOfItems (playlist_id : string) (items : list string)
| CurrentUserSavedTracksAdd (tracks : list string)
| CurrentUserSavedTracksDelete (tracks : list string).

(** The calls that change the user's library. *)
Definition mutating (c : Call) : bool :=
  match c with
  | PlaylistAddItems _ _
  | PlaylistRemoveAllOccurrencesOfItems _ _
  | CurrentUserSavedTracksAdd _
  | CurrentUserSavedTracksDelete _ => true
  | _ => false
  end.

(** The calls that add to the source, and those that remove from it. *)
Definition is_add (c : Call) : bool :=
  match c with
  | PlaylistAddItems _ _ | CurrentUserSavedTracksAdd _ => true
  | _ => false
  end.

Definition is_remove (c : Call) : bool :=
  match c with
  | PlaylistRemoveAllOccurrencesOfItems _ _
  | CurrentUserSavedTracksDelete _ => true
  | _ => false
  end.

(** The remote service, as the client sees it: each operation takes the
    service's state and returns the answer and the next state. *)
Record Spotify (R : Type) : Type := {
  current_user : R -> reply User * R;
  available_markets : R -> reply (list string) * R;
  current_user_playlists : nat -> nat -> R -> reply (list Playlist) * R;
  playlist : string -> R -> reply Playlist * R;
  playlist_items : string -> nat -> nat -> string -> R -> reply Page * R;
  current_user_saved_tracks : nat -> nat -> R -> reply Page * R;
  tracks : list string -> string -> R -> reply (list (option ResolvedTrack)) * R;
  search : string -> nat -> R -> reply (list Candidate) * R;
  playlist_add_items : string -> list string -> R -> reply unit * R;
  playlist_remove_all_occurrences_of_items :
    string -> list string -> R -> reply unit * R;
  current_user_saved_tracks_add : list string -> R -> reply unit * R;
  current_user_saved_tracks_delete : list string -> R -> reply unit * R
}.

Arguments current_user {R}.
Arguments available_markets {R}.
Arguments current_user_playlists {R}.
Arguments playlist {R}.
Arguments playlist_items {R}.
Arguments current_user_saved_tracks {R}.
Arguments tracks {R}.
Arguments search {R}.
Arguments playlist_add_items {R}.
Arguments playlist_remove_all_occurrences_of_items {R}.
Arguments current_user_saved_tracks_add {R}.
Arguments current_user_saved_tracks_delete {R}.

(** ** The worksheet operations of [openpyxl]

    The part of the library that the script goes through: what a cell
    keeps of the value given to it, [append], the extent of a sheet, and
    the columns that [worksheet.columns] yields. *)

(** The characters that a string of a cell must not hold
    ([ILLEGAL_CHARACTERS_RE]): the control characters other than tab, line
    feed and carriage return. *)
Definition illegal_character (c : ascii) : bool :=
  let n := nat_of_ascii c in
  (Nat.leb n 8 || Nat.eqb n 11 || Nat.eqb n 12 || (Nat.leb 14 n && Nat.leb n 31))%bool.

(** [Cell.check_string]: the string is cut to its first 32767 characters,
    and refused when what is left holds an illegal character. *)
Definition check_string (py : Builtins) (value : string) : reply string :=
  let value := slice_to 32767 value in
  if any_char illegal_character value
  then inl (IllegalCharacterError, illegal_character_error py value)
  else inr value.

(** What a cell keeps of the value given to it. *)
Definition bind_value (py : Builtins) (value : Cell) : reply Cell :=
  match value with
  | CStr s => and_then (check_string py s) (fun s => inr (CStr s))
  | CInt n => inr (CInt n)
  end.

(** The cells of a row, made from left to right. *)
Fixpoint bind_values (py : Builtins) (iterable : list Cell) : reply (list Cell) :=
  match iterable with
  | [] => inr []
  | content :: rest =>
      and_then (bind_value py content) (fun cell =>
      and_then (bind_values py rest) (fun cells =>
      inr (cell :: cells)))
  end.

(** [worksheet.append(iterable)]: a new row below the rows appended so
    far. *)
Definition append (py : Builtins) (worksheet : Sheet) (iterable : list Cell)
  : reply Sheet :=
  and_then (bind_values py iterable) (fun cells =>
  inr {| sh_title := sh_title worksheet;
         sh_rows := sh_rows worksheet ++ [cells];
         sh_widths := sh_widths worksheet |}).

(** [for row in rows: worksheet.append(row)] *)
Fixpoint append_rows (py : Builtins) (worksheet : Sheet) (rows : list (list Cell))
  : reply Sheet :=
  match rows with
  | [] => inr worksheet
  | row :: rest =>
      and_then (append py worksheet row) (fun worksheet =>
      append_rows py worksheet rest)
  end.

(** [str(cell.value)]; a cell never written holds [None]. *)
Definition str_of_cell (c : option Cell) : string :=
  match c with
  | None => "None"
  | Some (CStr s) => s
  | Some (CInt n) => str_of_nat n
  end.

(** The number of the last row that holds a cell; 0 when no row does. *)
Fixpoint last_row (rows : list (list Cell)) : nat :=
  match rows with
  | [] => 0
  | row :: rest =>
      match last_row rest, row with
      | 0, [] => 0
      | 0, _ :: _ => 1
      | S k, _ => S (S k)
      end
  end.

(** [worksheet.max_row] and [worksheet.max_column]: the largest row and
    column numbers among the cells of the sheet, and 1 for a sheet without
    a cell. *)
Definition max_row (rows : list (list Cell)) : nat :=
  Nat.max 1 (last_row rows).

Definition max_column (rows : list (list Cell)) : nat :=
  Nat.max 1 (fold_right (fun row m => Nat.max (List.length row) m) 0 rows).

(** One column of [worksheet.columns]: the cells of column [j], numbered
    from 1, in the rows 1 to [max_row]; a cell that was never written is
    made on the way and holds [None]. *)
Definition column_cells (rows : list (list Cell)) (j : nat) : list (option Cell) :=
  map (fun row => nth_error row (j - 1)) (firstn (max_row rows) rows).

(** The rows that a sheet can hold, and the columns that have a letter. *)
Definition within_rows (n : nat) : bool := (N.of_nat n <=? 1048576)%N.

Definition has_letter (j : nat) : bool :=
  (Nat.leb 1 j && (N.of_nat j <=? 18278)%N)%bool.

(** [worksheet.column_dimensions[column].width = width], the column being
    named by its number. *)
Fixpoint set_width (column width : nat) (widths : list (nat * nat))
  : list (nat * nat) :=
  match widths with
  | [] => [(column, width)]
  | (c, w) :: rest =>
      if Nat.eqb c column then (c, width) :: rest
      else (c, w) :: set_width column width rest
  end.


(** ** [auto_fit_columns] *)

(** The inner [for] of [auto_fit_columns]: the length of the longest
    [str(cell.value)] of a column. *)
Definition max_length_of (col : list (option Cell)) : nat :=
  fold_left
    (fun max_length cell =>
       if Nat.ltb max_length (len (str_of_cell cell))
       then len (str_of_cell cell)
       else max_length)
    col 0.

(** The outer [for], over the columns still to come. Making the cells of
    a column fails beyond the last row allowed, and [column_letter] fails
    for a column without a letter. *)
Fixpoint fit_columns (py : Builtins) (rows : list (list Cell)) (columns : list nat)
  (widths : list (nat * nat)) : reply (list (nat * nat)) :=
  match columns with
  | [] => inr widths
  | j :: rest =>
      if negb (within_rows (max_row rows))
      then inl (ValueError, row_limit_error py)
      else if negb (has_letter j)
      then inl (ValueError, column_limit_error py)
      else
        let adjusted_width := max_length_of (column_cells rows j) + 2 in
        fit_columns py rows rest (set_width j adjusted_width widths)
  end.

(** [auto_fit_columns(worksheet)]. A sheet to which nothing was appended
    has no column; any other has the columns 1 to [max_column]. *)
Definition auto_fit_columns (py : Builtins) (worksheet : Sheet) : reply Sheet :=
  match sh_rows worksheet with
  | [] => inr worksheet
  | _ :: _ =>
      and_then
        (fit_columns py (sh_rows worksheet)
           (seq 1 (max_column (sh_rows worksheet))) (sh_widths worksheet))
        (fun widths =>
           inr {| sh_title := sh_title worksheet;
                  sh_rows := sh_rows worksheet;
                  sh_widths := widths |})
  end.

(** ** The audit record *)

(** [log_entry]: one per audited track. *)
Record LogEntry : Type := {
  artist : string;
  title : string;
  old_album : string;
  old_id : string;
  new_album : string;
  new_id : string;
  reason : string
}.

(** The assignments [log_entry['reason'] = v], [log_entry['new_id'] = v]
    and [log_entry['new_album'] = v]. *)
Definition set_reason (log_entry : LogEntry) (v : string) : LogEntry :=
  {| artist := artist log_entry;
     title := title log_entry;
     old_album := old_album log_entry;
     old_id := old_id log_entry;
     new_album := new_album log_entry;
     new_id := new_id log_entry;
     reason := v |}.

Definition set_new_id (log_entry : LogEntry) (v : string) : LogEntry :=
  {| artist := artist log_entry;
     title := title log_entry;
     old_album := old_album log_entry;
     old_id := old_id log_entry;
     new_album := new_album log_entry;
     new_id := v;
     reason := reason log_entry |}.

Definition set_new_album (log_entry : LogEntry) (v : string) : LogEntry :=
  {| artist := artist log_entry;
     title := title log_entry;
     old_album := old_album log_entry;
     old_id := old_id log_entry;
     new_album := v;
     new_id := new_id log_entry;
     reason := reason log_entry |}.

(** ** [str_to_bool] *)

(** The argument converter of [--dry-run]: a value that is already a [bool]
    is returned as it is; a string is compared, lower-cased, with the two
    lists of spellings; anything else is rejected ([None] stands for
    [argparse.ArgumentTypeError]). *)
Definition str_to_bool (py : Builtins) (value : bool + string) : option bool :=
  match value with
  | inl b => Some b
  | inr s =>
      if existsb (String.eqb (lower py s)) ["true"; "t"; "1"; "yes"; "y"]
      then Some true
      else if existsb (String.eqb (lower py s)) ["false"; "f"; "0"; "no"; "n"]
      then Some false
      else None
  end.

(** ** The world and the monad of statements *)

(** What is written on the standard output: a [print]ed line, the prompt
    of an [input], or a text written as it is ([sys.stdout.write]). *)
Inductive Output : Type :=
| Print (line : string)
| Prompt (text : string)
| Write (text : string).

(** How a remote call ended: it returned, or the client raised. *)
Inductive Outcome : Type :=
| Returned
| Failed (cls : exn_class) (msg : string).

(** An entry of the trace of remote calls. *)
Definition Event : Type := (Call * Outcome)%type.

(** The world a run acts on. [w_calls] is the trace of the remote calls
    issued so far, oldest first, each with how it ended; [w_stderr] holds
    the texts written on the standard error; [w_files] the workbooks
    saved. *)
Record World (R : Type) : Type := {
  w_remote : R;
  w_calls : list Event;
  w_stdout : list Output;
  w_stderr : list string;
  w_stdin : list string;
  w_files : list (string * Workbook)
}.

Arguments w_remote {R}.
Arguments w_calls {R}.
Arguments w_stdout {R}.
Arguments w_stderr {R}.
Arguments w_stdin {R}.
Arguments w_files {R}.

(** The outcome of a statement: it completes with a value, raises, or the
    loop it runs has not finished within the fuel given. *)
Inductive result (A : Type) : Type :=
| Ok (a : A)
| Raise (e : exn)
| OutOfFuel.

Arguments Ok {A}.
Arguments Raise {A}.
Arguments OutOfFuel {A}.

Definition M (R A : Type) : Type := World R -> result A * World R.

Definition ret {R A : Type} (a : A) : M R A := fun w => (Ok a, w).

Definition bind {R A B : Type} (m : M R A) (k : A -> M R B) : M R B :=
  fun w =>
    match m w with
    | (Ok a, w') => k a w'
    | (Raise e, w') => (Raise e, w')
    | (OutOfFuel, w') => (OutOfFuel, w')
    end.

Definition raise {R A : Type} (e : exn) : M R A := fun w => (Raise e, w).

Definition out_of_fuel {R A : Type} : M R A := fun w => (OutOfFuel, w).

(** [try: m  except <handles> as e: h e] *)
Definition try_except {R A : Type}
  (m : M R A) (handles : exn -> bool) (h : exn -> M R A) : M R A :=
  fun w =>
    match m w with
    | (Raise e, w') => if handles e then h e w' else (Raise e, w')
    | other => other
    end.

Declare Scope py_scope.
Delimit Scope py_scope with py.
Notation "x <- m ;; k" := (bind m (fun x => k))
  (at level 61, m at next level, right associativity) : py_scope.
Notation "m ;; k" := (bind m (fun _ => k))
  (at level 61, right associativity) : py_scope.
Open Scope py_scope.

(** [sys.exit(code)] *)
Definition sys_exit {R A : Type} (code : nat) : M R A := raise (SystemExit code).

(** [print(line)] *)
Definition print {R : Type} (line : string) : M R unit :=
  fun w =>
    (Ok tt,
     {| w_remote := w_remote w;
        w_calls := w_calls w;
        w_stdout := w_stdout w ++ [Print line];
        w_stderr := w_stderr w;
        w_stdin := w_stdin w;
        w_files := w_files w |}).

(** [input(prompt)]: writes the prompt, then reads one line; at end of
    input it raises [EOFError]. *)
Definition input {R : Type} (prompt : string) : M R string :=
  fun w =>
    match w_stdin w with
    | [] =>
        (Raise (PyException EOFError "EOF when reading a line"),
         {| w_remote := w_remote w;
            w_calls := w_calls w;
            w_stdout := w_stdout w ++ [Prompt prompt];
            w_stderr := w_stderr w;
            w_stdin := [];
            w_files := w_files w |})
    | line :: rest =>
        (Ok line,
         {| w_remote := w_remote w;
            w_calls := w_calls w;
            w_stdout := w_stdout w ++ [Prompt prompt];
            w_stderr := w_stderr w;
            w_stdin := rest;
            w_files := w_files w |})
    end.

(** [sys.stdout.write(text)] and [sys.stderr.write(text)] *)
Definition write_stdout {R : Type} (text : string) : M R unit :=
  fun w =>
    (Ok tt,
     {| w_remote := w_remote w;
        w_calls := w_calls w;
        w_stdout := w_stdout w ++ [Write text];
        w_stderr := w_stderr w;
        w_stdin := w_stdin w;
        w_files := w_files w |}).

Definition write_stderr {R : Type} (text : string) : M R unit :=
  fun w =>
    (Ok tt,
     {| w_remote := w_remote w;
        w_calls := w_calls w;
        w_stdout := w_stdout w;
        w_stderr := w_stderr w ++ [text];
        w_stdin := w_stdin w;
        w_files := w_files w |}).

(** The answer of a library, as a statement: a failure is raised as an
    exception. *)
Definition lift {R A : Type} (r : reply A) : M R A :=
  match r with
  | inl (cls, msg) => raise (PyException cls msg)
  | inr a => ret a
  end.

(** [wb.save(filename)]: the workbook is written, or the exception of the
    library or of the operating system is raised and nothing is kept. *)
Definition save {R : Type} (py : Builtins) (filename : string) (wb : Workbook)
  : M R unit :=
  fun w =>
    match save_error py filename wb with
    | Some (cls, msg) => (Raise (PyException cls msg), w)
    | None =>
        (Ok tt,
         {| w_remote := w_remote w;
            w_calls := w_calls w;
            w_stdout := w_stdout w;
            w_stderr := w_stderr w;
            w_stdin := w_stdin w;
            w_files := w_files w ++ [(filename, wb)] |})
    end.

(** One call on the client: the call is appended to the trace, the service
    moves to its next state, and a failure is raised as an exception. *)
Definition invoke {R A : Type} (c : Call) (op : R -> reply A * R) : M R A :=
  fun w =>
    match op (w_remote w) with
    | (inl (cls, msg), r') =>
        (Raise (PyException cls msg),
         {| w_remote := r';
            w_calls := w_calls w ++ [(c, Failed cls msg)];
            w_stdout := w_stdout w;
            w_stderr := w_stderr w;
            w_stdin := w_stdin w;
            w_files := w_files w |})
    | (inr a, r') =>
        (Ok a,
         {| w_remote := r';
            w_calls := w_calls w ++ [(c, Returned)];
            w_stdout := w_stdout w;
            w_stderr := w_stderr w;
            w_stdin := w_stdin w;
            w_files := w_files w |})
    end.

(** ** The run configuration *)

(** [args], as [parser.parse_args()] returns them. *)
Record Args : Type := {
  dry_run : bool;
  market : string;
  playlist_id : option string;
  select_from_list : bool;
  arg_artist : option string
}.

(** What [sys.argv] amounts to for the parser that [main] builds. There
    is no argument at all; or [parse_args] ends the run itself, after the
    help it writes for [-h] or after the usage and the error it writes for
    a command line it refuses (a missing or unknown argument, a value that
    [str_to_bool] rejects); or it returns the arguments. The texts are
    those that [argparse] formats. *)
Inductive CommandLine : Type :=
| NoArguments (help : string)
| HelpRequested (help : string)
| Refused (usage message : string)
| Parsed (args : Args).

(** The variables fixed by steps 1 to 3 of [main] and read by the rest. *)
Record Run : Type := {
  DRY_RUN : bool;
  USER_MARKET : string;
  PLAYLIST_ID : option string;
  TEST_MODE_ARTIST : option string;
  source_name : string;
  user : User
}.

(** [if PLAYLIST_ID:] the playlist audited, when the identifier is neither
    [None] nor empty; otherwise the source is the saved tracks. *)
Definition source_playlist (PLAYLIST_ID : option string) : option string :=
  match PLAYLIST_ID with
  | Some pid => if truthy pid then Some pid else None
  | None => None
  end.

(** [if TEST_MODE_ARTIST:] the artist filter in force. *)
Definition test_artist (TEST_MODE_ARTIST : option string) : option string :=
  match TEST_MODE_ARTIST with
  | Some a => if truthy a then Some a else None
  | None => None
  end.

(** ** The script *)

Section Script.

Context {R : Type}.
Variable py : Builtins.
Variable sp : Spotify R.

(** *** Step 2: authentication and market check *)

(** [user = sp.current_user()], then the greeting. *)
Definition authenticate : M R User :=
  user <- invoke CurrentUser (current_user sp) ;;
  print ("Authenticated as " ++ display_name user ++ " (" ++ user_id user ++ ")") ;;
  ret user.

(** The market given must be one the service lists. *)
Definition check_market (args : Args) (USER_MARKET : string) : M R unit :=
  available_markets <- invoke AvailableMarkets (available_markets sp) ;;
  if existsb (String.eqb USER_MARKET) available_markets
  then ret tt
  else
    print (nl ++ "Error: '" ++ market args ++ "' is not a valid Spotify market code.") ;;
    sys_exit 1.

(** *** Step 3: the source *)

(** An entry of the selection menu: [{'name': ..., 'id': ...}]. *)
Record Option_ : Type := {
  opt_name : string;
  opt_id : string
}.

(** The playlists of one page that the user owns, as menu entries. *)
Definition owned_options (user : User) (playlists_page : list Playlist)
  : list Option_ :=
  map (fun playlist => {| opt_name := pl_name playlist; opt_id := pl_id playlist |})
      (filter (fun playlist => String.eqb (pl_owner_id playlist) (user_id user))
              playlists_page).

(** The first [while True] loop: all the user's playlists, 50 at a time. *)
Fixpoint fetch_playlists (fuel : nat) (user : User) (offset : nat)
  (selection_options : list Option_) : M R (list Option_) :=
  match fuel with
  | O => out_of_fuel
  | S fuel' =>
      playlists_page <-
        invoke (CurrentUserPlaylists 50 offset) (current_user_playlists sp 50 offset) ;;
      match playlists_page with
      | [] => ret selection_options
      | _ :: _ =>
          fetch_playlists fuel' user (offset + List.length playlists_page)
            (selection_options ++ owned_options user playlists_page)
      end
  end.

(** [for i, option in enumerate(selection_options, 1): print(...)] *)
Fixpoint print_menu (i : nat) (selection_options : list Option_) : M R unit :=
  match selection_options with
  | [] => ret tt
  | option :: rest =>
      print ("  " ++ str_of_nat i ++ ". " ++ opt_name option) ;;
      print_menu (S i) rest
  end.

(** The second [while True] loop: read a choice until it is a number of
    the menu, then ask for confirmation. Returns [source_name] and
    [PLAYLIST_ID]. *)
Fixpoint choose_source (fuel : nat) (selection_options : list Option_)
  : M R (string * option string) :=
  match fuel with
  | O => out_of_fuel
  | S fuel' =>
      choice_str <- input (nl ++ "Enter the number of your choice: ") ;;
      match int_of_str py choice_str with
      | None =>
          print "Invalid input. Please enter a number." ;;
          choose_source fuel' selection_options
      | Some choice_index =>
          if ((1 <=? choice_index)%Z
              && (choice_index <=? Z.of_nat (List.length selection_options))%Z)%bool
          then
            match nth_error selection_options (Z.to_nat (choice_index - 1)) with
            | None => raise (PyException IndexError "list index out of range")
            | Some selected_source =>
                let source_name := opt_name selected_source in
                let PLAYLIST_ID :=
                  if String.eqb (opt_id selected_source) "liked_songs"
                  then None
                  else Some (opt_id selected_source) in
                confirm_source <-
                  input ("You have selected '" ++ source_name ++ "'. Proceed? (y/n): ") ;;
                if String.eqb (lower py confirm_source) "y"
                then ret (source_name, PLAYLIST_ID)
                else print "Aborting." ;; sys_exit 0
            end
          else
            print ("Invalid number. Please enter a number between 1 and "
                   ++ str_of_nat (List.length selection_options) ++ ".") ;;
            choose_source fuel' selection_options
      end
  end.

(** Step 3 as a whole. *)
Definition determine_source (fuel : nat) (args : Args) (user : User)
  : M R (string * option string) :=
  if select_from_list args then
    print (nl ++ "Fetching your playlists...") ;;
    selection_options <-
      fetch_playlists fuel user 0
        [{| opt_name := "Liked Songs"; opt_id := "liked_songs" |}] ;;
    print (nl ++ "Please choose a source to process:") ;;
    print_menu 1 selection_options ;;
    choose_source fuel selection_options
  else
    match source_playlist (playlist_id args) with
    | Some pid =>
        try_except
          (playlist <- invoke (GetPlaylist pid) (playlist sp pid) ;;
           if String.eqb (pl_owner_id playlist) (user_id user)
           then ret ("Playlist '" ++ pl_name playlist ++ "'", playlist_id args)
           else
             print (nl ++ "Error: You are not the owner of the playlist '"
                    ++ pl_name playlist ++ "'.") ;;
             sys_exit 1)
          is_SpotifyException
          (fun _ =>
             print (nl ++ "Error: Playlist with ID '" ++ pid
                    ++ "' not found or you do not have access.") ;;
             sys_exit 1)
    | None => ret ("Liked Songs", playlist_id args)
    end.

(** *** Step 4: the operating mode *)

(** Announces the mode; a live run asks for confirmation. Returns [false]
    when the user declines ([main] then returns). *)
Definition announce_mode (run : Run) : M R bool :=
  print (nl ++ "Auditing Source: " ++ source_name run) ;;
  print ("Using market: '" ++ USER_MARKET run ++ "'") ;;
  if DRY_RUN run then
    print "Mode: DRY RUN (no changes will be made)" ;;
    ret true
  else
    print "Mode: LIVE RUN (changes WILL be made)" ;;
    match test_artist (TEST_MODE_ARTIST run) with
    | Some a =>
        print ("--- ARTIST TEST MODE IS ACTIVE. ONLY MODIFYING TRACKS BY '"
               ++ a ++ "'. ---")
    | None => ret tt
    end ;;
    confirm <- input "Are you sure you want to continue? (y/n): " ;;
    if String.eqb (lower py confirm) "y"
    then ret true
    else print "Aborting." ;; ret false.

(** *** Step 5: the audit *)

(** The page of source items at [offset]: 100 playlist items, or 50 saved
    tracks. *)
Definition fetch_page (run : Run) (offset : nat) : M R Page :=
  match source_playlist (PLAYLIST_ID run) with
  | Some pid =>
      invoke (PlaylistItems pid 100 offset (USER_MARKET run))
             (playlist_items sp pid 100 offset (USER_MARKET run))
  | None =>
      invoke (CurrentUserSavedTracks 50 offset)
             (current_user_saved_tracks sp 50 offset)
  end.

(** The dict comprehension of the page:
    [{item['track']['id']: item['track'] for item in results['items']
      if item and item.get('track') and item['track'].get('id')}]. *)
Definition original_track_map_of (items : Page) : dict Track :=
  fold_left
    (fun d item =>
       match item with
       | Some {| track := Some t |} =>
           match t_id t with
           | Some id => if truthy id then dict_set id t d else d
           | None => d
           end
       | _ => d
       end)
    items [].

(** The inner [for] over the search results: the first candidate that is
    playable and whose name equals the title once both are lower-cased. *)
Fixpoint find_replacement (title : string) (items : list Candidate)
  : option Candidate :=
  match items with
  | [] => None
  | potential_track :: rest =>
      if (c_is_playable potential_track
          && String.eqb (lower py (c_name potential_track)) (lower py title))%bool
      then Some potential_track
      else find_replacement title rest
  end.

(** The body of the [for] over the resolved tracks, for one track that is
    not [None]: the audit record it yields, or [None] when the track is
    skipped. *)
Definition audit_track (original_track_map : dict Track)
  (resolved_track : ResolvedTrack) : M R (option LogEntry) :=
  let is_relinked :=
    match r_linked_from resolved_track with Some _ => true | None => false end in
  let is_unplayable := negb (r_is_playable resolved_track) in
  let id_in_library :=
    match r_linked_from resolved_track with
    | Some linked_id => linked_id
    | None => r_id resolved_track
    end in
  match dict_get id_in_library original_track_map with
  | None => ret None
  | Some original_track =>
      first_artist <-
        match t_artists original_track with
        | [] => raise (PyException IndexError "list index out of range")
        | name :: _ => ret name
        end ;;
      let log_entry :=
        {| artist := first_artist;
           title := t_name original_track;
           old_album := t_album original_track;
           old_id := id_in_library;
           new_album := empty;
           new_id := empty;
           reason := empty |} in
      if is_relinked then
        let log_entry := set_reason log_entry "Re-linked" in
        let log_entry := set_new_id log_entry (r_id resolved_track) in
        let log_entry := set_new_album log_entry (r_album resolved_track) in
        print (nl ++ "[FOUND RE-LINKED TRACK]: '" ++ title log_entry
               ++ "' (by '" ++ artist log_entry ++ "')") ;;
        ret (Some log_entry)
      else if is_unplayable then
        let log_entry := set_reason log_entry "Unplayable" in
        print (nl ++ "[FOUND UNPLAYABLE TRACK]: '" ++ title log_entry
               ++ "' (by '" ++ artist log_entry ++ "')") ;;
        let query := title log_entry ++ " artist:" ++ artist log_entry in
        search_results <- invoke (Search query 5) (search sp query 5) ;;
        log_entry <-
          match find_replacement (title log_entry) search_results with
          | Some potential_track =>
              let log_entry := set_new_id log_entry (c_id potential_track) in
              let log_entry := set_new_album log_entry (c_album potential_track) in
              print "  > Found replacement for unplayable track." ;;
              ret log_entry
          | None => ret log_entry
          end ;;
        (if truthy (new_id log_entry)
         then ret tt
         else print "  > No replacement found.") ;;
        ret (Some log_entry)
      else
        let log_entry := set_reason log_entry "OK" in
        ret (Some log_entry)
  end.

(** The [for] over [full_tracks_details['tracks']]: each record is appended
    to [tracks_to_audit_log]. *)
Fixpoint audit_tracks (original_track_map : dict Track)
  (full_tracks_details : list (option ResolvedTrack))
  (tracks_to_audit_log : list LogEntry) : M R (list LogEntry) :=
  match full_tracks_details with
  | [] => ret tracks_to_audit_log
  | None :: rest => audit_tracks original_track_map rest tracks_to_audit_log
  | Some resolved_track :: rest =>
      entry <- audit_track original_track_map resolved_track ;;
      match entry with
      | None => audit_tracks original_track_map rest tracks_to_audit_log
      | Some log_entry =>
          audit_tracks original_track_map rest (tracks_to_audit_log ++ [log_entry])
      end
  end.

(** How one iteration of a [while True] loop ends: with [break], or by
    going round again with the loop's variables updated. *)
Inductive Control : Type :=
| Break
| Continue (offset : nat) (tracks_to_audit_log : list LogEntry).

(** The body of the third [while True] loop: fetch the page at [offset];
    stop on an empty page; skip a page without any usable track; otherwise
    resolve and audit its tracks. *)
Definition audit_page (run : Run) (offset : nat)
  (tracks_to_audit_log : list LogEntry) : M R Control :=
  results <- fetch_page run offset ;;
  match results with
  | [] => ret Break
  | _ :: _ =>
      let original_track_map := original_track_map_of results in
      let track_ids := dict_keys original_track_map in
      match track_ids with
      | [] => ret (Continue (offset + List.length results) tracks_to_audit_log)
      | _ :: _ =>
          full_tracks_details <-
            invoke (Tracks track_ids (USER_MARKET run))
                   (tracks sp track_ids (USER_MARKET run)) ;;
          tracks_to_audit_log <-
            audit_tracks original_track_map full_tracks_details tracks_to_audit_log ;;
          let offset := offset + List.length results in
          print ("Processed " ++ str_of_nat offset ++ " songs...") ;;
          ret (Continue offset tracks_to_audit_log)
      end
  end.

(** The loop itself: page after page until the body breaks. *)
Fixpoint audit_loop (fuel : nat) (run : Run) (offset : nat)
  (tracks_to_audit_log : list LogEntry) : M R (list LogEntry) :=
  match fuel with
  | O => out_of_fuel
  | S fuel' =>
      control <- audit_page run offset tracks_to_audit_log ;;
      match control with
      | Break => ret tracks_to_audit_log
      | Continue offset tracks_to_audit_log =>
          audit_loop fuel' run offset tracks_to_audit_log
      end
  end.

(** Step 5 as a whole. *)
Definition audit (fuel : nat) (run : Run) : M R (list LogEntry) :=
  print (nl ++ "Fetching songs from " ++ source_name run ++ "...") ;;
  audit_loop fuel run 0 [].

(** *** Step 6: summary and report *)

(** [len([t for t in tracks_to_audit_log if t['reason'] == r])] *)
Definition count_reason (r : string) (tracks_to_audit_log : list LogEntry) : nat :=
  List.length (filter (fun t => String.eqb (reason t) r) tracks_to_audit_log).

(** [len([t for t in tracks_to_audit_log if t['new_id']])] *)
Definition count_replacements (tracks_to_audit_log : list LogEntry) : nat :=
  List.length (filter (fun t => truthy (new_id t)) tracks_to_audit_log).

(** The header row of the audit sheet. *)
Definition headers : list Cell :=
  [CStr "Reason"; CStr "Artist"; CStr "Title"; CStr "Old Album Name";
   CStr "Old Track Id"; CStr "New Album Name"; CStr "New Track Id"].

(** The row appended for one audit record. *)
Definition audit_row (t : LogEntry) : list Cell :=
  [CStr (reason t); CStr (artist t); CStr (title t); CStr (old_album t);
   CStr (old_id t); CStr (new_album t); CStr (new_id t)].

(** The rows of [run_info]. *)
Definition run_info (run : Run) : list (list Cell) :=
  [[CStr "Timestamp"; CStr (strftime_now py "%Y-%m-%d %H:%M:%S")];
   [CStr "Authenticated User"; CStr (display_name (user run))];
   [CStr "Source Audited"; CStr (source_name run)];
   [CStr "Run Mode";
    CStr (if DRY_RUN run then "Dry Run (No Changes Made)"
          else "Live Run (Changes Made)")];
   [CStr "Market"; CStr (USER_MARKET run)];
   [CStr "Test Mode Artist";
    CStr (match test_artist (TEST_MODE_ARTIST run) with
          | Some a => a
          | None => "N/A (Full Run)"
          end)]].

(** The rows of [scan_stats]. *)
Definition scan_stats (tracks_to_audit_log : list LogEntry) : list (list Cell) :=
  [[CStr "Category"; CStr "Count"];
   [CStr "Total Tracks Audited"; CInt (List.length tracks_to_audit_log)];
   [CStr "Clean Tracks"; CInt (count_reason "OK" tracks_to_audit_log)];
   [CStr "Unplayable Tracks"; CInt (count_reason "Unplayable" tracks_to_audit_log)];
   [CStr "Re-linked Tracks"; CInt (count_reason "Re-linked" tracks_to_audit_log)];
   [CStr "Replacements Found"; CInt (count_replacements tracks_to_audit_log)]].

(** A sheet just made, with its title. *)
Definition new_sheet (title : string) : Sheet :=
  {| sh_title := title; sh_rows := []; sh_widths := [] |}.

(** The first sheet, [ws_summary]: its rows are appended one by one, then
    its columns are fitted. (Fonts and alignments are not part of the
    model.) *)
Definition ws_summary (run : Run) (tracks_to_audit_log : list LogEntry)
  : reply Sheet :=
  let ws_summary := new_sheet "Run Summary" in
  and_then (append py ws_summary [CStr "Run Parameters"]) (fun ws_summary =>
  and_then (append_rows py ws_summary (run_info run)) (fun ws_summary =>
  and_then (append py ws_summary []) (fun ws_summary =>
  and_then (append py ws_summary [CStr "Scan Statistics"]) (fun ws_summary =>
  and_then (append_rows py ws_summary (scan_stats tracks_to_audit_log))
    (fun ws_summary =>
  auto_fit_columns py ws_summary))))).

(** The second sheet, [ws_audit]: the headers, then one row per record. *)
Definition ws_audit (tracks_to_audit_log : list LogEntry) : reply Sheet :=
  let ws_audit := new_sheet "Audit Report" in
  and_then (append py ws_audit headers) (fun ws_audit =>
  and_then (append_rows py ws_audit (map audit_row tracks_to_audit_log))
    (fun ws_audit =>
  auto_fit_columns py ws_audit)).

(** The workbook, as it stands when it is saved: the summary sheet is
    completed before the audit sheet is made. *)
Definition workbook (run : Run) (tracks_to_audit_log : list LogEntry)
  : reply Workbook :=
  and_then (ws_summary run tracks_to_audit_log) (fun ws_summary =>
  and_then (ws_audit tracks_to_audit_log) (fun ws_audit =>
  inr [ws_summary; ws_audit])).

(** The name of the report file. *)
Definition report_filename : string :=
  "spotify_song_audit_" ++ strftime_now py "%Y%m%d-%H%M" ++ ".xlsx".

(** Step 6 as a whole: the summary on the console, then the workbook when
    there is at least one record. *)
Definition report (run : Run) (tracks_to_audit_log : list LogEntry) : M R unit :=
  let unplayable_count := count_reason "Unplayable" tracks_to_audit_log in
  let relinked_count := count_reason "Re-linked" tracks_to_audit_log in
  let clean_count := count_reason "OK" tracks_to_audit_log in
  let replacements_found := count_replacements tracks_to_audit_log in
  print (nl ++ repeat_char "=" 40 ++ nl ++ "           Scan Complete - "
         ++ source_name run ++ nl ++ repeat_char "=" 40) ;;
  print ("Total Tracks Audited: " ++ str_of_nat (List.length tracks_to_audit_log)) ;;
  print ("  - Clean:      " ++ str_of_nat clean_count) ;;
  print ("  - Unplayable: " ++ str_of_nat unplayable_count) ;;
  print ("  - Re-linked:  " ++ str_of_nat relinked_count) ;;
  print ("Total Replacements Found: " ++ str_of_nat replacements_found) ;;
  print (repeat_char "=" 40) ;;
  match tracks_to_audit_log with
  | [] => ret tt
  | _ :: _ =>
      let filename := report_filename in
      wb <- lift (workbook run tracks_to_audit_log) ;;
      save py filename wb ;;
      print (nl ++ "[LOG CREATED]: A complete multi-sheet audit has been saved to '"
             ++ filename ++ "'")
  end.

(** *** Step 7: the live run *)

(** [f"({i} of {total_to_process})"] *)
Definition progress_counter (i total_to_process : nat) : string :=
  "(" ++ str_of_nat i ++ " of " ++ str_of_nat total_to_process ++ ")".

(** The body of the [try]: add the new version, then remove the old one. *)
Definition replace_track (run : Run) (i total_to_process : nat) (pair_ : LogEntry)
  : M R unit :=
  let progress_counter := progress_counter i total_to_process in
  match source_playlist (PLAYLIST_ID run) with
  | Some pid =>
      invoke (PlaylistAddItems pid [new_id pair_])
             (playlist_add_items sp pid [new_id pair_]) ;;
      print ("  " ++ progress_counter ++ " + Added new version: '"
             ++ title pair_ ++ "'") ;;
      invoke (PlaylistRemoveAllOccurrencesOfItems pid [old_id pair_])
             (playlist_remove_all_occurrences_of_items sp pid [old_id pair_]) ;;
      print ("  " ++ repeat_char " " (len progress_counter)
             ++ " - Removed old version: '" ++ title pair_ ++ "'")
  | None =>
      invoke (CurrentUserSavedTracksAdd [new_id pair_])
             (current_user_saved_tracks_add sp [new_id pair_]) ;;
      print ("  " ++ progress_counter ++ " + Liked new version: '"
             ++ title pair_ ++ "'") ;;
      invoke (CurrentUserSavedTracksDelete [old_id pair_])
             (current_user_saved_tracks_delete sp [old_id pair_]) ;;
      print ("  " ++ repeat_char " " (len progress_counter)
             ++ " - Unliked old version: '" ++ title pair_ ++ "'")
  end.

(** The test of the [continue]: an artist filter is in force and the
    record's artist differs from it once both are lower-cased. *)
Definition filtered_out (run : Run) (pair_ : LogEntry) : bool :=
  match test_artist (TEST_MODE_ARTIST run) with
  | Some a => negb (String.eqb (lower py (artist pair_)) (lower py a))
  | None => false
  end.

(** [for i, pair in enumerate(tracks_to_process, 1)], from index [i] on.
    Returns [processed_count]. *)
Fixpoint replacement_loop (run : Run) (total_to_process i processed_count : nat)
  (tracks_to_process : list LogEntry) : M R nat :=
  match tracks_to_process with
  | [] => ret processed_count
  | pair_ :: rest =>
      if filtered_out run pair_
      then replacement_loop run total_to_process (S i) processed_count rest
      else
        processed_count' <-
          try_except
            (replace_track run i total_to_process pair_ ;;
             ret (S processed_count))
            is_Exception
            (fun e =>
               print ("An error occurred while replacing track " ++ old_id pair_
                      ++ ": " ++ str_of_exn e) ;;
               ret processed_count) ;;
        replacement_loop run total_to_process (S i) processed_count' rest
  end.

(** Step 7 as a whole. *)
Definition live_run_actions (run : Run) (tracks_to_audit_log : list LogEntry)
  : M R unit :=
  if negb (DRY_RUN run) then
    let tracks_to_process := filter (fun t => truthy (new_id t)) tracks_to_audit_log in
    match tracks_to_process with
    | [] => print (nl ++ "No tracks with found replacements to process.")
    | _ :: _ =>
        print (nl ++ "Starting replacement process...") ;;
        let total_to_process := List.length tracks_to_process in
        processed_count <-
          replacement_loop run total_to_process 1 0 tracks_to_process ;;
        print (nl ++ "Cleanup complete!") ;;
        match test_artist (TEST_MODE_ARTIST run) with
        | Some a =>
            print ("Processed " ++ str_of_nat processed_count
                   ++ " track(s) for artist '" ++ a ++ "'.")
        | None => ret tt
        end
    end
  else
    print (nl ++ "Dry run complete. No changes were made.") ;;
    if Nat.ltb 0 (count_replacements tracks_to_audit_log)
    then print "To apply fixes for the found replacements, use --dry-run False."
    else ret tt.

(** *** [main] *)

(** Step 1: without any argument the help is written on the standard
    error and the run exits with status 1; otherwise [parse_args] returns
    the arguments, or ends the run itself, with status 0 after the help
    and with status 2 after the usage and the error. *)
Definition parse_args (command_line : CommandLine) : M R Args :=
  match command_line with
  | NoArguments help => write_stderr help ;; sys_exit 1
  | HelpRequested help => write_stdout help ;; sys_exit 0
  | Refused usage message =>
      write_stderr usage ;; write_stderr message ;; sys_exit 2
  | Parsed args => ret args
  end.

(** The body of the [try] of [main], from the parsed arguments on. *)
Definition main_body (fuel : nat) (args : Args) : M R unit :=
  let DRY_RUN := dry_run args in
  let USER_MARKET := upper py (market args) in
  let TEST_MODE_ARTIST := arg_artist args in
  match TEST_MODE_ARTIST with
  | Some a =>
      if truthy (strip py a)
      then ret tt
      else print "Error: --artist parameter cannot be an empty string." ;; sys_exit 1
  | None => ret tt
  end ;;
  user <- authenticate ;;
  check_market args USER_MARKET ;;
  source <- determine_source fuel args user ;;
  let run :=
    {| DRY_RUN := DRY_RUN;
       USER_MARKET := USER_MARKET;
       PLAYLIST_ID := snd source;
       TEST_MODE_ARTIST := TEST_MODE_ARTIST;
       source_name := fst source;
       user := user |} in
  continue <- announce_mode run ;;
  if continue then
    tracks_to_audit_log <- audit fuel run ;;
    report run tracks_to_audit_log ;;
    live_run_actions run tracks_to_audit_log
  else ret tt.

(** [main]: step 1 and the rest of the body, under the handler of
    [except Exception as e], which reports the error and exits with
    status 1. *)
Definition main (fuel : nat) (command_line : CommandLine) : M R unit :=
  try_except
    (args <- parse_args command_line ;;
     main_body fuel args)
    is_Exception
    (fun e =>
       print (nl ++ nl ++ "An unexpected error occurred: " ++ str_of_exn e) ;;
       sys_exit 1).

End Script.

(** ** A small concrete world

    An instance of the built-ins (ASCII only) and of the remote service,
    used to run the script on concrete inputs. *)

Module Demo.

Fixpoint map_string (f : ascii -> ascii) (s : string) : string :=
  match s with
  | EmptyString => EmptyString
  | String c s' => String (f c) (map_string f s')
  end.

Definition lower_ascii (c : ascii) : ascii :=
  let n := nat_of_ascii c in
  if (Nat.leb 65 n && Nat.leb n 90)%bool then ascii_of_nat (n + 32) else c.

Definition upper_ascii (c : ascii) : ascii :=
  let n := nat_of_ascii c in
  if (Nat.leb 97 n && Nat.leb n 122)%bool then ascii_of_nat (n - 32) else c.

Fixpoint drop_spaces (s : string) : string :=
  match s with
  | String c s' => if Ascii.eqb c " " then drop_spaces s' else s
  | EmptyString => EmptyString
  end.

Fixpoint rev_string (acc s : string) : string :=
  match s with
  | EmptyString => acc
  | String c s' => rev_string (String c acc) s'
  end.

Definition strip_spaces (s : string) : string :=
  rev_string EmptyString (drop_spaces (rev_string EmptyString (drop_spaces s))).

Fixpoint digits (acc : Z) (s : string) : option Z :=
  match s with
  | EmptyString => Some acc
  | String c s' =>
      let n := nat_of_ascii c in
      if (Nat.leb 48 n && Nat.leb n 57)%bool
      then digits (10 * acc + Z.of_nat (n - 48)) s'
      else None
  end.

Definition int_of_digits (s : string) : option Z :=
  match s with
  | EmptyString => None
  | String _ _ => digits 0 s
  end.

Definition py : Builtins :=
  {| lower := map_string lower_ascii;
     upper := map_string upper_ascii;
     strip := strip_spaces;
     int_of_str := int_of_digits;
     strftime_now := fun fmt =>
       if String.eqb fmt "%Y%m%d-%H%M" then "20240102-0304"
       else "2024-01-02 03:04:05";
     illegal_character_error := fun value => value ++ " cannot be used in worksheets.";
     row_limit_error :=
       "Row numbers must be between 1 and 1048576. Row number supplied was 1048577";
     column_limit_error := "Invalid column index 18279";
     save_error := fun filename wb => None |}.


(** The state of the demo service: the saved tracks, the items of the one
    playlist [P1], and the identifiers that the service refuses to add or
    to remove. *)
Record State : Type := {
  saved : list string;
  in_playlist : list string;
  refused : list string
}.

Definition me : User := {| display_name := "Ann"; user_id := "ann" |}.

(** The bell character, U+0007. *)
Definition bell : string := String (ascii_of_nat 7) EmptyString.

(** The catalogue, as seen from a source item. The identifier [local]
    stands for an item without a usable track reference. *)
Definition item_of (id : string) : option Item :=
  if String.eqb id "local" then Some {| track := None |}
  else if String.eqb id "A" then
    Some {| track := Some {| t_id := Some "A"; t_name := "Song A";
                             t_artists := ["Artist One"]; t_album := "Album A" |} |}
  else if String.eqb id "C" then
    Some {| track := Some {| t_id := Some "C"; t_name := "Song C";
                             t_artists := ["Artist Two"]; t_album := "Album C" |} |}
  else if String.eqb id "E" then
    Some {| track := Some {| t_id := Some "E"; t_name := "Song E";
                             t_artists := ["Artist One"]; t_album := "Album E" |} |}
  else if String.eqb id "G" then
    Some {| track := Some {| t_id := Some "G"; t_name := "Song" ++ bell ++ "G";
                             t_artists := ["Artist Two"]; t_album := "Album G" |} |}
  else
    Some {| track := Some {| t_id := Some id; t_name := "Song " ++ id;
                             t_artists := ["Artist Two"]; t_album := "Album " ++ id |} |}.

(** The catalogue, as resolved for the market: [A] is redirected to [B],
    [C] is unplayable, [E] is redirected to [F] and unplayable, the rest
    is fine. *)
Definition resolve (id : string) : option ResolvedTrack :=
  if String.eqb id "A" then
    Some {| r_id := "B"; r_linked_from := Some "A";
            r_is_playable := true; r_album := "Album B" |}
  else if String.eqb id "C" then
    Some {| r_id := "C"; r_linked_from := None;
            r_is_playable := false; r_album := "Album C" |}
  else if String.eqb id "E" then
    Some {| r_id := "F"; r_linked_from := Some "E";
            r_is_playable := false; r_album := "Album F" |}
  else
    Some {| r_id := id; r_linked_from := None;
            r_is_playable := true; r_album := "Album " ++ id |}.

Definition found : list Candidate :=
  [{| c_id := "X1"; c_name := "Song C (Live)"; c_is_playable := true; c_album := "Live" |};
   {| c_id := "X2"; c_name := "SONG C"; c_is_playable := false; c_album := "Album X2" |};
   {| c_id := "X3"; c_name := "song c"; c_is_playable := true; c_album := "Album X3" |};
   {| c_id := "X4"; c_name := "Song C"; c_is_playable := true; c_album := "Album X4" |}].

Definition page_of (ids : list string) (limit offset : nat) : Page :=
  map item_of (firstn limit (skipn offset ids)).

Definition is_refused (st : State) (ids : list string) : bool :=
  existsb (fun id => existsb (String.eqb id) (refused st)) ids.

Definition remove_ids (ids from : list string) : list string :=
  filter (fun x => negb (existsb (String.eqb x) ids)) from.

Definition sp : Spotify State :=
  {| current_user := fun st => (inr me, st);
     available_markets := fun st => (inr ["BE"; "US"], st);
     current_user_playlists := fun limit offset st =>
       (inr (firstn limit (skipn offset
               [{| pl_name := "Mine"; pl_id := "P1"; pl_owner_id := "ann" |};
                {| pl_name := "Theirs"; pl_id := "P2"; pl_owner_id := "bob" |}])), st);
     playlist := fun pid st =>
       if String.eqb pid "P1"
       then (inr {| pl_name := "Mine"; pl_id := "P1"; pl_owner_id := "ann" |}, st)
       else if String.eqb pid "P2"
       then (inr {| pl_name := "Theirs"; pl_id := "P2"; pl_owner_id := "bob" |}, st)
       else (inl (SpotifyException, "404"), st);
     playlist_items := fun pid limit offset market st =>
       (inr (page_of (in_playlist st) limit offset), st);
     current_user_saved_tracks := fun limit offset st =>
       (inr (page_of (saved st) limit offset), st);
     tracks := fun ids market st => (inr (map resolve ids), st);
     search := fun q limit st =>
       if String.eqb q "Song C artist:Artist Two"
       then (inr (firstn limit found), st)
       else (inr [], st);
     playlist_add_items := fun pid ids st =>
       if is_refused st ids then (inl (SpotifyException, "403"), st)
       else (inr tt, {| saved := saved st;
                        in_playlist := in_playlist st ++ ids;
                        refused := refused st |});
     playlist_remove_all_occurrences_of_items := fun pid ids st =>
       if is_refused st ids then (inl (SpotifyException, "403"), st)
       else (inr tt, {| saved := saved st;
                        in_playlist := remove_ids ids (in_playlist st);
                        refused := refused st |});
     current_user_saved_tracks_add := fun ids st =>
       if is_refused st ids then (inl (SpotifyException, "403"), st)
       else (inr tt, {| saved := ids ++ saved st;
                        in_playlist := in_playlist st;
                        refused := refused st |});
     current_user_saved_tracks_delete := fun ids st =>
       if is_refused st ids then (inl (SpotifyException, "403"), st)
       else (inr tt, {| saved := remove_ids ids (saved st);
                        in_playlist := in_playlist st;
                        refused := refused st |}) |}.

(** A world with the given library and console input, and nothing done
    yet. *)
Definition world (st : State) (stdin : list string) : World State :=
  {| w_remote := st; w_calls := []; w_stdout := []; w_stderr := [];
     w_stdin := stdin; w_files := [] |}.

Definition library : State :=
  {| saved := ["A"; "local"; "C"; "D"; "E"]; in_playlist := ["A"; "C"]; refused := [] |}.

Definition args_dry : Args :=
  {| dry_run := true; market := "be"; playlist_id := None;
     select_from_list := false; arg_artist := None |}.

Definition args_live : Args :=
  {| dry_run := false; market := "be"; playlist_id := None;
     select_from_list := false; arg_artist := None |}.

(** The first page of the saved tracks of [library], and its map. *)
Definition first_page : Page := page_of (saved library) 50 0.

Definition first_map : dict Track := original_track_map_of first_page.

(** The resolved tracks of the catalogue used below. *)
Definition track_A : ResolvedTrack :=
  {| r_id := "B"; r_linked_from := Some "A"; r_is_playable := true; r_album := "Album B" |}.

Definition track_C : ResolvedTrack :=
  {| r_id := "C"; r_linked_from := None; r_is_playable := false; r_album := "Album C" |}.

Definition track_E : ResolvedTrack :=
  {| r_id := "F"; r_linked_from := Some "E"; r_is_playable := false; r_album := "Album F" |}.

(** The audit records of [library]. *)
Definition entry_A : LogEntry :=
  {| artist := "Artist One"; title := "Song A"; old_album := "Album A"; old_id := "A";
     new_album := "Album B"; new_id := "B"; reason := "Re-linked" |}.

Definition entry_C : LogEntry :=
  {| artist := "Artist Two"; title := "Song C"; old_album := "Album C"; old_id := "C";
     new_album := "Album X3"; new_id := "X3"; reason := "Unplayable" |}.

Definition entry_D : LogEntry :=
  {| artist := "Artist Two"; title := "Song D"; old_album := "Album D"; old_id := "D";
     new_album := EmptyString; new_id := EmptyString; reason := "OK" |}.

Definition entry_E : LogEntry :=
  {| artist := "Artist One"; title := "Song E"; old_album := "Album E"; old_id := "E";
     new_album := "Album F"; new_id := "F"; reason := "Re-linked" |}.

Definition audit_log : list LogEntry := [entry_A; entry_C; entry_D; entry_E].

(** A live run on the saved tracks, without and with an artist filter. *)
Definition live : Run :=
  {| DRY_RUN := false; USER_MARKET := "BE"; PLAYLIST_ID := None;
     TEST_MODE_ARTIST := None; source_name := "Liked Songs"; user := me |}.

Definition live_artist_one : Run :=
  {| DRY_RUN := false; USER_MARKET := "BE"; PLAYLIST_ID := None;
     TEST_MODE_ARTIST := Some "ARTIST one"; source_name := "Liked Songs"; user := me |}.

(** A library whose service refuses [X3] and [E]: the add of [X3] and the
    removal of [E] fail. *)
Definition stubborn : State :=
  {| saved := ["A"; "local"; "C"; "D"; "E"]; in_playlist := ["A"; "C"];
     refused := ["X3"; "E"] |}.

(** A library whose first page has two items, none usable. *)
Definition local_files : State :=
  {| saved := ["local"; "local"]; in_playlist := []; refused := [] |}.

(** An empty library. *)
Definition nothing : State :=
  {| saved := []; in_playlist := []; refused := [] |}.

(** A live run chosen from the menu, with an artist filter. *)
Definition args_menu : Args :=
  {| dry_run := false; market := "us"; playlist_id := Some "ignored";
     select_from_list := true; arg_artist := Some "artist two" |}.

(** A page on which the track [A] appears twice, filed under two album
    names, with an item that has no track in between. *)
Definition first_copy : Track :=
  {| t_id := Some "A"; t_name := "Song A"; t_artists := ["Artist One"];
     t_album := "Album A" |}.

Definition second_copy : Track :=
  {| t_id := Some "A"; t_name := "Song A"; t_artists := ["Artist One"];
     t_album := "Album A (Deluxe)" |}.

Definition twice : Page :=
  [Some {| track := Some first_copy |}; Some {| track := None |};
   Some {| track := Some second_copy |}; None].

(** A service like [sp], but which returns the saved tracks two at a
    time. *)
Definition by_two : Spotify State :=
  {| current_user := current_user sp;
     available_markets := available_markets sp;
     current_user_playlists := current_user_playlists sp;
     playlist := playlist sp;
     playlist_items := playlist_items sp;
     current_user_saved_tracks := fun limit offset st =>
       (inr (page_of (saved st) 2 offset), st);
     tracks := tracks sp;
     search := search sp;
     playlist_add_items := playlist_add_items sp;
     playlist_remove_all_occurrences_of_items :=
       playlist_remove_all_occurrences_of_items sp;
     current_user_saved_tracks_add := current_user_saved_tracks_add sp;
     current_user_saved_tracks_delete := current_user_saved_tracks_delete sp |}.

(** A service like [sp], but whose saved tracks are those of [library]
    whatever its state. *)
Definition frozen : Spotify State :=
  {| current_user := current_user sp;
     available_markets := available_markets sp;
     current_user_playlists := current_user_playlists sp;
     playlist := playlist sp;
     playlist_items := playlist_items sp;
     current_user_saved_tracks := fun limit offset st =>
       (inr (page_of (saved library) limit offset), st);
     tracks := tracks sp;
     search := search sp;
     playlist_add_items := playlist_add_items sp;
     playlist_remove_all_occurrences_of_items :=
       playlist_remove_all_occurrences_of_items sp;
     current_user_saved_tracks_add := current_user_saved_tracks_add sp;
     current_user_saved_tracks_delete := current_user_saved_tracks_delete sp |}.




(** The playlist [P1] with [C] and the track that replaces it, a live run
    on it, and its arguments. *)
Definition crowded : State :=
  {| saved := []; in_playlist := ["C"; "X3"]; refused := [] |}.

Definition live_mine : Run :=
  {| DRY_RUN := false; USER_MARKET := "BE"; PLAYLIST_ID := Some "P1";
     TEST_MODE_ARTIST := None; source_name := "Playlist 'Mine'"; user := me |}.

Definition args_mine_live : Args :=
  {| dry_run := false; market := "be"; playlist_id := Some "P1";
     select_from_list := false; arg_artist := None |}.

(** Arguments naming a playlist of someone else, an unknown market, and a
    blank artist. *)
Definition args_theirs : Args :=
  {| dry_run := true; market := "be"; playlist_id := Some "P2";
     select_from_list := false; arg_artist := None |}.

Definition args_mine : Args :=
  {| dry_run := true; market := "be"; playlist_id := Some "P1";
     select_from_list := false; arg_artist := None |}.

Definition args_nowhere : Args :=
  {| dry_run := true; market := "zz"; playlist_id := None;
     select_from_list := false; arg_artist := None |}.

Definition args_blank : Args :=
  {| dry_run := false; market := "be"; playlist_id := None;
     select_from_list := false; arg_artist := Some "   " |}.

End Demo.

(** ** Vocabulary of the properties *)

(** The trace only grows: the calls of [w'] are those of [w] followed by
    [tr]. *)
Definition issues {R : Type} (w w' : World R) (tr : list Event) : Prop :=
  w_calls w' = (w_calls w ++ tr)%list.

(** An event of a non-mutating call. *)
Definition quiet (ev : Event) : Prop := mutating (fst ev) = false.

(** [m] extends the trace with non-mutating calls only, whatever the world
    it starts from and however it ends. *)
Definition read_only {R A : Type} (m : M R A) : Prop :=
  forall w, exists tr, issues w (snd (m w)) tr /\ Forall quiet tr.

(** A search result qualifies as the replacement of a track with the given
    title: it is playable and its name is the title up to case. *)
Definition qualifies (py : Builtins) (title : string) (c : Candidate) : Prop :=
  c_is_playable c = true /\ lower py (c_name c) = lower py title.

(** The console only grows: [w'] shows what [w] showed, followed by
    [out]. *)
Definition printed {R : Type} (w w' : World R) (out : list Output) : Prop :=
  w_stdout w' = (w_stdout w ++ out)%list.

(** The call that adds the substitute of a record to the source, and the
    call that removes the record's original from it. *)
Definition add_call (run : Run) (t : LogEntry) : Call :=
  match source_playlist (PLAYLIST_ID run) with
  | Some pid => PlaylistAddItems pid [new_id t]
  | None => CurrentUserSavedTracksAdd [new_id t]
  end.

Definition remove_call (run : Run) (t : LogEntry) : Call :=
  match source_playlist (PLAYLIST_ID run) with
  | Some pid => PlaylistRemoveAllOccurrencesOfItems pid [old_id t]
  | None => CurrentUserSavedTracksDelete [old_id t]
  end.

(** The operations of the service behind [add_call] and [remove_call]. *)
Definition add_op {R : Type} (sp : Spotify R) (run : Run) (t : LogEntry)
  : R -> reply unit * R :=
  match source_playlist (PLAYLIST_ID run) with
  | Some pid => playlist_add_items sp pid [new_id t]
  | None => current_user_saved_tracks_add sp [new_id t]
  end.

Definition remove_op {R : Type} (sp : Spotify R) (run : Run) (t : LogEntry)
  : R -> reply unit * R :=
  match source_playlist (PLAYLIST_ID run) with
  | Some pid => playlist_remove_all_occurrences_of_items sp pid [old_id t]
  | None => current_user_saved_tracks_delete sp [old_id t]
  end.

(** The records reconciliation acts on: those with a non-empty [new_id]
    and, when an artist filter is in force, an artist equal to it up to
    case. *)
Definition acted_on (py : Builtins) (run : Run) (t : LogEntry) : bool :=
  (truthy (new_id t)
   && match test_artist (TEST_MODE_ARTIST run) with
      | Some a => String.eqb (lower py (artist t)) (lower py a)
      | None => true
      end)%bool.

(** The shape of the trace of a reconciliation over a list of records:
    record after record, one add; then one removal exactly when the add
    returned; then the next record, whether or not a call failed. *)
Inductive reconciled (run : Run) : list LogEntry -> list Event -> Prop :=
| reconciled_done : reconciled run [] []
| reconciled_add_failed t ts cls msg tr :
    reconciled run ts tr ->
    reconciled run (t :: ts) ((add_call run t, Failed cls msg) :: tr)
| reconciled_swapped t ts outcome tr :
    reconciled run ts tr ->
    reconciled run (t :: ts)
               ((add_call run t, Returned) :: (remove_call run t, outcome) :: tr).

(** The line logged when replacing a record fails. *)
Definition error_line (t : LogEntry) (msg : string) : Output :=
  Print ("An error occurred while replacing track " ++ old_id t ++ ": " ++ msg).

(** A value that a cell accepts: a count, or a string without an illegal
    character among its first 32767. *)
Definition legal (value : Cell) : bool :=
  match value with
  | CStr s => negb (any_char illegal_character (slice_to 32767 s))
  | CInt _ => true
  end.

(** What a cell keeps of a value that it accepts. *)
Definition stored (value : Cell) : Cell :=
  match value with
  | CStr s => CStr (slice_to 32767 s)
  | CInt n => CInt n
  end.

(** The workbook of a run and of its audit records can be built: the
    library accepts every value of the run's parameters and of the
    records, and the audit sheet, one row per record below the header,
    has no more rows than a sheet can hold. *)
Definition accepted (py : Builtins) (run : Run) (log : list LogEntry) : bool :=
  (forallb (forallb legal) (run_info py run)
   && forallb (forallb legal) (map audit_row log)
   && within_rows (S (List.length log)))%bool.

(** The call that fetches the page of the source at an offset, and the
    operation of the service behind it. *)
Definition fetch_call (run : Run) (offset : nat) : Call :=
  match source_playlist (PLAYLIST_ID run) with
  | Some pid => PlaylistItems pid 100 offset (USER_MARKET run)
  | None => CurrentUserSavedTracks 50 offset
  end.

Definition fetch_op {R : Type} (sp : Spotify R) (run : Run) (offset : nat)
  : R -> reply Page * R :=
  match source_playlist (PLAYLIST_ID run) with
  | Some pid => playlist_items sp pid 100 offset (USER_MARKET run)
  | None => current_user_saved_tracks sp 50 offset
  end.

(** The world once a call has returned: the call is on the trace and the
    service is in the state the call left. *)
Definition returned {R : Type} (w : World R) (c : Call) (r : R) : World R :=
  {| w_remote := r;
     w_calls := w_calls w ++ [(c, Returned)];
     w_stdout := w_stdout w;
     w_stderr := w_stderr w;
     w_stdin := w_stdin w;
     w_files := w_files w |}.

(** An item with a usable track reference: it is not [None], it has a
    track, and the track has a non-empty identifier. *)
Definition usable (item : option Item) : Prop :=
  exists t id,
    item = Some {| track := Some t |} /\ t_id t = Some id /\ id <> EmptyString.

(** [rounds n]: [n] iterations of the audit loop, none of which breaks or
    raises, lead from one state of the loop's variables and of the world to
    another. *)
Inductive rounds {R : Type} (py : Builtins) (sp : Spotify R) (run : Run)
  : nat -> nat -> list LogEntry -> World R
    -> nat -> list LogEntry -> World R -> Prop :=
| rounds_none offset log w : rounds py sp run 0 offset log w offset log w
| rounds_more n offset log w offset1 log1 w1 offset' log' w' :
    audit_page py sp run offset log w = (Ok (Continue offset1 log1), w1) ->
    rounds py sp run n offset1 log1 w1 offset' log' w' ->
    rounds py sp run (S n) offset log w offset' log' w'.

(** ** Vocabulary of the further properties *)

(** One step of the comprehension that builds the map of a page. *)
Definition file_item (d : dict Track) (item : option Item) : dict Track :=
  match item with
  | Some {| track := Some t |} =>
      match t_id t with
      | Some id => if truthy id then dict_set id t d else d
      | None => d
      end
  | _ => d
  end.

(** What [auto_fit_columns] leaves in [column_dimensions] after the
    columns given: each has the width of its longest value, plus two. *)
Definition fitted (rows : list (list Cell)) (columns : list nat)
  (widths : list (nat * nat)) : list (nat * nat) :=
  fold_left
    (fun widths j => set_width j (max_length_of (column_cells rows j) + 2) widths)
    columns widths.

(** [m] keeps the invariant [I] of the world, however it ends. *)
Definition preserves {R A : Type} (I : World R -> Prop) (m : M R A) : Prop :=
  forall w, I w -> I (snd (m w)).

(** Whatever [m] raises is in [E]. *)
Definition raises_only {R A : Type} (E : exn -> Prop) (m : M R A) : Prop :=
  forall w e, fst (m w) = Raise e -> E e.

(** Steps 1 to 4 of [main], up to the confirmation: the run they fix, or
    [None] when the user declines the live run. *)
Definition setup {R : Type} (py : Builtins) (sp : Spotify R)
  (fuel : nat) (args : Args) : M R (option Run) :=
  match arg_artist args with
  | Some a =>
      if truthy (strip py a)
      then ret tt
      else print "Error: --artist parameter cannot be an empty string." ;; sys_exit 1
  | None => ret tt
  end ;;
  user <- authenticate sp ;;
  check_market sp args (upper py (market args)) ;;
  source <- determine_source py sp fuel args user ;;
  let run :=
    {| DRY_RUN := dry_run args;
       USER_MARKET := upper py (market args);
       PLAYLIST_ID := snd source;
       TEST_MODE_ARTIST := arg_artist args;
       source_name := fst source;
       user := user |} in
  continue <- announce_mode py run ;;
  ret (if continue then Some run else None).

(** Steps 5 to 7 of [main]. *)
Definition finish {R : Type} (py : Builtins) (sp : Spotify R)
  (fuel : nat) (run : Run) : M R unit :=
  tracks_to_audit_log <- audit py sp fuel run ;;
  report py run tracks_to_audit_log ;;
  live_run_actions py sp run tracks_to_audit_log.

(** [m] never stops for want of fuel. *)
Definition fuel_free {R A : Type} (m : M R A) : Prop :=
  forall w, fst (m w) <> OutOfFuel.

(** A removal that returned: the mark, in the trace, of a track replaced
    in full. *)
Definition replaced (ev : Event) : bool :=
  (is_remove (fst ev)
   && match snd ev with
      | Returned => true
      | Failed _ _ => false
      end)%bool.

(** * Properties *)

Open Scope list_scope.

(** ** Reasoning about statements *)

Section Statements.

Context {R : Type}.

Lemma bind_ok {A B : Type} (m : M R A) (k : A -> M R B) w a w1 :
  m w = (Ok a, w1) -> bind m k w = k a w1.
Proof. intros E. unfold bind. rewrite E. reflexivity. Qed.

Lemma bind_raise {A B : Type} (m : M R A) (k : A -> M R B) w e w1 :
  m w = (Raise e, w1) -> bind m k w = (Raise e, w1).
Proof. intros E. unfold bind. rewrite E. reflexivity. Qed.

Lemma bind_out_of_fuel {A B : Type} (m : M R A) (k : A -> M R B) w w1 :
  m w = (OutOfFuel, w1) -> bind m k w = (OutOfFuel, w1).
Proof. intros E. unfold bind. rewrite E. reflexivity. Qed.

(** A completed [bind] went through a completed first statement. *)
Lemma bind_inv_ok {A B : Type} (m : M R A) (k : A -> M R B) w b w2 :
  bind m k w = (Ok b, w2) ->
  exists a w1, m w = (Ok a, w1) /\ k a w1 = (Ok b, w2).
Proof.
  unfold bind. destruct (m w) as [[a | e |] w1]; intros E; try discriminate.
  exists a, w1. split; [reflexivity | exact E].
Qed.

Lemma issues_same (w w' : World R) : w_calls w' = w_calls w -> issues w w' [].
Proof. unfold issues. intros ->. now rewrite app_nil_r. Qed.

Lemma issues_nil (w : World R) : issues w w [].
Proof. now apply issues_same. Qed.

Lemma issues_trans (w0 w1 w2 : World R) tr1 tr2 :
  issues w0 w1 tr1 -> issues w1 w2 tr2 -> issues w0 w2 (tr1 ++ tr2).
Proof. unfold issues. intros H1 H2. rewrite H2, H1. now rewrite app_assoc. Qed.

Lemma issues_inj (w w' : World R) tr1 tr2 : issues w w' tr1 -> issues w w' tr2 -> tr1 = tr2.
Proof. unfold issues. intros H1 H2. rewrite H1 in H2. now apply app_inv_head in H2. Qed.

Lemma bind_print {B : Type} line (k : unit -> M R B) (w : World R) :
  bind (print line) k w = k tt (snd (print line w)).
Proof. reflexivity. Qed.

Lemma print_files line (w : World R) : w_files (snd (print line w)) = w_files w.
Proof. reflexivity. Qed.

(** *** Statements that issue no mutating call *)

Lemma read_only_ret {A : Type} (a : A) : read_only (@ret R A a).
Proof. intros w. exists []. split; [apply issues_nil | constructor]. Qed.

Lemma read_only_raise {A : Type} e : read_only (@raise R A e).
Proof. intros w. exists []. split; [apply issues_nil | constructor]. Qed.

Lemma read_only_sys_exit {A : Type} code : read_only (@sys_exit R A code).
Proof. apply read_only_raise. Qed.

Lemma read_only_out_of_fuel {A : Type} : read_only (@out_of_fuel R A).
Proof. intros w. exists []. split; [apply issues_nil | constructor]. Qed.

Lemma read_only_print line : read_only (@print R line).
Proof. intros w. exists []. split; [now apply issues_same | constructor]. Qed.

Lemma read_only_save py filename wb : read_only (@save R py filename wb).
Proof.
  intros w. exists []. split; [| constructor].
  apply issues_same. unfold save. now destruct (save_error py filename wb) as [[cls msg] |].
Qed.

Lemma read_only_write_stdout text : read_only (@write_stdout R text).
Proof. intros w. exists []. split; [now apply issues_same | constructor]. Qed.

Lemma read_only_write_stderr text : read_only (@write_stderr R text).
Proof. intros w. exists []. split; [now apply issues_same | constructor]. Qed.

Lemma read_only_lift {A : Type} (r : reply A) : read_only (@lift R A r).
Proof.
  destruct r as [[cls msg] | a]; simpl; [apply read_only_raise | apply read_only_ret].
Qed.

Lemma read_only_input prompt : read_only (@input R prompt).
Proof.
  intros w. exists []. split; [| constructor].
  apply issues_same. unfold input. now destruct (w_stdin w).
Qed.

Lemma read_only_invoke {A : Type} c (op : R -> reply A * R) :
  mutating c = false -> read_only (invoke c op).
Proof.
  intros Hc w. unfold invoke, issues.
  destruct (op (w_remote w)) as [[[cls msg] | a] r']; simpl.
  - exists [(c, Failed cls msg)]. split; [reflexivity |].
    constructor; [exact Hc | constructor].
  - exists [(c, Returned)]. split; [reflexivity |].
    constructor; [exact Hc | constructor].
Qed.

Lemma read_only_bind {A B : Type} (m : M R A) (k : A -> M R B) :
  read_only m -> (forall a, read_only (k a)) -> read_only (bind m k).
Proof.
  intros Hm Hk w. destruct (Hm w) as [tr1 [H1 Q1]].
  unfold bind. destruct (m w) as [[a | e |] w1]; simpl in *.
  - destruct (Hk a w1) as [tr2 [H2 Q2]].
    exists (tr1 ++ tr2). split.
    + eapply issues_trans; eassumption.
    + apply Forall_app. split; assumption.
  - exists tr1. split; assumption.
  - exists tr1. split; assumption.
Qed.

Lemma read_only_try_except {A : Type} (m : M R A) handles h :
  read_only m -> (forall e, read_only (h e)) -> read_only (try_except m handles h).
Proof.
  intros Hm Hh w. destruct (Hm w) as [tr1 [H1 Q1]].
  unfold try_except. destruct (m w) as [[a | e |] w1]; simpl in *.
  - exists tr1. split; assumption.
  - destruct (handles e).
    + destruct (Hh e w1) as [tr2 [H2 Q2]].
      exists (tr1 ++ tr2). split.
      * eapply issues_trans; eassumption.
      * apply Forall_app. split; assumption.
    + exists tr1. split; assumption.
  - exists tr1. split; assumption.
Qed.

End Statements.

(** [main] on a command line that parses is the rest of its body under
    the handler. *)
Lemma main_parsed {R : Type} (py : Builtins) (sp : Spotify R) fuel args :
  main py sp fuel (Parsed args)
  = try_except
      (main_body py sp fuel args)
      is_Exception
      (fun e =>
         print (nl ++ nl ++ "An unexpected error occurred: " ++ str_of_exn e) ;;
         sys_exit 1).
Proof. reflexivity. Qed.

Create HintDb read_only.

#[local] Hint Resolve read_only_ret read_only_raise read_only_sys_exit
  read_only_out_of_fuel read_only_print read_only_save read_only_input
  read_only_write_stdout read_only_write_stderr read_only_lift
  : read_only.

(** Splits a composed statement into its parts. *)
Ltac read_only_step :=
  match goal with
  | |- read_only (bind _ _) => apply read_only_bind; [| intros ?]
  | |- read_only (try_except _ _ _) => apply read_only_try_except; [| intros ?]
  | |- read_only (invoke _ _) => apply read_only_invoke; reflexivity
  | |- read_only (if ?b then _ else _) => destruct b
  | |- read_only (match ?x with _ => _ end) => destruct x
  | |- read_only _ => solve [auto with read_only]
  end.

Ltac read_only_auto := repeat read_only_step.

(** ** Worksheets *)

Section Worksheets.

Variable py : Builtins.

(** A row is made when each of its values is accepted, and then holds what
    the cells keep; otherwise the library raises
    [IllegalCharacterError]. *)
Lemma bind_values_spec (row : list Cell) :
  match bind_values py row with
  | inr cells => forallb legal row = true /\ cells = map stored row
  | inl (cls, _) => forallb legal row = false /\ cls = IllegalCharacterError
  end.
Proof.
  induction row as [| value row IH]; cbn [bind_values]; [now split |].
  destruct value as [s | n]; cbn [bind_value forallb legal stored map and_then].
  - unfold check_string.
    destruct (any_char illegal_character (slice_to 32767 s));
      cbn [and_then negb andb]; [now split |].
    destruct (bind_values py row) as [[cls msg] | cells]; cbn [and_then].
    + exact IH.
    + destruct IH as [IH ->]. now split.
  - destruct (bind_values py row) as [[cls msg] | cells]; cbn [and_then andb].
    + exact IH.
    + destruct IH as [IH ->]. now split.
Qed.

Lemma append_spec (worksheet : Sheet) (row : list Cell) :
  match append py worksheet row with
  | inr appended =>
      forallb legal row = true
      /\ appended = {| sh_title := sh_title worksheet;
                       sh_rows := sh_rows worksheet ++ [map stored row];
                       sh_widths := sh_widths worksheet |}
  | inl (cls, _) => forallb legal row = false /\ cls = IllegalCharacterError
  end.
Proof.
  unfold append. pose proof (bind_values_spec row) as H.
  destruct (bind_values py row) as [[cls msg] | cells]; cbn [and_then].
  - exact H.
  - destruct H as [H ->]. now split.
Qed.

Lemma append_rows_spec (rows : list (list Cell)) :
  forall worksheet,
    match append_rows py worksheet rows with
    | inr appended =>
        forallb (forallb legal) rows = true
        /\ appended = {| sh_title := sh_title worksheet;
                         sh_rows := sh_rows worksheet ++ map (map stored) rows;
                         sh_widths := sh_widths worksheet |}
    | inl (cls, _) =>
        forallb (forallb legal) rows = false /\ cls = IllegalCharacterError
    end.
Proof.
  induction rows as [| row rows IH]; intros worksheet; cbn [append_rows forallb map].
  - split; [reflexivity |]. rewrite app_nil_r. now destruct worksheet.
  - pose proof (append_spec worksheet row) as H.
    destruct (append py worksheet row) as [[cls msg] | appended]; cbn [and_then].
    + destruct H as [-> ->]. now split.
    + destruct H as [-> ->]. cbn [andb].
      specialize (IH {| sh_title := sh_title worksheet;
                        sh_rows := sh_rows worksheet ++ [map stored row];
                        sh_widths := sh_widths worksheet |}).
      destruct (append_rows py _ rows) as [[cls msg] | appended'].
      * exact IH.
      * destruct IH as [IH ->]. split; [exact IH |].
        cbn [sh_title sh_rows sh_widths]. now rewrite <- app_assoc.
Qed.

(** The rows that hold a cell are within the extent of the sheet. *)
Lemma last_row_le (rows : list (list Cell)) : last_row rows <= List.length rows.
Proof.
  induction rows as [| row rows IH]; cbn [last_row List.length]; [lia |].
  destruct (last_row rows); destruct row; lia.
Qed.


Lemma last_row_full (rows : list (list Cell)) :
  Forall (fun row => row <> []) rows -> last_row rows = List.length rows.
Proof.
  induction 1 as [| row rows Hne _ IH]; cbn [last_row List.length]; [reflexivity |].
  rewrite IH. destruct rows; destruct row; cbn [List.length]; congruence.
Qed.

Lemma max_row_le (rows : list (list Cell)) :
  rows <> [] -> max_row rows <= List.length rows.
Proof.
  intros Hne. unfold max_row. pose proof (last_row_le rows).
  destruct rows; [congruence |]. cbn [List.length] in *. lia.
Qed.

Lemma max_column_bounds (rows : list (list Cell)) :
  1 <= max_column rows
  /\ forall row, In row rows -> List.length row <= max_column rows.
Proof.
  unfold max_column. split; [lia |].
  induction rows as [| row0 rows IH]; intros row Hin; [destruct Hin |].
  cbn [fold_right]. destruct Hin as [<- | Hin].
  - lia.
  - specialize (IH row Hin). lia.
Qed.

(** The columns 1 to [n] all have a letter exactly when [n] has one. *)
Lemma has_letter_seq n :
  forallb has_letter (seq 1 n) = true <-> (N.of_nat n <= 18278)%N.
Proof.
  induction n as [| n IH].
  - cbn. split; [lia | reflexivity].
  - rewrite seq_S, forallb_app. cbn [forallb Nat.add].
    rewrite !andb_true_iff, IH. unfold has_letter.
    rewrite andb_true_iff, Nat.leb_le, N.leb_le. lia.
Qed.

(** The outer loop of [auto_fit_columns]. *)
Lemma fit_columns_spec (rows : list (list Cell)) (columns : list nat) :
  forall widths,
    match fit_columns py rows columns widths with
    | inr widths' =>
        (columns = [] \/ within_rows (max_row rows) = true)
        /\ forallb has_letter columns = true
        /\ widths' = fitted rows columns widths
    | inl (cls, msg) =>
        cls = ValueError
        /\ columns <> []
        /\ ((within_rows (max_row rows) = false /\ msg = row_limit_error py)
            \/ (within_rows (max_row rows) = true
                /\ forallb has_letter columns = false
                /\ msg = column_limit_error py))
    end.
Proof.
  unfold fitted.
  induction columns as [| j columns IH]; intros widths; cbn [fit_columns fold_left forallb].
  - split; [now left |]. now split.
  - destruct (within_rows (max_row rows)) eqn:Erows; cbn [negb].
    + destruct (has_letter j) eqn:Ej; cbn [negb andb].
      * specialize (IH (set_width j (max_length_of (column_cells rows j) + 2) widths)).
        destruct (fit_columns py rows columns _) as [[cls msg] | widths'].
        -- destruct IH as (-> & _ & [[H _] | H]); [discriminate |].
           split; [reflexivity |]. split; [discriminate |]. right. now split.
        -- destruct IH as (_ & H1 & H2). split; [now right |]. now split.
      * split; [reflexivity |]. split; [discriminate |]. right. now split.
    + split; [reflexivity |]. split; [discriminate |]. now left.
Qed.

Lemma auto_fit_columns_spec (worksheet : Sheet) :
  match auto_fit_columns py worksheet with
  | inr worksheet' =>
      sh_title worksheet' = sh_title worksheet
      /\ sh_rows worksheet' = sh_rows worksheet
      /\ match sh_rows worksheet with
         | [] => sh_widths worksheet' = sh_widths worksheet
         | _ :: _ =>
             within_rows (max_row (sh_rows worksheet)) = true
             /\ has_letter (max_column (sh_rows worksheet)) = true
             /\ sh_widths worksheet'
                = fitted (sh_rows worksheet)
                         (seq 1 (max_column (sh_rows worksheet)))
                         (sh_widths worksheet)
         end
  | inl (cls, msg) =>
      cls = ValueError
      /\ sh_rows worksheet <> []
      /\ ((within_rows (max_row (sh_rows worksheet)) = false
           /\ msg = row_limit_error py)
          \/ (within_rows (max_row (sh_rows worksheet)) = true
              /\ has_letter (max_column (sh_rows worksheet)) = false
              /\ msg = column_limit_error py))
  end.
Proof.
  unfold auto_fit_columns.
  destruct (sh_rows worksheet) as [| row rows] eqn:Erows; [now repeat split |].
  pose proof (fit_columns_spec (row :: rows) (seq 1 (max_column (row :: rows)))
                (sh_widths worksheet)) as H.
  pose proof (proj1 (max_column_bounds (row :: rows))) as Hcol.
  assert (Hletter : forallb has_letter (seq 1 (max_column (row :: rows)))
                    = has_letter (max_column (row :: rows))).
  { destruct (has_letter (max_column (row :: rows))) eqn:E.
    - apply has_letter_seq. unfold has_letter in E.
      apply andb_true_iff in E. destruct E as [_ E]. now apply N.leb_le.
    - destruct (forallb has_letter (seq 1 (max_column (row :: rows)))) eqn:E';
        [| reflexivity].
      apply has_letter_seq in E'. unfold has_letter in E.
      apply andb_false_iff in E. destruct E as [E | E].
      + apply Nat.leb_gt in E. lia.
      + apply N.leb_gt in E. lia. }
  destruct (fit_columns py (row :: rows) _ (sh_widths worksheet))
    as [[cls msg] | widths']; cbn [and_then sh_title sh_rows sh_widths].
  - destruct H as (-> & _ & H). split; [reflexivity |]. split; [discriminate |].
    rewrite <- Hletter. exact H.
  - destruct H as ([H | H] & H1 & ->).
    + exfalso. destruct (max_column (row :: rows)); [lia | discriminate].
    + split; [reflexivity |]. split; [reflexivity |]. rewrite <- Hletter. now split.
Qed.

Lemma max_column_even (rows : list (list Cell)) n :
  rows <> [] -> 1 <= n -> Forall (fun row => List.length row = n) rows ->
  max_column rows = n.
Proof.
  intros Hne Hn Hall. unfold max_column.
  assert (H : fold_right (fun row m => Nat.max (List.length row) m) 0 rows = n).
  { induction Hall as [| row rows Hrow Hall IH]; [congruence |].
    cbn [fold_right]. rewrite Hrow. destruct rows as [| row' rows'].
    - cbn. lia.
    - rewrite IH; [lia | discriminate]. }
  rewrite H. lia.
Qed.

(** The audit sheet is made exactly when every value of the records is
    accepted and the records, with the header, fit in a sheet; it then
    holds the header and one row per record, in order. *)
Lemma ws_audit_spec (log : list LogEntry) :
  match ws_audit py log with
  | inr audit_sheet =>
      forallb (forallb legal) (map audit_row log) = true
      /\ within_rows (S (List.length log)) = true
      /\ sh_title audit_sheet = "Audit Report"
      /\ sh_rows audit_sheet
         = headers :: map (fun t => map stored (audit_row t)) log
  | inl _ =>
      (forallb (forallb legal) (map audit_row log)
       && within_rows (S (List.length log)))%bool = false
  end.
Proof.
  unfold ws_audit.
  pose proof (append_spec (new_sheet "Audit Report") headers) as H0.
  destruct (append py (new_sheet "Audit Report") headers) as [[cls0 msg0] | ws0];
    [destruct H0 as [H0 _]; vm_compute in H0; discriminate |].
  destruct H0 as [_ ->]. cbn [and_then].
  match goal with
  | |- context [append_rows py ?ws ?rows] =>
      pose proof (append_rows_spec rows ws) as H1;
      destruct (append_rows py ws rows) as [[cls1 msg1] | ws1]
  end; cbn [and_then].
  - destruct H1 as [-> _]. reflexivity.
  - destruct H1 as [Hlegal ->]. rewrite Hlegal. cbn [andb].
    cbn [new_sheet sh_title sh_rows sh_widths app].
    change (map stored headers) with headers.
    rewrite map_map.
    set (rows := headers :: map (fun t => map stored (audit_row t)) log).
    assert (Hfull : Forall (fun row : list Cell => row <> []) rows).
    { constructor; [discriminate |]. apply Forall_forall. intros row Hin.
      apply in_map_iff in Hin. destruct Hin as (t & <- & _). discriminate. }
    assert (Hrow : max_row rows = S (List.length log)).
    { unfold max_row. rewrite (last_row_full _ Hfull). unfold rows.
      cbn [List.length]. rewrite length_map. lia. }
    assert (Hcol : max_column rows = 7).
    { apply max_column_even; [discriminate | lia |].
      constructor; [reflexivity |]. apply Forall_forall. intros row Hin.
      apply in_map_iff in Hin. destruct Hin as (t & <- & _). reflexivity. }
    match goal with
    | |- context [auto_fit_columns py ?ws] =>
        pose proof (auto_fit_columns_spec ws) as H2;
        destruct (auto_fit_columns py ws) as [[cls2 msg2] | ws2]
    end; cbn [sh_title sh_rows sh_widths] in H2; fold rows in H2.
    + rewrite Hrow, Hcol in H2.
      destruct H2 as (_ & _ & [[H2 _] | (_ & H2 & _)]);
        [exact H2 | vm_compute in H2; discriminate].
    + destruct H2 as (Htitle & Hrows & H2). unfold rows in H2 at 1.
      rewrite Hrow in H2. destruct H2 as (H2 & _).
      split; [reflexivity |]. split; [exact H2 |]. now split.
Qed.

(** The summary sheet is made exactly when every value of the run's
    parameters is accepted. *)
Lemma ws_summary_spec (run : Run) (log : list LogEntry) :
  match ws_summary py run log with
  | inr summary =>
      forallb (forallb legal) (run_info py run) = true
      /\ sh_title summary = "Run Summary"
      /\ sh_rows summary
         = map (map stored)
               ([[CStr "Run Parameters"]] ++ run_info py run ++ [[]]
                ++ [[CStr "Scan Statistics"]] ++ scan_stats log)
  | inl (cls, _) =>
      forallb (forallb legal) (run_info py run) = false
      /\ cls = IllegalCharacterError
  end.
Proof.
  unfold ws_summary.
  pose proof (append_spec (new_sheet "Run Summary") [CStr "Run Parameters"]) as H0.
  destruct (append py (new_sheet "Run Summary") [CStr "Run Parameters"])
    as [[cls0 msg0] | ws0];
    [destruct H0 as [H0 _]; vm_compute in H0; discriminate |].
  destruct H0 as [_ ->]. cbn [and_then].
  match goal with
  | |- context [append_rows py ?ws ?rows] =>
      pose proof (append_rows_spec rows ws) as H1;
      destruct (append_rows py ws rows) as [[cls1 msg1] | ws1]
  end; cbn [and_then]; [exact H1 |].
  destruct H1 as [Hlegal ->].
  match goal with
  | |- context [append py ?ws []] =>
      pose proof (append_spec ws []) as H2;
      destruct (append py ws []) as [[cls2 msg2] | ws2]
  end; [destruct H2 as [H2 _]; discriminate |].
  destruct H2 as [_ ->]. cbn [and_then].
  match goal with
  | |- context [append py ?ws [CStr "Scan Statistics"]] =>
      pose proof (append_spec ws [CStr "Scan Statistics"]) as H3;
      destruct (append py ws [CStr "Scan Statistics"]) as [[cls3 msg3] | ws3]
  end; [destruct H3 as [H3 _]; vm_compute in H3; discriminate |].
  destruct H3 as [_ ->]. cbn [and_then].
  match goal with
  | |- context [append_rows py ?ws ?rows] =>
      pose proof (append_rows_spec rows ws) as H4;
      destruct (append_rows py ws rows) as [[cls4 msg4] | ws4]
  end; [destruct H4 as [H4 _]; vm_compute in H4; discriminate |].
  destruct H4 as [_ ->]. cbn [and_then].
  match goal with
  | |- context [auto_fit_columns py ?ws] =>
      pose proof (auto_fit_columns_spec ws) as H5;
      destruct (auto_fit_columns py ws) as [[cls5 msg5] | ws5]
  end.
  - exfalso. destruct H5 as (_ & _ & [[H5 _] | (_ & H5 & _)]);
      vm_compute in H5; discriminate.
  - destruct H5 as (Htitle & Hrows & _).
    split; [exact Hlegal |]. split; [exact Htitle |].
    rewrite Hrows. cbn [new_sheet sh_rows]. rewrite !map_app. reflexivity.
Qed.

(** The workbook is built exactly when it is [accepted], and then has the
    two sheets, the summary first. *)
Lemma workbook_spec (run : Run) (log : list LogEntry) :
  match workbook py run log with
  | inr wb =>
      accepted py run log = true
      /\ exists summary audit_sheet,
           wb = [summary; audit_sheet]
           /\ sh_title summary = "Run Summary"
           /\ sh_title audit_sheet = "Audit Report"
           /\ sh_rows audit_sheet
              = headers :: map (fun t => map stored (audit_row t)) log
  | inl _ => accepted py run log = false
  end.
Proof.
  unfold workbook, accepted.
  pose proof (ws_summary_spec run log) as Hs.
  destruct (ws_summary py run log) as [[cls msg] | summary]; cbn [and_then].
  - destruct Hs as [-> _]. reflexivity.
  - destruct Hs as (-> & Htitle & _). cbn [andb].
    pose proof (ws_audit_spec log) as Ha.
    destruct (ws_audit py log) as [f | audit_sheet]; cbn [and_then].
    + exact Ha.
    + destruct Ha as (-> & -> & Htitle' & Hrows). split; [reflexivity |].
      exists summary, audit_sheet. now repeat split.
Qed.

End Worksheets.

(** ** Dry run *)

Section DryRun.

Context {R : Type}.
Variable py : Builtins.
Variable sp : Spotify R.

Lemma read_only_authenticate : read_only (authenticate sp).
Proof. unfold authenticate. read_only_auto. Qed.

Lemma read_only_check_market args USER_MARKET :
  read_only (check_market sp args USER_MARKET).
Proof. unfold check_market. read_only_auto. Qed.

Lemma read_only_fetch_playlists fuel user offset selection_options :
  read_only (fetch_playlists sp fuel user offset selection_options).
Proof.
  revert offset selection_options.
  induction fuel as [| fuel IH]; intros offset selection_options; simpl.
  - read_only_auto.
  - apply read_only_bind; [read_only_auto |].
    intros [| playlist rest]; [read_only_auto | apply IH].
Qed.

Lemma read_only_print_menu i selection_options :
  read_only (@print_menu R i selection_options).
Proof.
  revert i. induction selection_options as [| option rest IH]; intros i; simpl.
  - read_only_auto.
  - apply read_only_bind; [read_only_auto | intros _; apply IH].
Qed.

Lemma read_only_choose_source fuel selection_options :
  read_only (@choose_source R py fuel selection_options).
Proof.
  induction fuel as [| fuel IH]; simpl.
  - read_only_auto.
  - apply read_only_bind; [read_only_auto |]. intros choice_str.
    destruct (int_of_str py choice_str) as [choice_index |].
    + match goal with |- read_only (if ?b then _ else _) => destruct b end.
      * read_only_auto.
      * apply read_only_bind; [read_only_auto | intros _; apply IH].
    + apply read_only_bind; [read_only_auto | intros _; apply IH].
Qed.

Lemma read_only_determine_source fuel args user :
  read_only (determine_source py sp fuel args user).
Proof.
  unfold determine_source. destruct (select_from_list args).
  - apply read_only_bind; [read_only_auto | intros _].
    apply read_only_bind; [apply read_only_fetch_playlists | intros options].
    apply read_only_bind; [read_only_auto | intros _].
    apply read_only_bind; [apply read_only_print_menu | intros _].
    apply read_only_choose_source.
  - read_only_auto.
Qed.

Lemma read_only_announce_mode run : read_only (@announce_mode R py run).
Proof. unfold announce_mode. read_only_auto. Qed.

Lemma read_only_fetch_page run offset : read_only (fetch_page sp run offset).
Proof. unfold fetch_page. read_only_auto. Qed.

Lemma read_only_audit_track original_track_map resolved_track :
  read_only (audit_track py sp original_track_map resolved_track).
Proof. unfold audit_track. read_only_auto. Qed.

Lemma read_only_audit_tracks original_track_map full_tracks_details log :
  read_only (audit_tracks py sp original_track_map full_tracks_details log).
Proof.
  revert log.
  induction full_tracks_details as [| [resolved_track |] rest IH]; intros log; simpl.
  - read_only_auto.
  - apply read_only_bind; [apply read_only_audit_track |].
    intros [log_entry |]; apply IH.
  - apply IH.
Qed.

Lemma read_only_audit_page run offset log :
  read_only (audit_page py sp run offset log).
Proof.
  unfold audit_page.
  apply read_only_bind; [apply read_only_fetch_page |]. intros [| item results].
  - read_only_auto.
  - destruct (dict_keys (original_track_map_of (item :: results))).
    + read_only_auto.
    + apply read_only_bind; [read_only_auto | intros full_tracks_details].
      apply read_only_bind; [apply read_only_audit_tracks | intros log'].
      read_only_auto.
Qed.

Lemma read_only_audit_loop fuel run offset log :
  read_only (audit_loop py sp fuel run offset log).
Proof.
  revert offset log. induction fuel as [| fuel IH]; intros offset log; simpl.
  - read_only_auto.
  - apply read_only_bind; [apply read_only_audit_page |].
    intros [| offset' log']; [read_only_auto | apply IH].
Qed.

Lemma read_only_audit fuel run : read_only (audit py sp fuel run).
Proof.
  unfold audit. apply read_only_bind; [read_only_auto | intros _].
  apply read_only_audit_loop.
Qed.

Lemma read_only_report run log : read_only (@report R py run log).
Proof. unfold report. read_only_auto. Qed.

(** Step 7 of a dry run only prints. *)
Lemma read_only_live_run_actions run log :
  DRY_RUN run = true -> read_only (live_run_actions py sp run log).
Proof. intros Hdry. unfold live_run_actions. rewrite Hdry. simpl. read_only_auto. Qed.

Lemma read_only_main_body fuel args :
  dry_run args = true -> read_only (main_body py sp fuel args).
Proof.
  intros Hdry. unfold main_body.
  apply read_only_bind; [read_only_auto | intros _].
  apply read_only_bind; [apply read_only_authenticate | intros user].
  apply read_only_bind; [apply read_only_check_market | intros _].
  apply read_only_bind; [apply read_only_determine_source | intros source].
  apply read_only_bind; [apply read_only_announce_mode | intros [|]].
  - apply read_only_bind; [apply read_only_audit | intros log].
    apply read_only_bind; [apply read_only_report | intros _].
    apply read_only_live_run_actions. exact Hdry.
  - read_only_auto.
Qed.

(** C1. In a dry run, whatever the remote service answers and however many
    replacements the audit finds, every call that [main] issues is a
    non-mutating one: the trace grows by calls that are neither a playlist
    add or remove nor a saved-tracks add or delete. *)
Theorem dry_run_issues_no_mutating_call fuel args (w : World R) :
  dry_run args = true ->
  exists tr,
    w_calls (snd (main py sp fuel (Parsed args) w)) = w_calls w ++ tr
    /\ Forall (fun ev => mutating (fst ev) = false) tr.
Proof.
  intros Hdry.
  assert (H : read_only (main py sp fuel (Parsed args))).
  { rewrite main_parsed. apply read_only_try_except.
    - apply read_only_main_body. exact Hdry.
    - intros e. read_only_auto. }
  exact (H w).
Qed.

End DryRun.

(** ** Classification of a resolved track *)

Section Classification.

Context {R : Type}.
Variable py : Builtins.
Variable sp : Spotify R.

Lemma dict_get_set {V : Type} (k k' : string) (v : V) (d : dict V) :
  dict_get k (dict_set k' v d) = if String.eqb k' k then Some v else dict_get k d.
Proof.
  induction d as [| [k0 v0] d IH]; simpl.
  - reflexivity.
  - destruct (String.eqb k0 k') eqn:E0; simpl.
    + apply String.eqb_eq in E0. subst k0.
      destruct (String.eqb k' k); reflexivity.
    + destruct (String.eqb k0 k) eqn:E1.
      * apply String.eqb_eq in E1. subst k0.
        rewrite String.eqb_sym, E0. reflexivity.
      * exact IH.
Qed.

(** Every entry of the page map is the track of an item of the page, filed
    under that track's own identifier. *)
Lemma original_track_map_of_get (items : Page) k t :
  dict_get k (original_track_map_of items) = Some t ->
  In (Some {| track := Some t |}) items /\ t_id t = Some k /\ truthy k = true.
Proof.
  unfold original_track_map_of.
  assert (G : forall (rest : Page) (d : dict Track),
             (forall k t, dict_get k d = Some t ->
                          In (Some {| track := Some t |}) items
                          /\ t_id t = Some k /\ truthy k = true) ->
             (forall item, In item rest -> In item items) ->
             forall k t,
               dict_get k
                 (fold_left
                    (fun d item =>
                       match item with
                       | Some {| track := Some t |} =>
                           match t_id t with
                           | Some id => if truthy id then dict_set id t d else d
                           | None => d
                           end
                       | _ => d
                       end) rest d) = Some t ->
               In (Some {| track := Some t |}) items
               /\ t_id t = Some k /\ truthy k = true).
  { induction rest as [| item rest IH]; intros d Hd Hin k0 t0; simpl.
    - apply Hd.
    - apply IH.
      + destruct item as [[[t1 |]] |]; try exact Hd.
        destruct (t_id t1) as [id |] eqn:Eid; try exact Hd.
        destruct (truthy id) eqn:Etr; try exact Hd.
        intros k1 t2. rewrite dict_get_set.
        destruct (String.eqb id k1) eqn:Ek.
        * apply String.eqb_eq in Ek. subst k1. intros [= <-].
          split; [apply Hin; now left | split; assumption].
        * apply Hd.
      + intros item' Hi. apply Hin. now right. }
  apply G.
  - intros k0 t0. simpl. discriminate.
  - auto.
Qed.

(** The first qualifying candidate, when there is one. *)
Lemma find_replacement_some title items c :
  find_replacement py title items = Some c ->
  exists before after,
    items = before ++ c :: after
    /\ Forall (fun c' => ~ qualifies py title c') before
    /\ qualifies py title c.
Proof.
  induction items as [| c0 items IH]; simpl; [discriminate |].
  destruct (c_is_playable c0 && String.eqb (lower py (c_name c0)) (lower py title))%bool
    eqn:E.
  - intros [= <-]. exists [], items. split; [reflexivity |]. split; [constructor |].
    apply andb_true_iff in E. destruct E as [E1 E2].
    apply String.eqb_eq in E2. split; assumption.
  - intros H. destruct (IH H) as [before [after [-> [Hb Hc]]]].
    exists (c0 :: before), after. split; [reflexivity |]. split; [| exact Hc].
    constructor; [| exact Hb].
    intros [Q1 Q2]. rewrite Q1, Q2, String.eqb_refl in E. discriminate.
Qed.

Lemma find_replacement_none title items :
  find_replacement py title items = None ->
  Forall (fun c' => ~ qualifies py title c') items.
Proof.
  induction items as [| c0 items IH]; simpl; [constructor |].
  destruct (c_is_playable c0 && String.eqb (lower py (c_name c0)) (lower py title))%bool
    eqn:E; [discriminate |].
  intros H. constructor; [| exact (IH H)].
  intros [Q1 Q2]. rewrite Q1, Q2, String.eqb_refl in E. discriminate.
Qed.

(** What [audit_track] has done when it yields a record. *)
Lemma audit_track_inv original_track_map resolved_track (w w' : World R) e :
  audit_track py sp original_track_map resolved_track w = (Ok (Some e), w') ->
  let id_in_library :=
    match r_linked_from resolved_track with
    | Some linked_id => linked_id
    | None => r_id resolved_track
    end in
  exists original_track others,
    dict_get id_in_library original_track_map = Some original_track
    /\ t_artists original_track = artist e :: others
    /\ title e = t_name original_track
    /\ old_album e = t_album original_track
    /\ old_id e = id_in_library
    /\ ((r_linked_from resolved_track <> None
         /\ reason e = "Re-linked"
         /\ new_id e = r_id resolved_track
         /\ new_album e = r_album resolved_track
         /\ issues w w' [])
        \/ (r_linked_from resolved_track = None
            /\ r_is_playable resolved_track = false
            /\ reason e = "Unplayable"
            /\ exists search_results,
                 let query := (title e ++ " artist:" ++ artist e)%string in
                 fst (search sp query 5 (w_remote w)) = inr search_results
                 /\ issues w w' [(Search query 5, Returned)]
                 /\ match find_replacement py (title e) search_results with
                    | Some c => new_id e = c_id c /\ new_album e = c_album c
                    | None => new_id e = empty /\ new_album e = empty
                    end)
        \/ (r_linked_from resolved_track = None
            /\ r_is_playable resolved_track = true
            /\ reason e = "OK"
            /\ new_id e = empty
            /\ new_album e = empty
            /\ issues w w' [])).
Proof.
  intros H id_in_library. unfold audit_track in H. fold id_in_library in H.
  destruct (dict_get id_in_library original_track_map) as [original_track |] eqn:Eget;
    [| discriminate].
  destruct (t_artists original_track) as [| name others] eqn:Eart; [discriminate |].
  exists original_track, others.
  destruct (r_linked_from resolved_track) as [linked_id |] eqn:Elink.
  - (* Re-linked *)
    cbv [bind ret print] in H. simpl in H. injection H as <- <-. simpl.
    repeat split; auto. left. repeat split; auto; try discriminate.
    now apply issues_same.
  - destruct (r_is_playable resolved_track) eqn:Eplay; simpl in H.
    + (* OK *)
      cbv [bind ret] in H. injection H as <- <-. simpl.
      repeat split; auto. right. right. repeat split; auto. apply issues_nil.
    + (* Unplayable *)
      cbv [bind ret print invoke] in H. simpl in H.
      match type of H with
      | context [search sp ?q 5 ?r] =>
          destruct (search sp q 5 r)
            as [[[cls msg] | search_results] r'] eqn:Esearch; [discriminate |]
      end.
      destruct (find_replacement py (t_name original_track) search_results)
        as [c |] eqn:Efind; simpl in H.
      * assert (He : e = set_new_album
                           (set_new_id
                              (set_reason
                                 {| artist := name; title := t_name original_track;
                                    old_album := t_album original_track;
                                    old_id := id_in_library;
                                    new_album := empty; new_id := empty;
                                    reason := empty |} "Unplayable") (c_id c))
                           (c_album c)).
        { destruct (truthy (c_id c)); simpl in H; now injection H as <- _. }
        assert (Hw : issues w w'
                       [(Search (t_name original_track ++ " artist:" ++ name)%string 5,
                         Returned)]).
        { destruct (truthy (c_id c)); simpl in H; now injection H as _ <-. }
        subst e. simpl.
        repeat split; auto. right. left. repeat split; auto.
        exists search_results. simpl. rewrite Esearch, Efind. simpl.
        repeat split; auto.
      * injection H as <- <-. simpl.
        repeat split; auto. right. left. repeat split; auto.
        exists search_results. simpl. rewrite Esearch, Efind. simpl.
        repeat split; auto.
Qed.

(** C2. A resolved track that yields an audit record is classified by
    precedence: [Re-linked] when it carries redirect metadata, whether or
    not it is playable; otherwise [Unplayable] when it is not playable in
    the market; otherwise [OK]. *)
Theorem classification_precedence original_track_map resolved_track
  (w w' : World R) e :
  audit_track py sp original_track_map resolved_track w = (Ok (Some e), w') ->
  (r_linked_from resolved_track <> None -> reason e = "Re-linked")
  /\ (r_linked_from resolved_track = None ->
      r_is_playable resolved_track = false -> reason e = "Unplayable")
  /\ (r_linked_from resolved_track = None ->
      r_is_playable resolved_track = true -> reason e = "OK").
Proof.
  intros H. apply audit_track_inv in H.
  destruct H as (original_track & others & _ & _ & _ & _ & _ & Hcase).
  destruct Hcase as [(Hl & Hr & _) | [(Hl & Hp & Hr & _) | (Hl & Hp & Hr & _)]].
  - repeat split; intros; [exact Hr | contradiction | contradiction].
  - repeat split; intros; [contradiction | exact Hr | congruence].
  - repeat split; intros; [contradiction | congruence | exact Hr].
Qed.

(** C4. For a track classified [Unplayable], one search is issued, for
    ["<title> artist:<artist>"] with a limit of 5, and the replacement is
    the first result, in the order returned, that is playable and whose
    name equals the title up to case: its identifier and album fill
    [new_id] and [new_album]. When no result qualifies both stay empty. *)
Theorem unplayable_replacement_is_first_match original_track_map resolved_track
  (w w' : World R) e :
  audit_track py sp original_track_map resolved_track w = (Ok (Some e), w') ->
  reason e = "Unplayable" ->
  exists search_results,
    fst (search sp (title e ++ " artist:" ++ artist e)%string 5 (w_remote w))
    = inr search_results
    /\ w_calls w'
       = w_calls w ++ [(Search (title e ++ " artist:" ++ artist e)%string 5, Returned)]
    /\ ((exists before c after,
           search_results = before ++ c :: after
           /\ Forall (fun c' => ~ (c_is_playable c' = true
                                   /\ lower py (c_name c') = lower py (title e)))
                     before
           /\ c_is_playable c = true
           /\ lower py (c_name c) = lower py (title e)
           /\ new_id e = c_id c
           /\ new_album e = c_album c)
        \/ (Forall (fun c' => ~ (c_is_playable c' = true
                                 /\ lower py (c_name c') = lower py (title e)))
                   search_results
            /\ new_id e = EmptyString
            /\ new_album e = EmptyString)).
Proof.
  intros H Hreason. apply audit_track_inv in H.
  destruct H as (original_track & others & _ & _ & _ & _ & _ & Hcase).
  destruct Hcase as [(_ & Hr & _) | [(_ & _ & _ & Hs) | (_ & _ & Hr & _)]];
    [rewrite Hr in Hreason; discriminate | | rewrite Hr in Hreason; discriminate].
  destruct Hs as (search_results & Hsearch & Hcalls & Hfind).
  exists search_results. split; [exact Hsearch |]. split; [exact Hcalls |].
  destruct (find_replacement py (title e) search_results) as [c |] eqn:Efind.
  - left. apply find_replacement_some in Efind.
    destruct Efind as (before & after & Heq & Hbefore & Hq1 & Hq2).
    destruct Hfind as [Hid Halbum].
    exists before, c, after. repeat split; assumption.
  - right. apply find_replacement_none in Efind.
    destruct Hfind as [Hid Halbum]. repeat split; assumption.
Qed.

End Classification.

(** ** Reconciliation *)

Section Reconciliation.

Context {R : Type}.
Variable py : Builtins.
Variable sp : Spotify R.

Lemma printed_nil (w : World R) : printed w w [].
Proof. unfold printed. now rewrite app_nil_r. Qed.

Lemma printed_trans (w0 w1 w2 : World R) out1 out2 :
  printed w0 w1 out1 -> printed w1 w2 out2 -> printed w0 w2 (out1 ++ out2).
Proof. unfold printed. intros H1 H2. rewrite H2, H1. now rewrite app_assoc. Qed.

(** The three ways the body of the [try] can end: the add fails; the add
    returns and the removal fails; both return. *)
Lemma replace_track_cases run i total t (w : World R) :
  let r := replace_track sp run i total t w in
  (exists out, printed w (snd r) out)
  /\ ((exists cls msg,
         fst r = Raise (PyException cls msg)
         /\ issues w (snd r) [(add_call run t, Failed cls msg)])
      \/ (exists cls msg,
            fst r = Raise (PyException cls msg)
            /\ issues w (snd r)
                 [(add_call run t, Returned); (remove_call run t, Failed cls msg)])
      \/ (fst r = Ok tt
          /\ issues w (snd r)
               [(add_call run t, Returned); (remove_call run t, Returned)])).
Proof.
  unfold replace_track, add_call, remove_call, issues, printed.
  destruct (source_playlist (PLAYLIST_ID run)) as [pid |]; cbv [bind invoke print].
  - destruct (playlist_add_items sp pid [new_id t] (w_remote w))
      as [[[cls msg] | []] r1]; cbn [fst snd w_remote w_calls w_stdout].
    + split; [exists []; now rewrite app_nil_r |]. left. eauto.
    + destruct (playlist_remove_all_occurrences_of_items sp pid [old_id t] r1)
        as [[[cls msg] | []] r2]; cbn [fst snd w_remote w_calls w_stdout].
      * split; [eexists; reflexivity |]. right. left. exists cls, msg.
        split; [reflexivity | now rewrite <- app_assoc].
      * split; [eexists; rewrite <- app_assoc; reflexivity |]. right. right.
        split; [reflexivity | now rewrite <- app_assoc].
  - destruct (current_user_saved_tracks_add sp [new_id t] (w_remote w))
      as [[[cls msg] | []] r1]; cbn [fst snd w_remote w_calls w_stdout].
    + split; [exists []; now rewrite app_nil_r |]. left. eauto.
    + destruct (current_user_saved_tracks_delete sp [old_id t] r1)
        as [[[cls msg] | []] r2]; cbn [fst snd w_remote w_calls w_stdout].
      * split; [eexists; reflexivity |]. right. left. exists cls, msg.
        split; [reflexivity | now rewrite <- app_assoc].
      * split; [eexists; rewrite <- app_assoc; reflexivity |]. right. right.
        split; [reflexivity | now rewrite <- app_assoc].
Qed.

(** The loop over the records: it always completes, its trace has the
    shape [reconciled] over the records that pass the artist filter, and
    every failed call has its line on the console. *)
Lemma replacement_loop_spec run total ts :
  forall i processed_count (w : World R),
  exists processed_count' w' tr out,
    replacement_loop py sp run total i processed_count ts w = (Ok processed_count', w')
    /\ issues w w' tr
    /\ printed w w' out
    /\ reconciled run (filter (fun t => negb (filtered_out py run t)) ts) tr
    /\ (forall c cls msg,
          In (c, Failed cls msg) tr ->
          exists t,
            In t (filter (fun t => negb (filtered_out py run t)) ts)
            /\ (c = add_call run t \/ c = remove_call run t)
            /\ In (error_line t msg) out).
Proof.
  induction ts as [| t ts IH]; intros i processed_count w; simpl.
  - exists processed_count, w, [], []. split; [reflexivity |].
    split; [apply issues_nil |]. split; [apply printed_nil |].
    split; [constructor |]. intros c cls msg [].
  - destruct (filtered_out py run t) eqn:Efilter; simpl.
    + apply IH.
    + pose proof (replace_track_cases run i total t w) as Hcases.
      unfold bind at 1. unfold try_except. unfold bind at 1.
      destruct (replace_track sp run i total t w) as [res w1].
      cbn [fst snd] in Hcases. destruct Hcases as [[out1 Hout1] Hcases].
      destruct Hcases as [(cls & msg & -> & Htr1)
                         | [(cls & msg & -> & Htr1) | (-> & Htr1)]].
      * (* the add failed *)
        cbn [is_Exception]. cbv [bind print ret]. cbn [str_of_exn].
        match goal with
        | |- context [replacement_loop py sp run total (S i) processed_count ts ?w2] =>
            destruct (IH (S i) processed_count w2)
              as (pc' & w' & tr & out & Hrun & Htr & Hout & Hshape & Hlog);
            set (w2' := w2) in *
        end.
        exists pc', w', ((add_call run t, Failed cls msg) :: tr),
               (out1 ++ [error_line t msg] ++ out).
        split; [exact Hrun |]. split; [| split; [| split]].
        -- change ((add_call run t, Failed cls msg) :: tr)
             with ([(add_call run t, Failed cls msg)] ++ tr).
           eapply issues_trans; [| exact Htr]. exact Htr1.
        -- unfold printed in *. rewrite Hout. subst w2'. cbn [w_stdout].
           rewrite Hout1. now rewrite <- !app_assoc.
        -- now constructor.
        -- intros c cls0 msg0 [Hhere | Hlater].
           ++ injection Hhere as <- <- <-. exists t. split; [now left |].
              split; [now left |]. apply in_or_app. right. now left.
           ++ destruct (Hlog c cls0 msg0 Hlater) as (t0 & Hin & Hc & Hline).
              exists t0. split; [now right |]. split; [exact Hc |].
              apply in_or_app. right. now right; apply in_or_app; right.
      * (* the removal failed *)
        cbn [is_Exception]. cbv [bind print ret]. cbn [str_of_exn].
        match goal with
        | |- context [replacement_loop py sp run total (S i) processed_count ts ?w2] =>
            destruct (IH (S i) processed_count w2)
              as (pc' & w' & tr & out & Hrun & Htr & Hout & Hshape & Hlog);
            set (w2' := w2) in *
        end.
        exists pc', w',
               ((add_call run t, Returned) :: (remove_call run t, Failed cls msg) :: tr),
               (out1 ++ [error_line t msg] ++ out).
        split; [exact Hrun |]. split; [| split; [| split]].
        -- change ((add_call run t, Returned) :: (remove_call run t, Failed cls msg) :: tr)
             with ([(add_call run t, Returned); (remove_call run t, Failed cls msg)] ++ tr).
           eapply issues_trans; [| exact Htr]. exact Htr1.
        -- unfold printed in *. rewrite Hout. subst w2'. cbn [w_stdout].
           rewrite Hout1. now rewrite <- !app_assoc.
        -- now constructor.
        -- intros c cls0 msg0 [Hhere | [Hhere | Hlater]].
           ++ discriminate Hhere.
           ++ injection Hhere as <- <- <-. exists t. split; [now left |].
              split; [now right |]. apply in_or_app. right. now left.
           ++ destruct (Hlog c cls0 msg0 Hlater) as (t0 & Hin & Hc & Hline).
              exists t0. split; [now right |]. split; [exact Hc |].
              apply in_or_app. right. now right; apply in_or_app; right.
      * (* both returned *)
        cbv [ret].
        destruct (IH (S i) (S processed_count) w1)
          as (pc' & w' & tr & out & Hrun & Htr & Hout & Hshape & Hlog).
        exists pc', w',
               ((add_call run t, Returned) :: (remove_call run t, Returned) :: tr),
               (out1 ++ out).
        split; [exact Hrun |]. split; [| split; [| split]].
        -- change ((add_call run t, Returned) :: (remove_call run t, Returned) :: tr)
             with ([(add_call run t, Returned); (remove_call run t, Returned)] ++ tr).
           eapply issues_trans; [| exact Htr]. exact Htr1.
        -- eapply printed_trans; eassumption.
        -- now constructor.
        -- intros c cls0 msg0 [Hhere | [Hhere | Hlater]];
             [discriminate Hhere | discriminate Hhere |].
           destruct (Hlog c cls0 msg0 Hlater) as (t0 & Hin & Hc & Hline).
           exists t0. split; [now right |]. split; [exact Hc |].
           apply in_or_app. now right.
Qed.

Lemma filter_filter {A : Type} (f g : A -> bool) (l : list A) :
  filter f (filter g l) = filter (fun x => (g x && f x)%bool) l.
Proof.
  induction l as [| x l IH]; simpl; [reflexivity |].
  destruct (g x); simpl; [destruct (f x) |]; now rewrite IH.
Qed.

Lemma acted_on_filter run log :
  filter (fun t => negb (filtered_out py run t))
         (filter (fun t => truthy (new_id t)) log)
  = filter (acted_on py run) log.
Proof.
  rewrite filter_filter. apply filter_ext. intros t.
  unfold acted_on, filtered_out.
  destruct (test_artist (TEST_MODE_ARTIST run)); [now rewrite negb_involutive | reflexivity].
Qed.

(** Step 7 of a live run: it always completes, and its trace is a
    reconciliation over the records acted on. *)
Lemma live_run_actions_spec run log (w : World R) :
  DRY_RUN run = false ->
  exists w' tr out,
    live_run_actions py sp run log w = (Ok tt, w')
    /\ issues w w' tr
    /\ printed w w' out
    /\ reconciled run (filter (acted_on py run) log) tr
    /\ (forall c cls msg,
          In (c, Failed cls msg) tr ->
          exists t,
            In t (filter (acted_on py run) log)
            /\ (c = add_call run t \/ c = remove_call run t)
            /\ In (error_line t msg) out).
Proof.
  intros Hlive. unfold live_run_actions. rewrite Hlive. cbn [negb].
  rewrite <- acted_on_filter.
  destruct (filter (fun t => truthy (new_id t)) log) as [| t0 ts] eqn:Eproc.
  - eexists. exists []. eexists. split; [reflexivity |].
    split; [now apply issues_same |]. split; [reflexivity |].
    split; [constructor |]. intros c cls msg [].
  - cbv [bind print]. 
    match goal with
    | |- context [replacement_loop py sp run ?total 1 0 (t0 :: ts) ?w1] =>
        destruct (replacement_loop_spec run total (t0 :: ts) 1 0 w1)
          as (pc' & w' & tr & out & Hrun & Htr & Hout & Hshape & Hlog);
        set (w1' := w1) in *
    end.
    rewrite Hrun.
    destruct (test_artist (TEST_MODE_ARTIST run)) as [a |]; cbv [ret].
    + eexists. exists tr. eexists. split; [reflexivity |].
      split; [| split; [| split]].
      * unfold issues in *. cbn [w_calls]. rewrite Htr. reflexivity.
      * unfold printed in *. cbn [w_stdout]. rewrite Hout. subst w1'. cbn [w_stdout].
        rewrite <- !app_assoc. reflexivity.
      * exact Hshape.
      * intros c cls msg Hin. destruct (Hlog c cls msg Hin) as (t & H1 & H2 & H3).
        exists t. split; [exact H1 |]. split; [exact H2 |].
        apply in_or_app. right. apply in_or_app. now left.
    + eexists. exists tr. eexists. split; [reflexivity |].
      split; [| split; [| split]].
      * unfold issues in *. cbn [w_calls]. rewrite Htr. reflexivity.
      * unfold printed in *. cbn [w_stdout]. rewrite Hout. subst w1'. cbn [w_stdout].
        rewrite <- !app_assoc. reflexivity.
      * exact Hshape.
      * intros c cls msg Hin. destruct (Hlog c cls msg Hin) as (t & H1 & H2 & H3).
        exists t. split; [exact H1 |]. split; [exact H2 |].
        apply in_or_app. right. apply in_or_app. now left.
Qed.

Lemma is_add_add_call run t : is_add (add_call run t) = true.
Proof. unfold add_call. now destruct (source_playlist (PLAYLIST_ID run)). Qed.

Lemma is_add_remove_call run t : is_add (remove_call run t) = false.
Proof. unfold remove_call. now destruct (source_playlist (PLAYLIST_ID run)). Qed.

Lemma is_remove_add_call run t : is_remove (add_call run t) = false.
Proof. unfold add_call. now destruct (source_playlist (PLAYLIST_ID run)). Qed.

(** The adds of a reconciliation: one per record, in order. *)
Lemma reconciled_adds run ts tr :
  reconciled run ts tr ->
  map fst (filter (fun ev => is_add (fst ev)) tr) = map (add_call run) ts.
Proof.
  induction 1 as [| t ts cls msg tr _ IH | t ts outcome tr _ IH]; simpl.
  - reflexivity.
  - rewrite is_add_add_call. simpl. now rewrite IH.
  - rewrite is_add_add_call, is_add_remove_call. simpl. now rewrite IH.
Qed.

(** Every call of a reconciliation is the add or the removal of one of its
    records. *)
Lemma reconciled_calls run ts tr :
  reconciled run ts tr ->
  forall ev, In ev tr ->
             exists t, In t ts /\ (fst ev = add_call run t \/ fst ev = remove_call run t).
Proof.
  induction 1 as [| t ts cls msg tr _ IH | t ts outcome tr _ IH]; intros ev Hin.
  - destruct Hin.
  - destruct Hin as [<- | Hin].
    + exists t. split; [now left | now left].
    + destruct (IH ev Hin) as (t0 & H1 & H2). exists t0. split; [now right | exact H2].
  - destruct Hin as [<- | [<- | Hin]].
    + exists t. split; [now left | now left].
    + exists t. split; [now left | now right].
    + destruct (IH ev Hin) as (t0 & H1 & H2). exists t0. split; [now right | exact H2].
Qed.

(** In a reconciliation every removal comes right after the add of the
    same record, and that add returned. *)
Lemma reconciled_remove_after_add run ts tr :
  reconciled run ts tr ->
  forall before c outcome after,
    tr = before ++ (c, outcome) :: after ->
    is_remove c = true ->
    exists t before',
      In t ts
      /\ c = remove_call run t
      /\ before = before' ++ [(add_call run t, Returned)].
Proof.
  induction 1 as [| t ts cls msg tr _ IH | t ts outcome0 tr _ IH];
    intros before c outcome after Heq Hrem.
  - destruct before; discriminate.
  - destruct before as [| ev before].
    + injection Heq as <- _ _. rewrite is_remove_add_call in Hrem. discriminate.
    + injection Heq as <- Heq.
      destruct (IH _ _ _ _ Heq Hrem) as (t0 & before' & Hin & Hc & Hb).
      exists t0, ((add_call run t, Failed cls msg) :: before').
      split; [now right |]. split; [exact Hc |]. now rewrite Hb.
  - destruct before as [| ev1 [| ev2 before]].
    + injection Heq as <- _ _. rewrite is_remove_add_call in Hrem. discriminate.
    + injection Heq as <- <- _ _. exists t, []. split; [now left |]. now split.
    + injection Heq as <- <- Heq.
      destruct (IH _ _ _ _ Heq Hrem) as (t0 & before' & Hin & Hc & Hb).
      exists t0, ((add_call run t, Returned) :: (remove_call run t, outcome0) :: before').
      split; [now right |]. split; [exact Hc |]. now rewrite Hb.
Qed.

(** What step 6 does to the world: it prints, and for a non-empty audit
    it builds the workbook and saves it; it issues no call and reads
    nothing. It raises when the workbook cannot be built or cannot be
    saved, and then no file is kept. *)
Lemma report_spec run log (w : World R) :
  w_remote (snd (report py run log w)) = w_remote w
  /\ w_calls (snd (report py run log w)) = w_calls w
  /\ w_stdin (snd (report py run log w)) = w_stdin w
  /\ w_stderr (snd (report py run log w)) = w_stderr w
  /\ match log with
     | [] =>
         fst (report py run log w) = Ok tt
         /\ w_files (snd (report py run log w)) = w_files w
     | _ :: _ =>
         match workbook py run log with
         | inl (cls, msg) =>
             fst (report py run log w) = Raise (PyException cls msg)
             /\ w_files (snd (report py run log w)) = w_files w
         | inr wb =>
             match save_error py (report_filename py) wb with
             | Some (cls, msg) =>
                 fst (report py run log w) = Raise (PyException cls msg)
                 /\ w_files (snd (report py run log w)) = w_files w
             | None =>
                 fst (report py run log w) = Ok tt
                 /\ w_files (snd (report py run log w))
                    = w_files w ++ [(report_filename py, wb)]
             end
         end
     end.
Proof.
  unfold report. rewrite !bind_print.
  match goal with
  | |- context [snd (print ?l7 ?w6)] =>
      assert (Hframe : w_remote (snd (print l7 w6)) = w_remote w
                       /\ w_calls (snd (print l7 w6)) = w_calls w
                       /\ w_stdin (snd (print l7 w6)) = w_stdin w
                       /\ w_stderr (snd (print l7 w6)) = w_stderr w
                       /\ w_files (snd (print l7 w6)) = w_files w)
        by (repeat split; reflexivity);
      generalize dependent (snd (print l7 w6))
  end.
  intros w7 (H1 & H2 & H3 & H4 & H5).
  destruct log as [| t log'].
  - cbv [ret]. cbn [fst snd]. now repeat split.
  - unfold bind at 1.
    destruct (workbook py run (t :: log')) as [[cls msg] | wb]; cbn [lift].
    + cbv [raise]. cbn [fst snd]. now repeat split.
    + cbv [ret]. unfold bind, save.
      destruct (save_error py (report_filename py) wb) as [[cls msg] |].
      * cbn [fst snd]. now repeat split.
      * cbn [fst snd print w_remote w_calls w_stdin w_stderr w_files].
        rewrite H5. now repeat split.
Qed.

(** C5. In a live run the adds issued are exactly those of the audit
    records with a non-empty [new_id] that, when an artist filter is in
    force, have the filter's artist up to case, one add per record and in
    the order of the audit; every call issued belongs to one of these
    records, so a record the filter excludes causes no mutation. Step 7
    comes after step 6: when the report of the same audit is written it
    has a row for every record, excluded or not, and when it cannot be
    written nothing is reconciled, no call being issued. *)
Theorem reconciliation_acts_on_selected run log (w w0 : World R) :
  DRY_RUN run = false ->
  (exists tr,
     w_calls (snd (live_run_actions py sp run log w)) = w_calls w ++ tr
     /\ map fst (filter (fun ev => is_add (fst ev)) tr)
        = map (add_call run)
              (filter
                 (fun t =>
                    truthy (new_id t)
                    && match test_artist (TEST_MODE_ARTIST run) with
                       | Some a => String.eqb (lower py (artist t)) (lower py a)
                       | None => true
                       end)%bool
                 log)
     /\ (forall ev,
           In ev tr ->
           exists t,
             In t log
             /\ acted_on py run t = true
             /\ (fst ev = add_call run t \/ fst ev = remove_call run t)))
  /\ (forall w1,
        report py run log w0 = (Ok tt, w1) ->
        forall t,
          In t log ->
          exists filename summary audit_sheet,
            w_files w1 = w_files w0 ++ [(filename, [summary; audit_sheet])]
            /\ In (map stored (audit_row t)) (sh_rows audit_sheet))
  /\ (fst (report py run log w0) <> Ok tt ->
      w_calls (snd ((report py run log ;; live_run_actions py sp run log) w0))
      = w_calls w0).
Proof.
  intros Hlive. split; [| split].
  - destruct (live_run_actions_spec run log w Hlive)
      as (w' & tr & out & Hrun & Htr & _ & Hshape & _).
    exists tr. rewrite Hrun. split; [exact Htr |]. split.
    + exact (reconciled_adds _ _ _ Hshape).
    + intros ev Hin.
      destruct (reconciled_calls _ _ _ Hshape ev Hin) as (t & Ht & Hc).
      apply filter_In in Ht. destruct Ht as [Ht Hacted].
      exists t. repeat split; assumption.
  - intros w1 Hreport t Hin.
    destruct (report_spec run log w0) as (_ & _ & _ & _ & H).
    rewrite Hreport in H. cbn [fst snd] in H.
    destruct log as [| t0 log']; [destruct Hin |].
    pose proof (workbook_spec py run (t0 :: log')) as Hwb.
    destruct (workbook py run (t0 :: log')) as [[cls msg] | wb];
      [destruct H; discriminate |].
    destruct (save_error py (report_filename py) wb) as [[cls msg] |];
      [destruct H; discriminate |].
    destruct H as [_ H].
    destruct Hwb as (_ & summary & audit_sheet & -> & _ & _ & Hrows).
    exists (report_filename py), summary, audit_sheet.
    split; [exact H |]. rewrite Hrows. right.
    apply (in_map (fun t => map stored (audit_row t))). exact Hin.
  - intros Hfailed.
    destruct (report_spec run log w0) as (_ & Hcalls & _).
    unfold bind. destruct (report py run log w0) as [[[] | e |] w1];
      cbn [fst snd] in *; [congruence | exact Hcalls | exact Hcalls].
Qed.

(** Between the two calls of one replacement nothing touches the service:
    when the add returns, the removal is applied to the very state the add
    left; when the add fails there is no removal. *)
Lemma replace_track_states run i total t (w : World R) :
  match add_op sp run t (w_remote w) with
  | (inr _, r1) =>
      w_remote (snd (replace_track sp run i total t w)) = snd (remove_op sp run t r1)
  | (inl _, r1) =>
      w_remote (snd (replace_track sp run i total t w)) = r1
  end.
Proof.
  unfold replace_track, add_op, remove_op.
  destruct (source_playlist (PLAYLIST_ID run)) as [pid |]; cbv [bind invoke print].
  - destruct (playlist_add_items sp pid [new_id t] (w_remote w))
      as [[[cls msg] | []] r1]; cbn [snd w_remote]; [reflexivity |].
    destruct (playlist_remove_all_occurrences_of_items sp pid [old_id t] r1)
      as [[[cls msg] | []] r2]; reflexivity.
  - destruct (current_user_saved_tracks_add sp [new_id t] (w_remote w))
      as [[[cls msg] | []] r1]; cbn [snd w_remote]; [reflexivity |].
    destruct (current_user_saved_tracks_delete sp [old_id t] r1)
      as [[[cls msg] | []] r2]; reflexivity.
Qed.

(** C6. In the trace of a reconciliation every removal comes immediately
    after the add of the substitute of the same record, and that add
    returned normally: no removal is issued before its add, nor after an
    add that failed, and no other call separates the two. Accordingly,
    within one replacement, the removal is applied to the very state in
    which the add left the service, so between the two calls the source
    holds what the add put there; and when the add fails no removal
    follows. *)
Theorem add_precedes_remove run :
  (forall log (w : World R) tr before c outcome after,
     w_calls (snd (live_run_actions py sp run log w)) = w_calls w ++ tr ->
     tr = before ++ (c, outcome) :: after ->
     is_remove c = true ->
     exists t before',
       In t log
       /\ truthy (new_id t) = true
       /\ c = remove_call run t
       /\ before = before' ++ [(add_call run t, Returned)])
  /\ (forall i total t (w : World R),
        match add_op sp run t (w_remote w) with
        | (inr _, r1) =>
            w_remote (snd (replace_track sp run i total t w))
            = snd (remove_op sp run t r1)
        | (inl _, r1) =>
            w_remote (snd (replace_track sp run i total t w)) = r1
        end).
Proof.
  split; [| intros; apply replace_track_states].
  intros log w tr before c outcome after Htrace Hsplit Hrem.
  destruct (DRY_RUN run) eqn:Hdry.
  - (* a dry run issues no call at all in this step *)
    exfalso.
    destruct (read_only_live_run_actions py sp run log Hdry w) as (tr' & Htr' & Hquiet).
    assert (tr' = tr) by (eapply issues_inj; [exact Htr' | exact Htrace]).
    subst tr' tr. apply Forall_app in Hquiet. destruct Hquiet as [_ Hquiet].
    inversion Hquiet as [| ev l Hev _]; subst.
    unfold quiet in Hev. cbn [fst] in Hev.
    destruct c; simpl in Hrem, Hev; discriminate.
  - destruct (live_run_actions_spec run log w Hdry)
      as (w' & tr' & out & Hrun & Htr' & _ & Hshape & _).
    rewrite Hrun in Htrace. cbn [snd] in Htrace.
    assert (tr' = tr) by (eapply issues_inj; [exact Htr' | exact Htrace]).
    subst tr'.
    destruct (reconciled_remove_after_add _ _ _ Hshape _ _ _ _ Hsplit Hrem)
      as (t & before' & Hin & Hc & Hb).
    apply filter_In in Hin. destruct Hin as [Hin Hacted].
    exists t, before'. split; [exact Hin |]. split; [| split; assumption].
    unfold acted_on in Hacted. apply andb_true_iff in Hacted. tauto.
Qed.

(** C7. A live reconciliation always runs to completion, whichever calls
    fail. Its trace is, record by record in the order of the audit, one
    add and then, only when the add returned, one removal: a failure
    neither stops the loop, nor is retried, nor undone. Every failed call
    leaves on the console the line that names the original identifier of
    its record and the error of the call. *)
Theorem reconciliation_survives_failures run log (w : World R) :
  DRY_RUN run = false ->
  fst (live_run_actions py sp run log w) = Ok tt
  /\ exists tr out,
       w_calls (snd (live_run_actions py sp run log w)) = w_calls w ++ tr
       /\ w_stdout (snd (live_run_actions py sp run log w)) = w_stdout w ++ out
       /\ reconciled run (filter (acted_on py run) log) tr
       /\ (forall c cls msg,
             In (c, Failed cls msg) tr ->
             exists t,
               In t (filter (acted_on py run) log)
               /\ (c = add_call run t \/ c = remove_call run t)
               /\ In (Print ("An error occurred while replacing track "
                             ++ old_id t ++ ": " ++ msg)%string) out).
Proof.
  intros Hlive.
  destruct (live_run_actions_spec run log w Hlive)
    as (w' & tr & out & Hrun & Htr & Hout & Hshape & Hlog).
  rewrite Hrun. split; [reflexivity |].
  exists tr, out. repeat split; assumption.
Qed.

End Reconciliation.

(** ** The report *)

Section Report.

Context {R : Type}.
Variable py : Builtins.


End Report.

(** ** Statements that need no fuel *)

Section Fuel.

Context {R : Type}.

Lemma fuel_free_bind {A B : Type} (m : M R A) (k : A -> M R B) :
  fuel_free m -> (forall a, fuel_free (k a)) -> fuel_free (bind m k).
Proof.
  intros Hm Hk w. unfold bind. specialize (Hm w).
  destruct (m w) as [[a | e |] w1]; cbn [fst] in *;
    [apply Hk | discriminate | contradiction].
Qed.

Lemma fuel_free_invoke {A : Type} c (op : R -> reply A * R) : fuel_free (invoke c op).
Proof.
  intros w. unfold invoke.
  destruct (op (w_remote w)) as [[[cls msg] | a] r']; discriminate.
Qed.

Lemma fuel_free_print line : fuel_free (@print R line).
Proof. intros w. discriminate. Qed.

Lemma fuel_free_ret {A : Type} (a : A) : fuel_free (@ret R A a).
Proof. intros w. discriminate. Qed.

Lemma fuel_free_raise {A : Type} e : fuel_free (@raise R A e).
Proof. intros w. discriminate. Qed.

End Fuel.

Ltac fuel_free_step :=
  match goal with
  | |- fuel_free (bind _ _) => apply fuel_free_bind; [| intros ?]
  | |- fuel_free (ret _) => apply fuel_free_ret
  | |- fuel_free (raise _) => apply fuel_free_raise
  | |- fuel_free (print _) => apply fuel_free_print
  | |- fuel_free (invoke _ _) => apply fuel_free_invoke
  | |- fuel_free (if ?b then _ else _) => destruct b
  | |- fuel_free (match ?x with _ => _ end) => destruct x
  end.

(** One iteration of the audit needs no fuel. *)

Section FuelOfTheAudit.

Context {R : Type}.
Variable py : Builtins.
Variable sp : Spotify R.

Lemma fuel_free_audit_track original_track_map resolved_track :
  fuel_free (audit_track py sp original_track_map resolved_track).
Proof. unfold audit_track. repeat fuel_free_step. Qed.

Lemma fuel_free_audit_tracks original_track_map full_tracks_details log :
  fuel_free (audit_tracks py sp original_track_map full_tracks_details log).
Proof.
  revert log.
  induction full_tracks_details as [| [resolved_track |] rest IH]; intros log; simpl.
  - repeat fuel_free_step.
  - apply fuel_free_bind; [apply fuel_free_audit_track |].
    intros [log_entry |]; apply IH.
  - apply IH.
Qed.

Lemma fuel_free_audit_page run offset log :
  fuel_free (audit_page py sp run offset log).
Proof.
  unfold audit_page.
  apply fuel_free_bind; [unfold fetch_page; repeat fuel_free_step |].
  intros [| item results]; [repeat fuel_free_step |].
  destruct (dict_keys (original_track_map_of (item :: results)));
    [repeat fuel_free_step |].
  apply fuel_free_bind; [repeat fuel_free_step | intros details].
  apply fuel_free_bind; [apply fuel_free_audit_tracks | intros log'].
  repeat fuel_free_step.
Qed.

End FuelOfTheAudit.

(** ** Pagination *)

Section Pagination.

Context {R : Type}.
Variable py : Builtins.
Variable sp : Spotify R.

Lemma truthy_nonempty s : truthy s = true <-> s <> EmptyString.
Proof. destruct s; simpl; split; congruence. Qed.

(** The page map is empty exactly when no item of the page is usable. *)
Lemma original_track_map_of_nil (items : Page) :
  original_track_map_of items = [] <-> Forall (fun item => ~ usable item) items.
Proof.
  unfold original_track_map_of.
  set (f := fun (d : dict Track) (item : option Item) =>
              match item with
              | Some {| track := Some t |} =>
                  match t_id t with
                  | Some id => if truthy id then dict_set id t d else d
                  | None => d
                  end
              | _ => d
              end).
  assert (Hset : forall k (v : Track) d, dict_set k v d <> []).
  { intros k v [| [k0 v0] d]; simpl; [discriminate |].
    destruct (String.eqb k0 k); discriminate. }
  assert (Hkeep : forall rest d, d <> [] -> fold_left f rest d <> []).
  { induction rest as [| item rest IH]; intros d Hd; simpl; [exact Hd |].
    apply IH. unfold f. destruct item as [[[t |]] |]; try exact Hd.
    destruct (t_id t) as [id |]; try exact Hd.
    destruct (truthy id); [apply Hset | exact Hd]. }
  induction items as [| item items IH]; simpl.
  - split; [constructor | reflexivity].
  - destruct item as [[[t |]] |]; simpl.
    + destruct (t_id t) as [id |] eqn:Eid; simpl.
      * destruct (truthy id) eqn:Etr.
        -- split.
           ++ intros H. exfalso. revert H. apply Hkeep. discriminate.
           ++ intros H. inversion H as [| x l Hx _]; subst. exfalso. apply Hx.
              exists t, id. split; [reflexivity |]. split; [exact Eid |].
              now apply truthy_nonempty.
        -- rewrite IH. split.
           ++ intros H. constructor; [| exact H].
              intros (t' & id' & [= <-] & Hid & Hne).
              rewrite Eid in Hid. injection Hid as <-.
              apply truthy_nonempty in Hne. congruence.
           ++ intros H. now inversion H.
      * rewrite IH. split.
        -- intros H. constructor; [| exact H].
           intros (t' & id' & [= <-] & Hid & _). congruence.
        -- intros H. now inversion H.
    + rewrite IH. split.
      * intros H. constructor; [| exact H].
        intros (t' & id' & Heq & _). discriminate.
      * intros H. now inversion H.
    + rewrite IH. split.
      * intros H. constructor; [| exact H].
        intros (t' & id' & Heq & _). discriminate.
      * intros H. now inversion H.
Qed.

(** How an iteration that completes has ended. *)
Lemma audit_page_ok run offset log (w w' : World R) control :
  audit_page py sp run offset log w = (Ok control, w') ->
  exists results w1,
    fetch_page sp run offset w = (Ok results, w1)
    /\ ((results = [] /\ control = Break /\ w' = w1)
        \/ (results <> []
            /\ exists log', control = Continue (offset + List.length results) log')).
Proof.
  unfold audit_page. intros H.
  apply bind_inv_ok in H. destruct H as (results & w1 & Hfetch & H).
  exists results, w1. split; [exact Hfetch |].
  destruct results as [| item results].
  - left. injection H as <- <-. auto.
  - right. split; [discriminate |].
    destruct (dict_keys (original_track_map_of (item :: results))).
    + injection H as <- _. eauto.
    + apply bind_inv_ok in H. destruct H as (details & w2 & _ & H).
      apply bind_inv_ok in H. destruct H as (log' & w3 & _ & H).
      apply bind_inv_ok in H. destruct H as (u & w4 & _ & H).
      injection H as <- _. eauto.
Qed.

Lemma audit_page_break run offset log (w w' : World R) :
  audit_page py sp run offset log w = (Ok Break, w')
  <-> fetch_page sp run offset w = (Ok [], w').
Proof.
  split.
  - intros H. apply audit_page_ok in H.
    destruct H as (results & w1 & Hfetch & [(-> & _ & ->) | (_ & log' & Hc)]).
    + exact Hfetch.
    + discriminate.
  - intros H. unfold audit_page. now rewrite (bind_ok _ _ _ _ _ H).
Qed.

Lemma audit_loop_rounds fuel run :
  forall offset log (w : World R) log' w',
    audit_loop py sp fuel run offset log w = (Ok log', w')
    <-> exists n offset1 w1,
          n < fuel
          /\ rounds py sp run n offset log w offset1 log' w1
          /\ fetch_page sp run offset1 w1 = (Ok [], w').
Proof.
  induction fuel as [| fuel IH]; intros offset log w log' w'.
  - split; [discriminate |]. intros (n & _ & _ & Hn & _). lia.
  - cbn [audit_loop]. split.
    + intros H. apply bind_inv_ok in H. destruct H as (control & w1 & Hpage & H).
      destruct control as [| offset1 log1].
      * injection H as <- <-. apply audit_page_break in Hpage.
        exists 0, offset, w. split; [lia |]. split; [constructor | exact Hpage].
      * apply IH in H. destruct H as (n & offset2 & w2 & Hn & Hrounds & Hfetch).
        exists (S n), offset2, w2. split; [lia |]. split; [| exact Hfetch].
        econstructor; eassumption.
    + intros (n & offset2 & w2 & Hn & Hrounds & Hfetch).
      inversion Hrounds as [| n0 ? ? ? offset1 log1 w1 ? ? ? Hpage Hrest]; subst.
      * apply (proj2 (audit_page_break run _ log' _ _)) in Hfetch.
        now rewrite (bind_ok _ _ _ _ _ Hfetch).
      * rewrite (bind_ok _ _ _ _ _ Hpage). apply IH.
        exists n0, offset2, w2. split; [lia |]. split; assumption.
Qed.

(** More fuel does not change a completed loop. *)
Lemma audit_loop_more_fuel fuel fuel' run offset log (w : World R) log' w' :
  audit_loop py sp fuel run offset log w = (Ok log', w') ->
  fuel <= fuel' ->
  audit_loop py sp fuel' run offset log w = (Ok log', w').
Proof.
  intros H Hle. apply audit_loop_rounds in H.
  destruct H as (n & offset1 & w1 & Hn & Hrounds & Hfetch).
  apply audit_loop_rounds. exists n, offset1, w1.
  split; [lia |]. split; assumption.
Qed.


(** C10. A page that has items but none with a usable track reference is
    skipped: the iteration issues nothing but the fetch, creates no audit
    record, and goes on, so that the loop continues with the next page at
    the offset moved forward by the number of items of the page. *)
Theorem page_without_usable_track_is_skipped run offset log
  (w w1 : World R) results :
  fetch_page sp run offset w = (Ok results, w1) ->
  results <> [] ->
  Forall (fun item => ~ usable item) results ->
  audit_page py sp run offset log w
  = (Ok (Continue (offset + List.length results) log), w1)
  /\ forall fuel,
       audit_loop py sp (S fuel) run offset log w
       = audit_loop py sp fuel run (offset + List.length results) log w1.
Proof.
  intros Hfetch Hne Hunusable.
  assert (Hpage : audit_page py sp run offset log w
                  = (Ok (Continue (offset + List.length results) log), w1)).
  { unfold audit_page. rewrite (bind_ok _ _ _ _ _ Hfetch).
    destruct results as [| item results]; [congruence |].
    apply original_track_map_of_nil in Hunusable. rewrite Hunusable. reflexivity. }
  split; [exact Hpage |].
  intros fuel. cbn [audit_loop]. now rewrite (bind_ok _ _ _ _ _ Hpage).
Qed.

End Pagination.


(** ** The audit records *)

Section AuditRecords.

Context {R : Type}.
Variable py : Builtins.
Variable sp : Spotify R.

(** The [for] over the resolved tracks only appends to the list, and what
    it appends are records yielded by [audit_track] under the page map. *)
Lemma audit_tracks_entries original_track_map full_tracks_details :
  forall log (w : World R) log' w',
    audit_tracks py sp original_track_map full_tracks_details log w = (Ok log', w') ->
    exists es,
      log' = log ++ es
      /\ Forall (fun e =>
                   exists resolved_track w0 w1,
                     In (Some resolved_track) full_tracks_details
                     /\ audit_track py sp original_track_map resolved_track w0
                        = (Ok (Some e), w1))
                es.
Proof.
  induction full_tracks_details as [| [resolved_track |] rest IH];
    intros log w log' w' H; cbn [audit_tracks] in H.
  - injection H as <- _. exists []. split; [now rewrite app_nil_r | constructor].
  - apply bind_inv_ok in H. destruct H as (entry & w1 & Htrack & H).
    destruct entry as [log_entry |].
    + apply IH in H. destruct H as (es & -> & Hes).
      exists (log_entry :: es). split; [now rewrite <- app_assoc |].
      constructor.
      * exists resolved_track, w, w1. split; [now left | exact Htrack].
      * eapply Forall_impl; [| exact Hes].
        intros e (rt & w0 & w2 & Hin & He). exists rt, w0, w2. split; [now right | exact He].
    + apply IH in H. destruct H as (es & -> & Hes).
      exists es. split; [reflexivity |].
      eapply Forall_impl; [| exact Hes].
      intros e (rt & w0 & w2 & Hin & He). exists rt, w0, w2. split; [now right | exact He].
  - apply IH in H. destruct H as (es & -> & Hes).
    exists es. split; [reflexivity |].
    eapply Forall_impl; [| exact Hes].
    intros e (rt & w0 & w2 & Hin & He). exists rt, w0, w2. split; [now right | exact He].
Qed.

(** An iteration that goes on has appended records audited under the map
    of the page it fetched. *)
Lemma audit_page_entries run offset log (w : World R) offset' log' w' :
  audit_page py sp run offset log w = (Ok (Continue offset' log'), w') ->
  exists items w1 es,
    fetch_page sp run offset w = (Ok items, w1)
    /\ log' = log ++ es
    /\ Forall (fun e =>
                 exists resolved_track w0 w2,
                   audit_track py sp (original_track_map_of items) resolved_track w0
                   = (Ok (Some e), w2))
              es.
Proof.
  unfold audit_page. intros H.
  apply bind_inv_ok in H. destruct H as (items & w1 & Hfetch & H).
  exists items, w1.
  destruct items as [| item items]; [discriminate |].
  destruct (dict_keys (original_track_map_of (item :: items))).
  - injection H as _ <- _. exists []. split; [exact Hfetch |].
    split; [now rewrite app_nil_r | constructor].
  - apply bind_inv_ok in H. destruct H as (details & w2 & _ & H).
    apply bind_inv_ok in H. destruct H as (log1 & w3 & Htracks & H).
    apply bind_inv_ok in H. destruct H as (u & w4 & _ & H).
    injection H as _ <- _.
    apply audit_tracks_entries in Htracks. destruct Htracks as (es & -> & Hes).
    exists es. split; [exact Hfetch |]. split; [reflexivity |].
    eapply Forall_impl; [| exact Hes].
    intros e (rt & w0 & w5 & _ & He). exists rt, w0, w5. exact He.
Qed.

(** The loop only appends to the list, and every record it appends was
    audited under the map of a page fetched in one of its iterations. *)
Lemma audit_loop_entries fuel run :
  forall offset log (w : World R) log' w',
    audit_loop py sp fuel run offset log w = (Ok log', w') ->
    exists es,
      log' = log ++ es
      /\ Forall (fun e =>
                   exists n offset1 log1 w1 items w2 resolved_track w3 w4,
                     rounds py sp run n offset log w offset1 log1 w1
                     /\ fetch_page sp run offset1 w1 = (Ok items, w2)
                     /\ audit_track py sp (original_track_map_of items) resolved_track w3
                        = (Ok (Some e), w4))
                es.
Proof.
  induction fuel as [| fuel IH]; intros offset log w log' w' H; [discriminate |].
  cbn [audit_loop] in H.
  apply bind_inv_ok in H. destruct H as (control & w1 & Hpage & H).
  destruct control as [| offset1 log1].
  - injection H as <- _. exists []. split; [now rewrite app_nil_r | constructor].
  - pose proof (audit_page_entries _ _ _ _ _ _ _ Hpage)
      as (items & w2 & es1 & Hfetch & -> & Hes1).
    apply IH in H. destruct H as (es2 & -> & Hes2).
    exists (es1 ++ es2). split; [now rewrite app_assoc |].
    apply Forall_app. split.
    + eapply Forall_impl; [| exact Hes1].
      intros e (rt & w3 & w4 & He).
      exists 0, offset, log, w, items, w2, rt, w3, w4.
      split; [constructor |]. split; assumption.
    + eapply Forall_impl; [| exact Hes2].
      intros e (n & offset2 & log2 & w5 & items2 & w6 & rt & w3 & w4 & Hr & Hf & He).
      exists (S n), offset2, log2, w5, items2, w6, rt, w3, w4.
      split; [econstructor; eassumption |]. split; assumption.
Qed.

(** C3. The [old_id] of an audit record is the identifier under which the
    track is filed in the source. For one resolved track: it is the
    identifier in [linked_from] when the track carries redirect metadata
    and the track's own identifier otherwise, and in both cases the
    identifier of the track of an item of the page; so a resolved track
    with [linked_from.id = a] and [id = b] yields [old_id = a],
    [new_id = b] and the reason [Re-linked]. For a whole audit: every
    record of the list it returns has as [old_id] the identifier of the
    track of an item of a page fetched from the source in one of the
    iterations of that audit. *)
Theorem old_id_is_source_identifier run :
  (forall (items : Page) resolved_track (w w' : World R) e,
     audit_track py sp (original_track_map_of items) resolved_track w
     = (Ok (Some e), w') ->
     old_id e = match r_linked_from resolved_track with
                | Some linked_id => linked_id
                | None => r_id resolved_track
                end
     /\ (exists t, In (Some {| track := Some t |}) items /\ t_id t = Some (old_id e))
     /\ (forall a, r_linked_from resolved_track = Some a ->
                   old_id e = a
                   /\ new_id e = r_id resolved_track
                   /\ reason e = "Re-linked"))
  /\ (forall fuel (w w' : World R) tracks_to_audit_log,
        audit_loop py sp fuel run 0 [] w = (Ok tracks_to_audit_log, w') ->
        Forall (fun e =>
                  exists n offset log1 w1 items w2 t,
                    rounds py sp run n 0 [] w offset log1 w1
                    /\ fetch_page sp run offset w1 = (Ok items, w2)
                    /\ In (Some {| track := Some t |}) items
                    /\ t_id t = Some (old_id e))
               tracks_to_audit_log).
Proof.
  assert (Hone : forall (items : Page) resolved_track (w w' : World R) e,
             audit_track py sp (original_track_map_of items) resolved_track w
             = (Ok (Some e), w') ->
             old_id e = match r_linked_from resolved_track with
                        | Some linked_id => linked_id
                        | None => r_id resolved_track
                        end
             /\ (exists t, In (Some {| track := Some t |}) items
                           /\ t_id t = Some (old_id e))
             /\ (forall a, r_linked_from resolved_track = Some a ->
                           old_id e = a
                           /\ new_id e = r_id resolved_track
                           /\ reason e = "Re-linked")).
  { intros items resolved_track w w' e H. apply audit_track_inv in H.
    destruct H as (original_track & others & Hget & _ & _ & _ & Hold & Hcase).
    split; [exact Hold |]. split.
    - exists original_track. rewrite Hold.
      apply original_track_map_of_get in Hget. destruct Hget as (Hin & Hid & _).
      split; assumption.
    - intros a Ha. rewrite Ha in Hold.
      destruct Hcase as [(_ & Hr & Hn & _) | [(Hl & _) | (Hl & _)]];
        [auto | congruence | congruence]. }
  split; [exact Hone |].
  intros fuel w w' tracks_to_audit_log H.
  apply audit_loop_entries in H. destruct H as (es & -> & Hes). cbn [app].
  eapply Forall_impl; [| exact Hes].
  intros e (n & offset & log1 & w1 & items & w2 & rt & w3 & w4 & Hr & Hf & He).
  apply Hone in He. destruct He as (_ & (t & Hin & Hid) & _).
  exists n, offset, log1, w1, items, w2, t. repeat split; assumption.
Qed.

End AuditRecords.

(** ** The advance of the offset *)

Section Advance.

Context {R : Type}.
Variable py : Builtins.
Variable sp : Spotify R.

(** The page fetched is the answer of the service to the one call made. *)
Lemma fetch_page_returned run offset (w : World R) results r1 :
  fetch_op sp run offset (w_remote w) = (inr results, r1) ->
  fetch_page sp run offset w = (Ok results, returned w (fetch_call run offset) r1).
Proof.
  unfold fetch_op, fetch_call, fetch_page, returned.
  destruct (source_playlist (PLAYLIST_ID run)); intros H; unfold invoke; now rewrite H.
Qed.

(** An iteration that has fetched a page with items raises, or goes on at
    the offset moved by the number of items, with more records or as
    many. *)
Lemma audit_page_advances run offset log (w w1 : World R) results :
  fetch_page sp run offset w = (Ok results, w1) ->
  results <> [] ->
  (exists e w', audit_page py sp run offset log w = (Raise e, w'))
  \/ (exists more w',
        audit_page py sp run offset log w
        = (Ok (Continue (offset + List.length results) (log ++ more)), w')).
Proof.
  intros Hfetch Hne.
  pose proof (fuel_free_audit_page py sp run offset log w) as Hfree.
  destruct (audit_page py sp run offset log w) as [[control | e |] w'] eqn:Epage;
    cbn [fst] in Hfree; [| left; eauto | contradiction].
  destruct control as [| offset' log'].
  - apply audit_page_break in Epage. rewrite Epage in Hfetch.
    injection Hfetch as <- _. congruence.
  - right. pose proof Epage as Hentries.
    apply audit_page_entries in Hentries.
    destruct Hentries as (items & w2 & es & _ & -> & _).
    apply audit_page_ok in Epage.
    destruct Epage as (results' & w3 & Hfetch' & [(_ & Hc & _) | (_ & log1 & Hc)]);
      [discriminate |].
    rewrite Hfetch in Hfetch'. injection Hfetch' as <- _.
    injection Hc as -> _. eauto.
Qed.

(** C9. Whatever the source, the page fetched at an offset is what the
    service answers to the fetch at that offset. A page without items ends
    the loop there, with the records gathered so far. A page with items
    never ends it: the iteration raises, or the loop goes on at the offset
    moved forward by the number of items of the page, keeping the records
    gathered so far. Conversely an iteration that goes on has received a
    page with items and has moved the offset by their number, an iteration
    breaks exactly when the page fetched has no item, and the loop
    completes exactly when, after some number of iterations within the
    fuel, the page fetched is empty. In particular an empty first page
    ends the loop at once, with no audit record. *)
Theorem pagination_ends_on_empty_page run :
  (forall offset (w : World R) results r1,
     fetch_op sp run offset (w_remote w) = (inr results, r1) ->
     fetch_page sp run offset w
     = (Ok results, returned w (fetch_call run offset) r1))
  /\ (forall fuel offset log (w w1 : World R),
        fetch_page sp run offset w = (Ok [], w1) ->
        audit_page py sp run offset log w = (Ok Break, w1)
        /\ audit_loop py sp (S fuel) run offset log w = (Ok log, w1))
  /\ (forall fuel offset log (w w1 : World R) results,
        fetch_page sp run offset w = (Ok results, w1) ->
        results <> [] ->
        (exists e w',
           audit_page py sp run offset log w = (Raise e, w')
           /\ audit_loop py sp (S fuel) run offset log w = (Raise e, w'))
        \/ (exists more w',
              audit_page py sp run offset log w
              = (Ok (Continue (offset + List.length results) (log ++ more)), w')
              /\ audit_loop py sp (S fuel) run offset log w
                 = audit_loop py sp fuel run (offset + List.length results)
                     (log ++ more) w'))
  /\ (forall offset log (w : World R) offset' log' w',
        audit_page py sp run offset log w = (Ok (Continue offset' log'), w') ->
        exists results w1,
          fetch_page sp run offset w = (Ok results, w1)
          /\ results <> []
          /\ offset' = offset + List.length results)
  /\ (forall offset log (w : World R) w',
        audit_page py sp run offset log w = (Ok Break, w')
        <-> fetch_page sp run offset w = (Ok [], w'))
  /\ (forall fuel offset log (w : World R) log' w',
        audit_loop py sp fuel run offset log w = (Ok log', w')
        <-> exists n offset1 w1,
              n < fuel
              /\ rounds py sp run n offset log w offset1 log' w1
              /\ fetch_page sp run offset1 w1 = (Ok [], w'))
  /\ (forall fuel (w : World R) w',
        fetch_page sp run 0 w = (Ok [], w') ->
        audit_loop py sp (S fuel) run 0 [] w = (Ok [], w')).
Proof.
  split; [| split; [| split; [| split; [| split; [| split]]]]].
  - intros. now apply fetch_page_returned.
  - intros fuel offset log w w1 Hfetch.
    assert (Hpage : audit_page py sp run offset log w = (Ok Break, w1))
      by now apply audit_page_break.
    split; [exact Hpage |]. cbn [audit_loop]. now rewrite (bind_ok _ _ _ _ _ Hpage).
  - intros fuel offset log w w1 results Hfetch Hne.
    destruct (audit_page_advances run offset log w w1 results Hfetch Hne)
      as [(e & w' & Hpage) | (more & w' & Hpage)].
    + left. exists e, w'. split; [exact Hpage |].
      cbn [audit_loop]. now rewrite (bind_raise _ _ _ _ _ Hpage).
    + right. exists more, w'. split; [exact Hpage |].
      cbn [audit_loop]. now rewrite (bind_ok _ _ _ _ _ Hpage).
  - intros offset log w offset' log' w' H. apply audit_page_ok in H.
    destruct H as (results & w1 & Hfetch & [(_ & Hc & _) | (Hne & log1 & Hc)]);
      [discriminate |].
    injection Hc as -> _. exists results, w1. auto.
  - intros. apply audit_page_break.
  - intros. apply audit_loop_rounds.
  - intros fuel w w' Hfetch. apply audit_loop_rounds.
    exists 0, 0, w. split; [lia |]. split; [constructor | exact Hfetch].
Qed.

End Advance.

(** ** The properties at work on the concrete world *)

(** The dry run of the demo library issues only non-mutating calls. *)
Lemma dry_run_issues_no_mutating_call_witness :
  dry_run Demo.args_dry = true
  /\ exists tr,
       w_calls (snd (main Demo.py Demo.sp 5 (Parsed Demo.args_dry) (Demo.world Demo.library [])))
       = w_calls (Demo.world Demo.library []) ++ tr
       /\ Forall (fun ev => mutating (fst ev) = false) tr.
Proof.
  split; [reflexivity |].
  apply (dry_run_issues_no_mutating_call Demo.py Demo.sp 5 Demo.args_dry).
  reflexivity.
Defined.

(** Track [E] is redirected and unplayable: it is classified [Re-linked]. *)
Lemma classification_precedence_witness :
  audit_track Demo.py Demo.sp Demo.first_map Demo.track_E (Demo.world Demo.library [])
  = (Ok (Some Demo.entry_E),
     snd (audit_track Demo.py Demo.sp Demo.first_map Demo.track_E
            (Demo.world Demo.library [])))
  /\ r_linked_from Demo.track_E <> None
  /\ r_is_playable Demo.track_E = false
  /\ reason Demo.entry_E = "Re-linked".
Proof.
  split; [vm_compute; reflexivity |].
  split; [discriminate |]. split; [reflexivity |].
  refine (proj1 (classification_precedence Demo.py Demo.sp Demo.first_map Demo.track_E
                   (Demo.world Demo.library []) _ Demo.entry_E _) _).
  - vm_compute; reflexivity.
  - discriminate.
Defined.

(** The example of the specification: [linked_from.id = A], [id = B]. *)
Lemma old_id_is_source_identifier_witness :
  audit_track Demo.py Demo.sp (original_track_map_of Demo.first_page) Demo.track_A
    (Demo.world Demo.library [])
  = (Ok (Some Demo.entry_A),
     snd (audit_track Demo.py Demo.sp (original_track_map_of Demo.first_page)
            Demo.track_A (Demo.world Demo.library [])))
  /\ old_id Demo.entry_A = "A"
  /\ new_id Demo.entry_A = "B"
  /\ reason Demo.entry_A = "Re-linked".
Proof.
  split; [vm_compute; reflexivity |].
  refine (proj2 (proj2 (proj1 (old_id_is_source_identifier Demo.py Demo.sp Demo.live)
                          Demo.first_page Demo.track_A (Demo.world Demo.library []) _
                          Demo.entry_A _))
            "A" _).
  - vm_compute; reflexivity.
  - reflexivity.
Defined.

(** Track [C] is unplayable. Of the four search results the first is
    playable under another name, the second has the name but is not
    playable, the third and the fourth qualify: the third, [X3], is
    taken. *)
Lemma unplayable_replacement_is_first_match_witness :
  audit_track Demo.py Demo.sp Demo.first_map Demo.track_C (Demo.world Demo.library [])
  = (Ok (Some Demo.entry_C),
     snd (audit_track Demo.py Demo.sp Demo.first_map Demo.track_C
            (Demo.world Demo.library [])))
  /\ reason Demo.entry_C = "Unplayable"
  /\ new_id Demo.entry_C = "X3"
  /\ exists search_results,
       fst (search Demo.sp "Song C artist:Artist Two" 5 Demo.library) = inr search_results
       /\ ((exists before c after,
              search_results = before ++ c :: after
              /\ Forall (fun c' => ~ (c_is_playable c' = true
                                      /\ lower Demo.py (c_name c')
                                         = lower Demo.py "Song C"))
                        before
              /\ c_is_playable c = true
              /\ lower Demo.py (c_name c) = lower Demo.py "Song C"
              /\ "X3" = c_id c
              /\ "Album X3" = c_album c)
           \/ (Forall (fun c' => ~ (c_is_playable c' = true
                                    /\ lower Demo.py (c_name c')
                                       = lower Demo.py "Song C"))
                      search_results
               /\ "X3" = EmptyString
               /\ "Album X3" = EmptyString)).
Proof.
  split; [vm_compute; reflexivity |].
  split; [reflexivity |]. split; [reflexivity |].
  destruct (unplayable_replacement_is_first_match Demo.py Demo.sp Demo.first_map
              Demo.track_C (Demo.world Demo.library [])
              (snd (audit_track Demo.py Demo.sp Demo.first_map Demo.track_C
                      (Demo.world Demo.library [])))
              Demo.entry_C)
    as (search_results & Hsearch & _ & Hfirst).
  - vm_compute; reflexivity.
  - reflexivity.
  - exists search_results. split; [exact Hsearch | exact Hfirst].
Defined.

(** A live run filtered on [ARTIST one]: of the three records with a
    replacement, the two by [Artist One] are acted on, and the calls issued
    are their two adds and two removals. *)
Lemma reconciliation_acts_on_selected_witness :
  DRY_RUN Demo.live_artist_one = false
  /\ (exists tr,
        w_calls (snd (live_run_actions Demo.py Demo.sp Demo.live_artist_one
                        Demo.audit_log (Demo.world Demo.library [])))
        = w_calls (Demo.world Demo.library []) ++ tr
        /\ map fst (filter (fun ev => is_add (fst ev)) tr)
           = [CurrentUserSavedTracksAdd ["B"]; CurrentUserSavedTracksAdd ["F"]]
        /\ List.length tr = 4)
  /\ exists filename summary audit_sheet,
       w_files (snd (report Demo.py Demo.live_artist_one Demo.audit_log
                       (Demo.world Demo.library [])))
       = [(filename, [summary; audit_sheet])]
       /\ In [CStr "Unplayable"; CStr "Artist Two"; CStr "Song C"; CStr "Album C";
              CStr "C"; CStr "Album X3"; CStr "X3"]
             (sh_rows audit_sheet).
Proof.
  split; [reflexivity |].
  destruct (reconciliation_acts_on_selected Demo.py Demo.sp Demo.live_artist_one
              Demo.audit_log (Demo.world Demo.library []) (Demo.world Demo.library []))
    as [(tr & Htrace & Hadds & _) [Hreport _]].
  - reflexivity.
  - split.
    + exists tr. split; [exact Htrace |]. split.
      * rewrite Hadds. vm_compute. reflexivity.
      * vm_compute in Htrace. subst tr. reflexivity.
    + apply (Hreport (snd (report Demo.py Demo.live_artist_one Demo.audit_log
                             (Demo.world Demo.library [])))
                     ltac:(vm_compute; reflexivity) Demo.entry_C).
      simpl. tauto.
Defined.

(** In the live run of the demo library the removal of [C] comes right
    after the add of [X3]. *)
Lemma add_precedes_remove_witness :
  (w_calls (snd (live_run_actions Demo.py Demo.sp Demo.live Demo.audit_log
                   (Demo.world Demo.library [])))
   = w_calls (Demo.world Demo.library [])
     ++ [(CurrentUserSavedTracksAdd ["B"], Returned);
         (CurrentUserSavedTracksDelete ["A"], Returned);
         (CurrentUserSavedTracksAdd ["X3"], Returned);
         (CurrentUserSavedTracksDelete ["C"], Returned);
         (CurrentUserSavedTracksAdd ["F"], Returned);
         (CurrentUserSavedTracksDelete ["E"], Returned)])
  /\ exists t before',
       In t Demo.audit_log
       /\ truthy (new_id t) = true
       /\ CurrentUserSavedTracksDelete ["C"] = remove_call Demo.live t
       /\ [(CurrentUserSavedTracksAdd ["B"], Returned);
           (CurrentUserSavedTracksDelete ["A"], Returned);
           (CurrentUserSavedTracksAdd ["X3"], Returned)]
          = before' ++ [(add_call Demo.live t, Returned)].
Proof.
  split; [vm_compute; reflexivity |].
  apply (proj1 (add_precedes_remove Demo.py Demo.sp Demo.live) Demo.audit_log
           (Demo.world Demo.library [])
           [(CurrentUserSavedTracksAdd ["B"], Returned);
            (CurrentUserSavedTracksDelete ["A"], Returned);
            (CurrentUserSavedTracksAdd ["X3"], Returned);
            (CurrentUserSavedTracksDelete ["C"], Returned);
            (CurrentUserSavedTracksAdd ["F"], Returned);
            (CurrentUserSavedTracksDelete ["E"], Returned)]
           [(CurrentUserSavedTracksAdd ["B"], Returned);
            (CurrentUserSavedTracksDelete ["A"], Returned);
            (CurrentUserSavedTracksAdd ["X3"], Returned)]
           (CurrentUserSavedTracksDelete ["C"]) Returned
           [(CurrentUserSavedTracksAdd ["F"], Returned);
            (CurrentUserSavedTracksDelete ["E"], Returned)]).
  - vm_compute; reflexivity.
  - reflexivity.
  - reflexivity.
Defined.

(** A live run against a service that refuses [X3] and [E]: the add of
    [X3] fails and the removal of [E] fails, the run completes, all three
    records are attempted, and both failures are on the console. *)
Lemma reconciliation_survives_failures_witness :
  DRY_RUN Demo.live = false
  /\ fst (live_run_actions Demo.py Demo.sp Demo.live Demo.audit_log
            (Demo.world Demo.stubborn []))
     = Ok tt
  /\ map fst (w_calls (snd (live_run_actions Demo.py Demo.sp Demo.live Demo.audit_log
                              (Demo.world Demo.stubborn []))))
     = [CurrentUserSavedTracksAdd ["B"]; CurrentUserSavedTracksDelete ["A"];
        CurrentUserSavedTracksAdd ["X3"];
        CurrentUserSavedTracksAdd ["F"]; CurrentUserSavedTracksDelete ["E"]]
  /\ exists tr out,
       w_calls (snd (live_run_actions Demo.py Demo.sp Demo.live Demo.audit_log
                       (Demo.world Demo.stubborn [])))
       = w_calls (Demo.world Demo.stubborn []) ++ tr
       /\ w_stdout (snd (live_run_actions Demo.py Demo.sp Demo.live Demo.audit_log
                           (Demo.world Demo.stubborn [])))
          = w_stdout (Demo.world Demo.stubborn []) ++ out
       /\ reconciled Demo.live (filter (acted_on Demo.py Demo.live) Demo.audit_log) tr
       /\ In (Print "An error occurred while replacing track C: 403") out
       /\ In (Print "An error occurred while replacing track E: 403") out.
Proof.
  split; [reflexivity |].
  destruct (reconciliation_survives_failures Demo.py Demo.sp Demo.live Demo.audit_log
              (Demo.world Demo.stubborn []))
    as (Hok & tr & out & Htrace & Hout & Hshape & Hlog).
  - reflexivity.
  - split; [exact Hok |]. split; [vm_compute; reflexivity |].
    exists tr, out. split; [exact Htrace |]. split; [exact Hout |].
    split; [exact Hshape |].
    vm_compute in Hout. subst out.
    split; vm_compute; tauto.
Defined.



(** An empty library: the first page is empty, the loop ends at once with
    no record, and the whole dry run writes no file. *)
Lemma pagination_ends_on_empty_page_witness :
  (audit_loop Demo.py Demo.sp 1 Demo.live 0 [] (Demo.world Demo.nothing [])
   = (Ok [], returned (Demo.world Demo.nothing []) (CurrentUserSavedTracks 50 0)
                      Demo.nothing))
  /\ ((exists e w',
         audit_page Demo.py Demo.by_two Demo.live 2 [Demo.entry_A]
           (Demo.world Demo.library [])
         = (Raise e, w')
         /\ audit_loop Demo.py Demo.by_two 3 Demo.live 2 [Demo.entry_A]
              (Demo.world Demo.library [])
            = (Raise e, w'))
      \/ (exists more w',
            audit_page Demo.py Demo.by_two Demo.live 2 [Demo.entry_A]
              (Demo.world Demo.library [])
            = (Ok (Continue (2 + 2) ([Demo.entry_A] ++ more)), w')
            /\ audit_loop Demo.py Demo.by_two 3 Demo.live 2 [Demo.entry_A]
                 (Demo.world Demo.library [])
               = audit_loop Demo.py Demo.by_two 2 Demo.live (2 + 2)
                   ([Demo.entry_A] ++ more) w'))
  /\ fst (audit_loop Demo.py Demo.by_two 4 Demo.live 0 [] (Demo.world Demo.library []))
     = Ok Demo.audit_log
  /\ map fst (w_calls (snd (audit_loop Demo.py Demo.by_two 4 Demo.live 0 []
                              (Demo.world Demo.library []))))
     = [CurrentUserSavedTracks 50 0; Tracks ["A"] "BE";
        CurrentUserSavedTracks 50 2; Tracks ["C"; "D"] "BE";
        Search "Song C artist:Artist Two" 5;
        CurrentUserSavedTracks 50 4; Tracks ["E"] "BE";
        CurrentUserSavedTracks 50 5]
  /\ w_files (snd (main Demo.py Demo.sp 1 (Parsed Demo.args_dry)
                     (Demo.world Demo.nothing [])))
     = [].
Proof.
  pose proof (pagination_ends_on_empty_page Demo.py Demo.by_two Demo.live)
    as (_ & _ & Hadvance & _).
  pose proof (pagination_ends_on_empty_page Demo.py Demo.sp Demo.live)
    as (Hfetch & Hempty & _).
  split; [| split; [| repeat split; vm_compute; reflexivity]].
  - apply (Hempty 0 0 [] (Demo.world Demo.nothing [])).
    apply (Hfetch 0 (Demo.world Demo.nothing []) [] Demo.nothing). reflexivity.
  - apply (Hadvance 2 2 [Demo.entry_A] (Demo.world Demo.library [])
             (snd (fetch_page Demo.by_two Demo.live 2 (Demo.world Demo.library [])))
             (Demo.page_of ["A"; "local"; "C"; "D"; "E"] 2 2)).
    + vm_compute. reflexivity.
    + discriminate.
Defined.

(** A first page of two items without a track: the loop moves on to
    offset 2 with no record. *)
Lemma page_without_usable_track_is_skipped_witness :
  fetch_page Demo.sp Demo.live 0 (Demo.world Demo.local_files [])
  = (Ok [Some {| track := None |}; Some {| track := None |}],
     snd (fetch_page Demo.sp Demo.live 0 (Demo.world Demo.local_files [])))
  /\ audit_page Demo.py Demo.sp Demo.live 0 [] (Demo.world Demo.local_files [])
     = (Ok (Continue 2 []),
        snd (fetch_page Demo.sp Demo.live 0 (Demo.world Demo.local_files []))).
Proof.
  split; [vm_compute; reflexivity |].
  refine (proj1 (page_without_usable_track_is_skipped Demo.py Demo.sp Demo.live 0 []
                   (Demo.world Demo.local_files [])
                   (snd (fetch_page Demo.sp Demo.live 0 (Demo.world Demo.local_files [])))
                   [Some {| track := None |}; Some {| track := None |}] _ _ _)).
  - vm_compute; reflexivity.
  - discriminate.
  - repeat constructor; intros (t & id & Heq & _); discriminate.
Defined.

(** *** Whole runs *)

(** The spellings accepted by [str_to_bool]. *)
Example str_to_bool_spellings :
  map (str_to_bool Demo.py) [inr "YES"; inr "t"; inr "0"; inr "No"; inr "maybe"; inl true]
  = [Some true; Some true; Some false; Some false; None; Some true].
Proof. vm_compute. reflexivity. Qed.

(** A live run on the saved tracks, confirmed with [Y]: each of the three
    replacements found is added, then its original removed. *)
Example live_run_of_the_library :
  let r := main Demo.py Demo.sp 5 (Parsed Demo.args_live) (Demo.world Demo.library ["Y"]) in
  fst r = Ok tt
  /\ filter (fun ev => mutating (fst ev)) (w_calls (snd r))
     = [(CurrentUserSavedTracksAdd ["B"], Returned);
        (CurrentUserSavedTracksDelete ["A"], Returned);
        (CurrentUserSavedTracksAdd ["X3"], Returned);
        (CurrentUserSavedTracksDelete ["C"], Returned);
        (CurrentUserSavedTracksAdd ["F"], Returned);
        (CurrentUserSavedTracksDelete ["E"], Returned)]
  /\ Demo.saved (w_remote (snd r)) = ["F"; "X3"; "B"; "local"; "D"].
Proof. vm_compute. repeat split; reflexivity. Qed.

(** A live run declined at the confirmation: nothing is audited. *)
Example live_run_declined :
  let r := main Demo.py Demo.sp 5 (Parsed Demo.args_live) (Demo.world Demo.library ["n"]) in
  fst r = Ok tt
  /\ map fst (w_calls (snd r)) = [CurrentUser; AvailableMarkets]
  /\ w_files (snd r) = [].
Proof. vm_compute. repeat split; reflexivity. Qed.

(** A live run from the menu: two rejected inputs, then the playlist
    [Mine], audited for the market [US] and reconciled for one artist. *)
Example live_run_from_the_menu :
  let r := main Demo.py Demo.sp 5 (Parsed Demo.args_menu)
             (Demo.world Demo.library ["x"; "7"; "2"; "y"; "y"]) in
  fst r = Ok tt
  /\ map fst (w_calls (snd r))
     = [CurrentUser; AvailableMarkets;
        CurrentUserPlaylists 50 0; CurrentUserPlaylists 50 2;
        PlaylistItems "P1" 100 0 "US"; Tracks ["A"; "C"] "US";
        Search "Song C artist:Artist Two" 5;
        PlaylistItems "P1" 100 2 "US";
        PlaylistAddItems "P1" ["X3"];
        PlaylistRemoveAllOccurrencesOfItems "P1" ["C"]]
  /\ Demo.in_playlist (w_remote (snd r)) = ["A"; "X3"].
Proof. vm_compute. repeat split; reflexivity. Qed.

(** A blank artist filter is refused before any call is issued. *)
Example blank_artist_is_refused :
  let r := main Demo.py Demo.sp 5
             (Parsed {| dry_run := true; market := "be"; playlist_id := None;
                        select_from_list := false; arg_artist := Some "  " |})
             (Demo.world Demo.library []) in
  fst r = Raise (SystemExit 1) /\ w_calls (snd r) = [].
Proof. vm_compute. split; reflexivity. Qed.

(** Without fuel left the loop has not finished. *)
Example audit_needs_fuel :
  fst (audit_loop Demo.py Demo.sp 1 Demo.live 0 [] (Demo.world Demo.library []))
  = OutOfFuel
  /\ fst (audit_loop Demo.py Demo.sp 2 Demo.live 0 [] (Demo.world Demo.library []))
     = Ok Demo.audit_log.
Proof. vm_compute. split; reflexivity. Qed.

(** * Further properties *)

(** ** What every audit record looks like *)

Section Records.

Context {R : Type}.
Variable py : Builtins.
Variable sp : Spotify R.

(** A property of every record that [audit_track] can yield under the map
    of a page holds of every record of a completed audit. *)
Lemma audit_records (P : LogEntry -> Prop) :
  (forall (items : Page) resolved_track (w w' : World R) e,
     audit_track py sp (original_track_map_of items) resolved_track w
     = (Ok (Some e), w') ->
     P e) ->
  forall fuel run (w w' : World R) tracks_to_audit_log,
    audit py sp fuel run w = (Ok tracks_to_audit_log, w') ->
    Forall P tracks_to_audit_log.
Proof.
  intros HP fuel run w w' log H. unfold audit in H.
  apply bind_inv_ok in H. destruct H as (u & w1 & _ & H).
  apply audit_loop_entries in H. destruct H as (es & -> & Hes). cbn [app].
  eapply Forall_impl; [| exact Hes].
  intros e (n & offset & log1 & w2 & items & w3 & rt & w4 & w5 & _ & _ & He).
  eapply HP. exact He.
Qed.

(** The reasons of the records of a completed audit. *)
Lemma audit_classified fuel run (w w' : World R) tracks_to_audit_log :
  audit py sp fuel run w = (Ok tracks_to_audit_log, w') ->
  Forall (fun e =>
            (reason e = "OK" /\ new_id e = EmptyString /\ new_album e = EmptyString)
            \/ reason e = "Re-linked"
            \/ reason e = "Unplayable")
         tracks_to_audit_log.
Proof.
  apply audit_records. intros items rt w0 w1 e H.
  apply audit_track_inv in H.
  destruct H as (original_track & others & _ & _ & _ & _ & _ & Hcase).
  destruct Hcase as [(_ & Hr & _) | [(_ & _ & Hr & _) | (_ & _ & Hr & Hn & Ha & _)]];
    auto.
Qed.

(** X1. Every record of a completed audit carries one of the three
    reasons, and a record with the reason [OK] has neither a new
    identifier nor a new album. *)
Theorem audit_reasons fuel run (w w' : World R) tracks_to_audit_log :
  audit py sp fuel run w = (Ok tracks_to_audit_log, w') ->
  Forall (fun e =>
            (reason e = "OK" /\ new_id e = EmptyString /\ new_album e = EmptyString)
            \/ reason e = "Re-linked"
            \/ reason e = "Unplayable")
         tracks_to_audit_log.
Proof. apply audit_classified. Qed.

Lemma count_reason_cons r e (log : list LogEntry) :
  count_reason r (e :: log)
  = (if String.eqb (reason e) r then 1 else 0) + count_reason r log.
Proof. unfold count_reason. cbn [filter]. now destruct (String.eqb (reason e) r). Qed.

Lemma count_replacements_cons e (log : list LogEntry) :
  count_replacements (e :: log)
  = (if truthy (new_id e) then 1 else 0) + count_replacements log.
Proof. unfold count_replacements. cbn [filter]. now destruct (truthy (new_id e)). Qed.

(** X2. The statistics of the summary are consistent for the records of a
    completed audit: the clean, unplayable and re-linked counts add up to
    the total, and the number of replacements found is at most the number
    of unplayable and re-linked tracks. *)
Theorem summary_counts_add_up fuel run (w w' : World R) tracks_to_audit_log :
  audit py sp fuel run w = (Ok tracks_to_audit_log, w') ->
  count_reason "OK" tracks_to_audit_log
  + count_reason "Unplayable" tracks_to_audit_log
  + count_reason "Re-linked" tracks_to_audit_log
  = List.length tracks_to_audit_log
  /\ count_replacements tracks_to_audit_log
     <= count_reason "Unplayable" tracks_to_audit_log
        + count_reason "Re-linked" tracks_to_audit_log.
Proof.
  intros H. apply audit_classified in H.
  induction H as [| e log He _ IH].
  - split; reflexivity.
  - rewrite !count_reason_cons, count_replacements_cons. cbn [List.length].
    destruct IH as [IH1 IH2].
    destruct He as [(Hr & Hn & _) | [Hr | Hr]]; rewrite Hr.
    + rewrite Hn. cbn. split; lia.
    + cbn. destruct (truthy (new_id e)); split; lia.
    + cbn. destruct (truthy (new_id e)); split; lia.
Qed.

(** Step 7 of a dry run issues no call. *)
Lemma live_run_actions_dry run log (w : World R) :
  DRY_RUN run = true ->
  w_calls (snd (live_run_actions py sp run log w)) = w_calls w.
Proof.
  intros Hdry. unfold live_run_actions. rewrite Hdry. cbn [negb].
  rewrite bind_print.
  destruct (Nat.ltb 0 (count_replacements log)); reflexivity.
Qed.

(** X3. A record found clean causes no call. Every call that step 7
    issues for the records of a completed audit is the add of the new
    identifier or the removal of the old identifier of a record whose
    reason is [Re-linked] or [Unplayable] and for which a replacement was
    found; and when the audit has found every track clean, step 7 issues
    no call at all. What is added is whatever the audit found as the
    replacement: nothing prevents it from being a track that is itself in
    the source and was found clean. *)
Theorem clean_records_cause_no_call fuel run (w w' : World R) tracks_to_audit_log :
  audit py sp fuel run w = (Ok tracks_to_audit_log, w') ->
  forall (w0 : World R) tr,
    w_calls (snd (live_run_actions py sp run tracks_to_audit_log w0))
    = w_calls w0 ++ tr ->
    (forall ev,
       In ev tr ->
       exists t,
         In t tracks_to_audit_log
         /\ (reason t = "Re-linked" \/ reason t = "Unplayable")
         /\ new_id t <> EmptyString
         /\ (fst ev = add_call run t \/ fst ev = remove_call run t))
    /\ (Forall (fun t => reason t = "OK") tracks_to_audit_log -> tr = []).
Proof.
  intros Haudit w0 tr Htrace.
  apply audit_classified in Haudit.
  assert (Hcalls : forall ev,
             In ev tr ->
             exists t,
               In t tracks_to_audit_log
               /\ (reason t = "Re-linked" \/ reason t = "Unplayable")
               /\ new_id t <> EmptyString
               /\ (fst ev = add_call run t \/ fst ev = remove_call run t)).
  { intros ev Hin. destruct (DRY_RUN run) eqn:Hdry.
    - rewrite (live_run_actions_dry _ _ _ Hdry) in Htrace.
      rewrite <- (app_nil_r (w_calls w0)) in Htrace at 1.
      apply app_inv_head in Htrace. subst tr. destruct Hin.
    - destruct (live_run_actions_spec py sp run tracks_to_audit_log w0 Hdry)
        as (w1 & tr' & out & Hrun & Htr' & _ & Hshape & _).
      rewrite Hrun in Htrace. cbn [snd] in Htrace.
      assert (tr' = tr) by (eapply issues_inj; [exact Htr' | exact Htrace]).
      subst tr'.
      destruct (reconciled_calls _ _ _ Hshape ev Hin) as (t & Ht & Hc).
      apply filter_In in Ht. destruct Ht as [Ht Hacted].
      unfold acted_on in Hacted. apply andb_true_iff in Hacted.
      destruct Hacted as [Hnew _]. apply truthy_nonempty in Hnew.
      exists t. split; [exact Ht |]. split; [| split; [exact Hnew | exact Hc]].
      rewrite Forall_forall in Haudit.
      destruct (Haudit t Ht) as [(_ & Hn & _) | [Hr | Hr]]; auto.
      congruence. }
  split; [exact Hcalls |].
  intros Hclean. destruct tr as [| ev tr]; [reflexivity |].
  destruct (Hcalls ev (or_introl eq_refl)) as (t & Ht & Hr & _).
  rewrite Forall_forall in Hclean. specialize (Hclean t Ht).
  rewrite Hclean in Hr. destruct Hr; discriminate.
Qed.

(** X4. A record describes the library's copy of the track: its artist,
    title and old album are those of a source item filed under [old_id],
    the artist being the first of the item's artists, whatever the
    resolved track says. *)
Theorem record_describes_the_source_item (items : Page) resolved_track
  (w w' : World R) e :
  audit_track py sp (original_track_map_of items) resolved_track w
  = (Ok (Some e), w') ->
  exists t others,
    In (Some {| track := Some t |}) items
    /\ t_id t = Some (old_id e)
    /\ title e = t_name t
    /\ old_album e = t_album t
    /\ t_artists t = artist e :: others.
Proof.
  intros H. apply audit_track_inv in H.
  destruct H as (original_track & others & Hget & Hart & Htitle & Halbum & Hold & _).
  apply original_track_map_of_get in Hget. destruct Hget as (Hin & Hid & _).
  exists original_track, others. rewrite Hold. repeat split; assumption.
Qed.

End Records.

(** The audit of the demo library and its four records. *)
Lemma audit_reasons_witness :
  audit Demo.py Demo.sp 2 Demo.live (Demo.world Demo.library [])
  = (Ok Demo.audit_log,
     snd (audit Demo.py Demo.sp 2 Demo.live (Demo.world Demo.library [])))
  /\ Forall (fun e =>
               (reason e = "OK" /\ new_id e = EmptyString /\ new_album e = EmptyString)
               \/ reason e = "Re-linked"
               \/ reason e = "Unplayable")
            Demo.audit_log.
Proof.
  split; [vm_compute; reflexivity |].
  apply (audit_reasons Demo.py Demo.sp 2 Demo.live (Demo.world Demo.library [])
           (snd (audit Demo.py Demo.sp 2 Demo.live (Demo.world Demo.library [])))).
  vm_compute; reflexivity.
Defined.

Lemma summary_counts_add_up_witness :
  count_reason "OK" Demo.audit_log
  + count_reason "Unplayable" Demo.audit_log
  + count_reason "Re-linked" Demo.audit_log
  = 4
  /\ count_replacements Demo.audit_log <= 3.
Proof.
  apply (summary_counts_add_up Demo.py Demo.sp 2 Demo.live (Demo.world Demo.library [])
           (snd (audit Demo.py Demo.sp 2 Demo.live (Demo.world Demo.library [])))).
  vm_compute; reflexivity.
Defined.

Lemma clean_records_cause_no_call_witness :
  exists t,
    In t Demo.audit_log
    /\ (reason t = "Re-linked" \/ reason t = "Unplayable")
    /\ new_id t <> EmptyString
    /\ (CurrentUserSavedTracksDelete ["C"] = add_call Demo.live t
        \/ CurrentUserSavedTracksDelete ["C"] = remove_call Demo.live t).
Proof.
  apply (proj1 (clean_records_cause_no_call Demo.py Demo.sp 2 Demo.live
           (Demo.world Demo.library [])
           (snd (audit Demo.py Demo.sp 2 Demo.live (Demo.world Demo.library [])))
           Demo.audit_log
           ltac:(vm_compute; reflexivity)
           (Demo.world Demo.library [])
           [(CurrentUserSavedTracksAdd ["B"], Returned);
            (CurrentUserSavedTracksDelete ["A"], Returned);
            (CurrentUserSavedTracksAdd ["X3"], Returned);
            (CurrentUserSavedTracksDelete ["C"], Returned);
            (CurrentUserSavedTracksAdd ["F"], Returned);
            (CurrentUserSavedTracksDelete ["E"], Returned)]
           ltac:(vm_compute; reflexivity))
           (CurrentUserSavedTracksDelete ["C"], Returned)).
  simpl. tauto.
Defined.

(** The playlist [P1] holding [C] and, already, the track [X3] that the
    search finds for [C]: [X3] is audited clean, and the live run adds it
    once more before it removes [C]. *)
Example replacement_already_in_the_source :
  let r := main Demo.py Demo.sp 5 (Parsed Demo.args_mine_live)
             (Demo.world Demo.crowded ["y"]) in
  fst r = Ok tt
  /\ map reason
         (match audit Demo.py Demo.sp 5 Demo.live_mine (Demo.world Demo.crowded []) with
          | (Ok log, _) => log
          | _ => []
          end)
     = ["Unplayable"; "OK"]
  /\ filter (fun ev => mutating (fst ev)) (w_calls (snd r))
     = [(PlaylistAddItems "P1" ["X3"], Returned);
        (PlaylistRemoveAllOccurrencesOfItems "P1" ["C"], Returned)]
  /\ Demo.in_playlist (w_remote (snd r)) = ["X3"; "X3"].
Proof. vm_compute. repeat split; reflexivity. Qed.

Lemma record_describes_the_source_item_witness :
  exists t others,
    In (Some {| track := Some t |}) Demo.first_page
    /\ t_id t = Some "A"
    /\ "Song A" = t_name t
    /\ "Album A" = t_album t
    /\ t_artists t = "Artist One" :: others.
Proof.
  apply (record_describes_the_source_item Demo.py Demo.sp Demo.first_page Demo.track_A
           (Demo.world Demo.library [])
           (snd (audit_track Demo.py Demo.sp (original_track_map_of Demo.first_page)
                   Demo.track_A (Demo.world Demo.library [])))
           Demo.entry_A).
  vm_compute; reflexivity.
Defined.

(** ** The map of a page *)

Section PageMap.

Lemma dict_keys_set_in {V : Type} (k k' : string) (v : V) (d : dict V) :
  In k' (dict_keys (dict_set k v d)) <-> k' = k \/ In k' (dict_keys d).
Proof.
  induction d as [| [k0 v0] d IH]; simpl.
  - split; [intros [<- | []]; now left | intros [-> | []]; now left].
  - destruct (String.eqb k0 k) eqn:E; simpl.
    + apply String.eqb_eq in E. subst k0. split; [tauto |].
      intros [-> | [H | H]]; auto.
    + rewrite IH. tauto.
Qed.

Lemma dict_keys_set_nodup {V : Type} (k : string) (v : V) (d : dict V) :
  NoDup (dict_keys d) -> NoDup (dict_keys (dict_set k v d)).
Proof.
  induction d as [| [k0 v0] d IH]; simpl; intros H.
  - constructor; [intros [] | constructor].
  - inversion H as [| x l Hnotin Hnodup]; subst.
    destruct (String.eqb k0 k) eqn:E; simpl.
    + constructor; assumption.
    + constructor; [| now apply IH].
      rewrite dict_keys_set_in. intros [-> | Hin]; [| contradiction].
      rewrite String.eqb_refl in E. discriminate.
Qed.

Lemma dict_keys_get {V : Type} (k : string) (d : dict V) :
  In k (dict_keys d) -> exists v, dict_get k d = Some v.
Proof.
  induction d as [| [k0 v0] d IH]; simpl; [intros [] |].
  destruct (String.eqb k0 k) eqn:E; [eauto |].
  intros [-> | H]; [| now apply IH].
  rewrite String.eqb_refl in E. discriminate.
Qed.

Lemma original_track_map_of_snoc (items : Page) item :
  original_track_map_of (items ++ [item])
  = file_item (original_track_map_of items) item.
Proof. unfold original_track_map_of. now rewrite fold_left_app. Qed.

(** X5. The identifiers sent to be resolved for a page are pairwise
    distinct, and they are exactly the non-empty identifiers of the tracks
    of the page's items: an item that is [None], has no track, or whose
    track has no identifier or an empty one contributes nothing, and a
    track present several times is resolved once. *)
Theorem page_map_keys (items : Page) :
  NoDup (dict_keys (original_track_map_of items))
  /\ forall k,
       In k (dict_keys (original_track_map_of items))
       <-> exists t,
             In (Some {| track := Some t |}) items
             /\ t_id t = Some k
             /\ k <> EmptyString.
Proof.
  induction items as [| item items IH] using rev_ind.
  - split; [constructor |]. intros k. split; [intros [] | intros (t & [] & _)].
  - destruct IH as [IHnodup IHin]. rewrite original_track_map_of_snoc.
    assert (Hold : forall k,
               (exists t, In (Some {| track := Some t |}) items
                          /\ t_id t = Some k /\ k <> EmptyString) ->
               exists t, In (Some {| track := Some t |}) (items ++ [item])
                         /\ t_id t = Some k /\ k <> EmptyString).
    { intros k (t & Hin & H). exists t. split; [apply in_or_app; now left | exact H]. }
    assert (Hsame : forall k,
               (forall t, item = Some {| track := Some t |} ->
                          t_id t = Some k -> k = EmptyString) ->
               (exists t, In (Some {| track := Some t |}) (items ++ [item])
                          /\ t_id t = Some k /\ k <> EmptyString) ->
               exists t, In (Some {| track := Some t |}) items
                         /\ t_id t = Some k /\ k <> EmptyString).
    { intros k Hitem (t & Hin & Hid & Hne). exists t.
      apply in_app_or in Hin. destruct Hin as [Hin | [Heq | []]]; [auto |].
      exfalso. apply Hne. eapply Hitem; [exact Heq | exact Hid]. }
    destruct item as [[[t |]] |]; cbn [file_item].
    + destruct (t_id t) as [id |] eqn:Eid.
      * destruct (truthy id) eqn:Etr.
        -- split; [now apply dict_keys_set_nodup |].
           intros k. rewrite dict_keys_set_in, IHin. split.
           ++ intros [-> | H]; [| now apply Hold].
              exists t. split; [apply in_or_app; right; now left |].
              split; [exact Eid |]. intros ->. discriminate.
           ++ intros (t' & Hin & Hid & Hne).
              apply in_app_or in Hin. destruct Hin as [Hin | [Heq | []]].
              ** right. exists t'. auto.
              ** injection Heq as <-. left. congruence.
        -- split; [exact IHnodup |]. intros k. rewrite IHin.
           split; [apply Hold | apply Hsame].
           intros t' [= <-] Hid. rewrite Eid in Hid. injection Hid as <-.
           destruct id; [reflexivity | discriminate].
      * split; [exact IHnodup |]. intros k. rewrite IHin.
        split; [apply Hold | apply Hsame].
        intros t' [= <-] Hid. congruence.
    + split; [exact IHnodup |]. intros k. rewrite IHin.
      split; [apply Hold | apply Hsame]. intros t' Heq. discriminate.
    + split; [exact IHnodup |]. intros k. rewrite IHin.
      split; [apply Hold | apply Hsame]. intros t' Heq. discriminate.
Qed.

(** X6. When a page holds several items with the same identifier, the
    map files the track of the last one: the track found under an
    identifier is that of an item after which no item of the page carries
    this identifier. *)
Theorem page_map_keeps_last (items : Page) k t :
  dict_get k (original_track_map_of items) = Some t ->
  exists before after,
    items = before ++ Some {| track := Some t |} :: after
    /\ t_id t = Some k
    /\ Forall (fun item =>
                 forall t', item = Some {| track := Some t' |} -> t_id t' <> Some k)
              after.
Proof.
  revert t. induction items as [| item items IH] using rev_ind; intros t.
  - discriminate.
  - rewrite original_track_map_of_snoc. intros H.
    assert (Hk : truthy k = true).
    { rewrite <- original_track_map_of_snoc in H.
      now apply original_track_map_of_get in H. }
    assert (Hkeep : dict_get k (original_track_map_of items) = Some t ->
                    (forall t', item = Some {| track := Some t' |} -> t_id t' <> Some k) ->
                    exists before after,
                      items ++ [item] = before ++ Some {| track := Some t |} :: after
                      /\ t_id t = Some k
                      /\ Forall (fun item =>
                                   forall t', item = Some {| track := Some t' |} ->
                                              t_id t' <> Some k)
                                after).
    { intros Hget Hitem. destruct (IH t Hget) as (before & after & -> & Hid & Hafter).
      exists before, (after ++ [item]). split; [now rewrite <- app_assoc |].
      split; [exact Hid |]. apply Forall_app. split; [exact Hafter |].
      constructor; [exact Hitem | constructor]. }
    destruct item as [[[t1 |]] |]; cbn [file_item] in H.
    + destruct (t_id t1) as [id |] eqn:Eid.
      * destruct (truthy id) eqn:Etr.
        -- rewrite dict_get_set in H. destruct (String.eqb id k) eqn:Ek.
           ++ apply String.eqb_eq in Ek. subst id. injection H as <-.
              exists items, []. split; [reflexivity |]. split; [exact Eid | constructor].
           ++ apply Hkeep; [exact H |]. intros t' [= <-]. rewrite Eid. intros [= ->].
              rewrite String.eqb_refl in Ek. discriminate.
        -- apply Hkeep; [exact H |]. intros t' [= <-]. rewrite Eid. intros [= ->].
           congruence.
      * apply Hkeep; [exact H |]. intros t' [= <-]. congruence.
    + apply Hkeep; [exact H |]. discriminate.
    + apply Hkeep; [exact H |]. discriminate.
Qed.

End PageMap.

(** On the page [twice] the identifier [A] is sent once, and the copy found
    under it is the second one. *)
Lemma page_map_keeps_last_witness :
  dict_keys (original_track_map_of Demo.twice) = ["A"]
  /\ exists before after,
       Demo.twice = before ++ Some {| track := Some Demo.second_copy |} :: after
       /\ t_id Demo.second_copy = Some "A"
       /\ Forall (fun item =>
                    forall t', item = Some {| track := Some t' |} -> t_id t' <> Some "A")
                 after.
Proof.
  split; [reflexivity |].
  apply (page_map_keeps_last Demo.twice "A" Demo.second_copy).
  reflexivity.
Defined.

(** ** Column widths *)

Section Columns.

Variable py : Builtins.







(** Four small sheets: a row appended empty after the last cell does not
    count; a sheet of one empty row has one column, of one cell never
    written; a sheet without rows has no column; and a letter with an
    accent counts for one character. *)
Example auto_fit_columns_extent :
  let widths_for rows :=
    match auto_fit_columns Demo.py
            {| sh_title := "Sheet"; sh_rows := rows; sh_widths := [] |} with
    | inr worksheet => Some (sh_widths worksheet)
    | inl _ => None
    end in
  widths_for [[CStr "a"]; []] = Some [(1, 3)]
  /\ widths_for [[]] = Some [(1, 6)]
  /\ widths_for [] = Some []
  /\ widths_for [[CStr (String (ascii_of_nat 195) (String (ascii_of_nat 169) EmptyString))];
                 [CStr "a"; CInt 1234]]
     = Some [(1, 3); (2, 6)].
Proof. vm_compute. repeat split; reflexivity. Qed.

End Columns.


(** ** The phases of [main] *)

Section Phases.

Context {R : Type}.
Variable py : Builtins.
Variable sp : Spotify R.

Lemma bind_bind {A B C : Type} (m : M R A) (f : A -> M R B) (g : B -> M R C) w :
  bind (bind m f) g w = bind m (fun a => bind (f a) g) w.
Proof. unfold bind. destruct (m w) as [[a | e |] w1]; reflexivity. Qed.

Lemma bind_ext {A B : Type} (m : M R A) (k1 k2 : A -> M R B) w :
  (forall a w1, k1 a w1 = k2 a w1) -> bind m k1 w = bind m k2 w.
Proof. intros H. unfold bind. destruct (m w) as [[a | e |] w1]; auto. Qed.

(** [main_body] is [setup] followed, unless the user declined, by
    [finish]. *)
Lemma main_body_phases fuel args (w : World R) :
  main_body py sp fuel args w
  = bind (setup py sp fuel args)
         (fun r => match r with
                   | Some run => finish py sp fuel run
                   | None => ret tt
                   end) w.
Proof.
  unfold main_body, setup, finish.
  rewrite bind_bind. apply bind_ext. intros _ w1.
  rewrite bind_bind. apply bind_ext. intros user w2.
  rewrite bind_bind. apply bind_ext. intros _ w3.
  rewrite bind_bind. apply bind_ext. intros source w4.
  rewrite bind_bind. apply bind_ext. intros [|] w5; reflexivity.
Qed.

End Phases.

(** ** Invariants of the world *)

Section Invariants.

Context {R : Type}.
Variable py : Builtins.
Variable sp : Spotify R.

(** An invariant, and what it is closed under: each lemma below depends
    only on the closure properties of the statements that occur in the
    function it is about. *)
Variable I : World R -> Prop.
Hypothesis I_print : forall line (w : World R), I w -> I (snd (print line w)).
Hypothesis I_input : forall prompt (w : World R), I w -> I (snd (input prompt w)).
Hypothesis I_save :
  forall filename wb (w : World R), I w -> I (snd (save py filename wb w)).
Hypothesis I_read :
  forall (A : Type) c (op : R -> reply A * R),
    mutating c = false -> forall w, I w -> I (snd (invoke c op w)).
Hypothesis I_write :
  forall (A : Type) c (op : R -> reply A * R),
    mutating c = true -> forall w, I w -> I (snd (invoke c op w)).

Lemma preserves_ret {A : Type} (a : A) : preserves I (@ret R A a).
Proof. intros w H. exact H. Qed.

Lemma preserves_raise {A : Type} e : preserves I (@raise R A e).
Proof. intros w H. exact H. Qed.

Lemma preserves_sys_exit {A : Type} code : preserves I (@sys_exit R A code).
Proof. intros w H. exact H. Qed.

Lemma preserves_out_of_fuel {A : Type} : preserves I (@out_of_fuel R A).
Proof. intros w H. exact H. Qed.

Lemma preserves_print line : preserves I (@print R line).
Proof. intros w H. now apply I_print. Qed.

Lemma preserves_input prompt : preserves I (@input R prompt).
Proof. intros w H. now apply I_input. Qed.

Lemma preserves_save filename wb : preserves I (@save R py filename wb).
Proof. intros w H. now apply I_save. Qed.

Lemma preserves_lift {A : Type} (r : reply A) : preserves I (@lift R A r).
Proof. intros w H. now destruct r as [[cls msg] | a]. Qed.

Lemma preserves_read {A : Type} c (op : R -> reply A * R) :
  mutating c = false -> preserves I (invoke c op).
Proof. intros Hc w H. now apply I_read. Qed.

Lemma preserves_write {A : Type} c (op : R -> reply A * R) :
  mutating c = true -> preserves I (invoke c op).
Proof. intros Hc w H. now apply I_write. Qed.

(** The rule of sequence, with what is known of the value passed on. *)
Lemma preserves_bind_value {A B : Type} (m : M R A) (k : A -> M R B)
  (Q : A -> Prop) :
  preserves I m ->
  (forall w a w1, m w = (Ok a, w1) -> Q a) ->
  (forall a, Q a -> preserves I (k a)) ->
  preserves I (bind m k).
Proof.
  intros Hm HQ Hk w H. specialize (Hm w H). unfold bind.
  destruct (m w) as [[a | e |] w1] eqn:E; cbn [snd] in *; try exact Hm.
  apply Hk; [eapply HQ; exact E | exact Hm].
Qed.

Lemma preserves_bind {A B : Type} (m : M R A) (k : A -> M R B) :
  preserves I m -> (forall a, preserves I (k a)) -> preserves I (bind m k).
Proof.
  intros Hm Hk. apply (preserves_bind_value m k (fun _ => True)); auto.
Qed.

Lemma preserves_try_except {A : Type} (m : M R A) handles h :
  preserves I m -> (forall e, preserves I (h e)) ->
  preserves I (try_except m handles h).
Proof.
  intros Hm Hh w H. specialize (Hm w H). unfold try_except.
  destruct (m w) as [[a | e |] w1]; cbn [snd] in *; try exact Hm.
  destruct (handles e); [now apply Hh | exact Hm].
Qed.

(** Splits a composed statement into its parts. *)
Ltac preserves_step :=
  match goal with
  | |- preserves _ (bind _ _) => apply preserves_bind; [| intros ?]
  | |- preserves _ (try_except _ _ _) => apply preserves_try_except; [| intros ?]
  | |- preserves _ (ret _) => apply preserves_ret
  | |- preserves _ (raise _) => apply preserves_raise
  | |- preserves _ (sys_exit _) => apply preserves_sys_exit
  | |- preserves _ out_of_fuel => apply preserves_out_of_fuel
  | |- preserves _ (print _) => apply preserves_print
  | |- preserves _ (input _) => apply preserves_input
  | |- preserves _ (save _ _ _) => apply preserves_save
  | |- preserves _ (lift _) => apply preserves_lift
  | |- preserves _ (invoke ?c _) =>
      first [apply preserves_read; reflexivity | apply preserves_write; reflexivity]
  | |- preserves _ (if ?b then _ else _) => destruct b
  | |- preserves _ (match ?x with _ => _ end) => destruct x
  end.

Ltac preserves_auto := repeat preserves_step.

Lemma preserves_validation args :
  preserves I
    (match arg_artist args with
     | Some a =>
         if truthy (strip py a)
         then ret tt
         else print "Error: --artist parameter cannot be an empty string." ;;
              @sys_exit R unit 1
     | None => ret tt
     end).
Proof. preserves_auto. Qed.

Lemma preserves_authenticate : preserves I (authenticate sp).
Proof. unfold authenticate. preserves_auto. Qed.

Lemma preserves_check_market args USER_MARKET :
  preserves I (check_market sp args USER_MARKET).
Proof. unfold check_market. preserves_auto. Qed.

Lemma preserves_fetch_playlists fuel user offset selection_options :
  preserves I (fetch_playlists sp fuel user offset selection_options).
Proof.
  revert offset selection_options.
  induction fuel as [| fuel IH]; intros offset selection_options; simpl.
  - preserves_auto.
  - apply preserves_bind; [preserves_auto |].
    intros [| playlist rest]; [preserves_auto | apply IH].
Qed.

Lemma preserves_print_menu i selection_options :
  preserves I (@print_menu R i selection_options).
Proof.
  revert i. induction selection_options as [| option rest IH]; intros i; simpl.
  - preserves_auto.
  - apply preserves_bind; [preserves_auto | intros _; apply IH].
Qed.

Lemma preserves_choose_source fuel selection_options :
  preserves I (@choose_source R py fuel selection_options).
Proof.
  induction fuel as [| fuel IH]; simpl.
  - preserves_auto.
  - apply preserves_bind; [preserves_auto |]. intros choice_str.
    destruct (int_of_str py choice_str) as [choice_index |].
    + match goal with |- preserves _ (if ?b then _ else _) => destruct b end.
      * preserves_auto.
      * apply preserves_bind; [preserves_auto | intros _; apply IH].
    + apply preserves_bind; [preserves_auto | intros _; apply IH].
Qed.

(** Without the menu, step 3 reads nothing from the console. *)
Lemma preserves_determine_source_by_id fuel args user :
  select_from_list args = false ->
  preserves I (determine_source py sp fuel args user).
Proof.
  intros Hmenu. unfold determine_source. rewrite Hmenu. preserves_auto.
Qed.

Lemma preserves_determine_source fuel args user :
  preserves I (determine_source py sp fuel args user).
Proof.
  destruct (select_from_list args) eqn:Hmenu;
    [| now apply preserves_determine_source_by_id].
  unfold determine_source. rewrite Hmenu.
  apply preserves_bind; [preserves_auto | intros _].
  apply preserves_bind; [apply preserves_fetch_playlists | intros options].
  apply preserves_bind; [preserves_auto | intros _].
  apply preserves_bind; [apply preserves_print_menu | intros _].
  apply preserves_choose_source.
Qed.

(** A dry run is announced without a question. *)
Lemma preserves_announce_mode_dry run :
  DRY_RUN run = true -> preserves I (@announce_mode R py run).
Proof. intros Hdry. unfold announce_mode. rewrite Hdry. preserves_auto. Qed.

Lemma preserves_announce_mode run : preserves I (@announce_mode R py run).
Proof.
  destruct (DRY_RUN run) eqn:Hdry; [now apply preserves_announce_mode_dry |].
  unfold announce_mode. rewrite Hdry. preserves_auto.
Qed.

Lemma preserves_fetch_page run offset : preserves I (fetch_page sp run offset).
Proof. unfold fetch_page. preserves_auto. Qed.

Lemma preserves_audit_track original_track_map resolved_track :
  preserves I (audit_track py sp original_track_map resolved_track).
Proof. unfold audit_track. preserves_auto. Qed.

Lemma preserves_audit_tracks original_track_map full_tracks_details log :
  preserves I (audit_tracks py sp original_track_map full_tracks_details log).
Proof.
  revert log.
  induction full_tracks_details as [| [resolved_track |] rest IH]; intros log; simpl.
  - preserves_auto.
  - apply preserves_bind; [apply preserves_audit_track |].
    intros [log_entry |]; apply IH.
  - apply IH.
Qed.

Lemma preserves_audit_page run offset log :
  preserves I (audit_page py sp run offset log).
Proof.
  unfold audit_page.
  apply preserves_bind; [apply preserves_fetch_page |]. intros [| item results].
  - preserves_auto.
  - destruct (dict_keys (original_track_map_of (item :: results))).
    + preserves_auto.
    + apply preserves_bind; [preserves_auto | intros full_tracks_details].
      apply preserves_bind; [apply preserves_audit_tracks | intros log'].
      preserves_auto.
Qed.

Lemma preserves_audit_loop fuel run offset log :
  preserves I (audit_loop py sp fuel run offset log).
Proof.
  revert offset log. induction fuel as [| fuel IH]; intros offset log; simpl.
  - preserves_auto.
  - apply preserves_bind; [apply preserves_audit_page |].
    intros [| offset' log']; [preserves_auto | apply IH].
Qed.

Lemma preserves_audit fuel run : preserves I (audit py sp fuel run).
Proof.
  unfold audit. apply preserves_bind; [preserves_auto | intros _].
  apply preserves_audit_loop.
Qed.

Lemma preserves_report run log : preserves I (@report R py run log).
Proof. unfold report. preserves_auto. Qed.

Lemma preserves_replace_track run i total t :
  preserves I (replace_track sp run i total t).
Proof. unfold replace_track. preserves_auto. Qed.

Lemma preserves_replacement_loop run total ts :
  forall i processed_count,
    preserves I (replacement_loop py sp run total i processed_count ts).
Proof.
  induction ts as [| t ts IH]; intros i processed_count; simpl.
  - preserves_auto.
  - destruct (filtered_out py run t); [apply IH |].
    apply preserves_bind; [| intros processed_count'; apply IH].
    apply preserves_try_except.
    + apply preserves_bind; [apply preserves_replace_track | intros _].
      preserves_auto.
    + intros e. preserves_auto.
Qed.

(** Step 7 of a dry run only prints. *)
Lemma preserves_live_run_actions_dry run log :
  DRY_RUN run = true -> preserves I (live_run_actions py sp run log).
Proof.
  intros Hdry. unfold live_run_actions. rewrite Hdry. cbn [negb]. preserves_auto.
Qed.

Lemma preserves_live_run_actions run log :
  preserves I (live_run_actions py sp run log).
Proof.
  destruct (DRY_RUN run) eqn:Hdry; [now apply preserves_live_run_actions_dry |].
  unfold live_run_actions. rewrite Hdry. cbn [negb].
  destruct (filter (fun t => truthy (new_id t)) log) as [| t0 ts] eqn:E.
  - preserves_auto.
  - apply preserves_bind; [preserves_auto | intros _].
    apply preserves_bind; [apply preserves_replacement_loop | intros processed_count].
    preserves_auto.
Qed.

(** The run that [setup] fixes carries the arguments. *)
Lemma setup_run fuel args (w w1 : World R) r :
  setup py sp fuel args w = (Ok r, w1) ->
  forall run,
    r = Some run ->
    DRY_RUN run = dry_run args
    /\ USER_MARKET run = upper py (market args)
    /\ TEST_MODE_ARTIST run = arg_artist args.
Proof.
  unfold setup. intros H run ->.
  apply bind_inv_ok in H. destruct H as (u1 & wa & _ & H).
  apply bind_inv_ok in H. destruct H as (user & wb & _ & H).
  apply bind_inv_ok in H. destruct H as (u2 & wc & _ & H).
  apply bind_inv_ok in H. destruct H as (source & wd & _ & H).
  apply bind_inv_ok in H. destruct H as (continue & we & _ & H).
  destruct continue; [| discriminate]. injection H as <- _. auto.
Qed.

Lemma preserves_setup fuel args : preserves I (setup py sp fuel args).
Proof.
  unfold setup.
  apply preserves_bind; [apply preserves_validation | intros _].
  apply preserves_bind; [apply preserves_authenticate | intros user].
  apply preserves_bind; [apply preserves_check_market | intros _].
  apply preserves_bind; [apply preserves_determine_source | intros source].
  apply preserves_bind; [apply preserves_announce_mode | intros continue].
  preserves_auto.
Qed.

(** A dry run without the menu is set up without a word from the user. *)
Lemma preserves_setup_unattended fuel args :
  dry_run args = true ->
  select_from_list args = false ->
  preserves I (setup py sp fuel args).
Proof.
  intros Hdry Hmenu. unfold setup.
  apply preserves_bind; [apply preserves_validation | intros _].
  apply preserves_bind; [apply preserves_authenticate | intros user].
  apply preserves_bind; [apply preserves_check_market | intros _].
  apply preserves_bind;
    [now apply preserves_determine_source_by_id | intros source].
  apply preserves_bind; [now apply preserves_announce_mode_dry | intros continue].
  preserves_auto.
Qed.

Lemma preserves_finish_dry fuel run :
  DRY_RUN run = true -> preserves I (finish py sp fuel run).
Proof.
  intros Hdry. unfold finish.
  apply preserves_bind; [apply preserves_audit | intros log].
  apply preserves_bind; [apply preserves_report | intros _].
  now apply preserves_live_run_actions_dry.
Qed.

Lemma preserves_finish fuel run : preserves I (finish py sp fuel run).
Proof.
  unfold finish.
  apply preserves_bind; [apply preserves_audit | intros log].
  apply preserves_bind; [apply preserves_report | intros _].
  apply preserves_live_run_actions.
Qed.

(** A dry run without the menu, as a whole. *)
Lemma preserves_main_unattended fuel args :
  dry_run args = true ->
  select_from_list args = false ->
  preserves I (main py sp fuel (Parsed args)).
Proof.
  intros Hdry Hmenu. rewrite main_parsed.
  apply preserves_try_except; [| intros e; preserves_auto].
  intros w H. rewrite main_body_phases. revert w H.
  apply (preserves_bind_value _ _
           (fun r => forall run, r = Some run -> DRY_RUN run = true)).
  - now apply preserves_setup_unattended.
  - intros w r w1 Hsetup run Hr.
    destruct (setup_run _ _ _ _ _ Hsetup run Hr) as (Hd & _). congruence.
  - intros [run |] Hrun; [| preserves_auto].
    apply preserves_finish_dry. now apply Hrun.
Qed.

End Invariants.

(** ** Whole runs *)

Section Runs.

Context {R : Type}.
Variable py : Builtins.
Variable sp : Spotify R.

(** What a remote call leaves untouched. *)
Lemma invoke_frame {A : Type} c (op : R -> reply A * R) (w : World R) :
  w_stdout (snd (invoke c op w)) = w_stdout w
  /\ w_stdin (snd (invoke c op w)) = w_stdin w
  /\ w_files (snd (invoke c op w)) = w_files w.
Proof.
  unfold invoke. destruct (op (w_remote w)) as [[[cls msg] | a] r']; auto.
Qed.

(** What reading a line does to the console. *)
Lemma input_frame prompt (w : World R) :
  w_files (snd (input prompt w)) = w_files w
  /\ w_stdout (snd (input prompt w)) = w_stdout w ++ [Prompt prompt]
  /\ exists used, w_stdin w = used ++ w_stdin (snd (input prompt w)).
Proof.
  unfold input. destruct (w_stdin w) as [| line rest]; cbn.
  - repeat split. now exists [].
  - repeat split. now exists [line].
Qed.

(** [main] ends in the world in which its body ends, but for what the
    handler prints. *)
Lemma main_frame fuel args (w : World R) :
  w_calls (snd (main py sp fuel (Parsed args) w)) = w_calls (snd (main_body py sp fuel args w))
  /\ w_stdin (snd (main py sp fuel (Parsed args) w)) = w_stdin (snd (main_body py sp fuel args w))
  /\ w_files (snd (main py sp fuel (Parsed args) w)) = w_files (snd (main_body py sp fuel args w))
  /\ exists out,
       w_stdout (snd (main py sp fuel (Parsed args) w))
       = w_stdout (snd (main_body py sp fuel args w)) ++ out.
Proof.
  rewrite main_parsed; unfold try_except.
  destruct (main_body py sp fuel args w) as [[u | e |] w1]; cbn [snd].
  - repeat split. exists []. now rewrite app_nil_r.
  - destruct (is_Exception e); cbn [snd].
    + rewrite bind_print. cbn. repeat split. eauto.
    + repeat split. exists []. now rewrite app_nil_r.
  - repeat split. exists []. now rewrite app_nil_r.
Qed.

(** X8. A dry run started without the menu is unattended: it never asks
    the user anything and never reads a line from the console. *)
Theorem dry_run_is_unattended fuel args (w : World R) :
  dry_run args = true ->
  select_from_list args = false ->
  w_stdin (snd (main py sp fuel (Parsed args) w)) = w_stdin w
  /\ forall text,
       In (Prompt text) (w_stdout (snd (main py sp fuel (Parsed args) w))) ->
       In (Prompt text) (w_stdout w).
Proof.
  intros Hdry Hmenu.
  apply (preserves_main_unattended py sp
           (fun w' => w_stdin w' = w_stdin w
                      /\ forall text, In (Prompt text) (w_stdout w') ->
                                      In (Prompt text) (w_stdout w))).
  - intros line w0 [H1 H2]. cbn. split; [exact H1 |].
    intros text Hin. apply in_app_or in Hin.
    destruct Hin as [Hin | [Hin | []]]; [now apply H2 | discriminate].
  - intros filename wb w0 H. unfold save.
    destruct (save_error py filename wb) as [[cls msg] |]; exact H.
  - intros A c op _ w0 [H1 H2].
    destruct (invoke_frame c op w0) as (Hout & Hin & _).
    rewrite Hout, Hin. split; assumption.
  - exact Hdry.
  - exact Hmenu.
  - split; [reflexivity | auto].
Qed.

(** What the body leaves of the files of [w]: nothing more, or the one
    report of a completed audit. *)
Lemma main_body_files fuel args (w : World R) :
  w_files (snd (main_body py sp fuel args w)) = w_files w
  \/ exists run tracks_to_audit_log summary audit_sheet,
       tracks_to_audit_log <> []
       /\ ws_summary py run tracks_to_audit_log = inr summary
       /\ ws_audit py tracks_to_audit_log = inr audit_sheet
       /\ w_files (snd (main_body py sp fuel args w))
          = w_files w ++ [(report_filename py, [summary; audit_sheet])].
Proof.
  remember (snd (main_body py sp fuel args w)) as wf eqn:Ewf.
  rewrite main_body_phases in Ewf.
  assert (Hsetup : w_files (snd (setup py sp fuel args w)) = w_files w).
  { apply (preserves_setup py sp (fun w' => w_files w' = w_files w)).
    - intros line w0 H. exact H.
    - intros prompt w0 H. destruct (input_frame prompt w0) as (Hf & _). congruence.
    - intros A c op _ w0 H. destruct (invoke_frame c op w0) as (_ & _ & Hf). congruence.
    - reflexivity. }
  unfold bind at 1 in Ewf.
  destruct (setup py sp fuel args w) as [[[run |] | e |] w1]; cbn [snd] in *;
    try (left; subst wf; exact Hsetup).
  unfold finish in Ewf.
  assert (Haudit : w_files (snd (audit py sp fuel run w1)) = w_files w).
  { apply (preserves_audit py sp (fun w' => w_files w' = w_files w)).
    - intros line w0 H. exact H.
    - intros A c op _ w0 H. destruct (invoke_frame c op w0) as (_ & _ & Hf). congruence.
    - exact Hsetup. }
  unfold bind at 1 in Ewf.
  destruct (audit py sp fuel run w1) as [[log | e |] w2]; cbn [snd] in *;
    try (left; subst wf; exact Haudit).
  destruct (report_spec py run log w2) as (_ & _ & _ & _ & Hreport).
  assert (Hlive : forall w3,
             w_files (snd (live_run_actions py sp run log w3)) = w_files w3).
  { intros w3.
    apply (preserves_live_run_actions py sp (fun w' => w_files w' = w_files w3)).
    - intros line w0 H. exact H.
    - intros A c op _ w0 H. destruct (invoke_frame c op w0) as (_ & _ & Hf). congruence.
    - reflexivity. }
  assert (Hwf : w_files wf = w_files (snd (report py run log w2))).
  { subst wf. unfold bind at 1.
    destruct (report py run log w2) as [[[] | e |] w3]; cbn [snd];
      [apply Hlive | reflexivity | reflexivity]. }
  rewrite Hwf.
  destruct log as [| t log'].
  { left. destruct Hreport as [_ ->]. exact Haudit. }
  destruct (workbook py run (t :: log')) as [[cls msg] | wb] eqn:Ewb.
  { left. destruct Hreport as [_ ->]. exact Haudit. }
  destruct (save_error py (report_filename py) wb) as [[cls msg] |].
  { left. destruct Hreport as [_ ->]. exact Haudit. }
  right. unfold workbook in Ewb.
  destruct (ws_summary py run (t :: log')) as [f | summary] eqn:Esummary;
    cbn [and_then] in Ewb; [discriminate |].
  destruct (ws_audit py (t :: log')) as [f | audit_sheet] eqn:Eaudit;
    cbn [and_then] in Ewb; [discriminate |].
  injection Ewb as <-.
  exists run, (t :: log'), summary, audit_sheet.
  split; [discriminate |]. split; [exact Esummary |]. split; [exact Eaudit |].
  destruct Hreport as [_ ->]. now rewrite Haudit.
Qed.

(** X9. A run saves at most one workbook, whatever its command line. It
    leaves the files as they were, or adds exactly one: the workbook of a
    non-empty list of audit records, with its two sheets as they were
    built, under the name [spotify_song_audit_<timestamp>.xlsx]. In
    particular a run that stops before its audit completes, or whose
    workbook cannot be built, writes nothing. *)
Theorem at_most_one_report fuel command_line (w : World R) :
  w_files (snd (main py sp fuel command_line w)) = w_files w
  \/ exists run tracks_to_audit_log summary audit_sheet,
       tracks_to_audit_log <> []
       /\ ws_summary py run tracks_to_audit_log = inr summary
       /\ ws_audit py tracks_to_audit_log = inr audit_sheet
       /\ w_files (snd (main py sp fuel command_line w))
          = w_files w
            ++ [(("spotify_song_audit_" ++ strftime_now py "%Y%m%d-%H%M" ++ ".xlsx")%string,
                 [summary; audit_sheet])].
Proof.
  destruct command_line as [help | help | usage message | args];
    [now left | now left | now left |].
  destruct (main_frame fuel args w) as (_ & _ & Hfiles & _). rewrite Hfiles.
  apply main_body_files.
Qed.

End Runs.

(** ** No change without consent *)

Section Consent.

Context {R : Type}.
Variable py : Builtins.
Variable sp : Spotify R.

Lemma read_only_setup fuel args : read_only (setup py sp fuel args).
Proof.
  unfold setup.
  apply read_only_bind; [read_only_auto | intros _].
  apply read_only_bind; [apply read_only_authenticate | intros user].
  apply read_only_bind; [apply read_only_check_market | intros _].
  apply read_only_bind; [apply read_only_determine_source | intros source].
  apply read_only_bind; [apply read_only_announce_mode | intros continue].
  read_only_auto.
Qed.

Lemma read_only_finish_dry fuel run :
  DRY_RUN run = true -> read_only (finish py sp fuel run).
Proof.
  intros Hdry. unfold finish.
  apply read_only_bind; [apply read_only_audit | intros log].
  apply read_only_bind; [apply read_only_report | intros _].
  now apply read_only_live_run_actions.
Qed.

(** A live run goes past step 4 only on the answer [y], in either case,
    to the question just asked. *)
Lemma announce_mode_confirmed run (w w' : World R) :
  announce_mode py run w = (Ok true, w') ->
  DRY_RUN run = false ->
  exists answer,
    w_stdin w = answer :: w_stdin w'
    /\ lower py answer = "y"
    /\ In (Prompt "Are you sure you want to continue? (y/n): ") (w_stdout w').
Proof.
  unfold announce_mode. intros H Hlive. rewrite Hlive in H.
  rewrite !bind_print in H.
  assert (Hgo : forall (w0 : World R),
             bind (input "Are you sure you want to continue? (y/n): ")
                  (fun confirm =>
                     if String.eqb (lower py confirm) "y"
                     then ret true
                     else bind (print "Aborting.") (fun _ => ret false)) w0
             = (Ok true, w') ->
             exists answer,
               w_stdin w0 = answer :: w_stdin w'
               /\ lower py answer = "y"
               /\ w_stdout w'
                  = w_stdout w0 ++ [Prompt "Are you sure you want to continue? (y/n): "]).
  { intros w0 H0. unfold bind at 1 in H0. unfold input in H0.
    destruct (w_stdin w0) as [| answer rest] eqn:Ein; [discriminate |].
    destruct (String.eqb (lower py answer) "y") eqn:Ey.
    - injection H0 as <-. cbn. exists answer.
      apply String.eqb_eq in Ey. auto.
    - rewrite bind_print in H0. discriminate. }
  unfold bind at 1 in H.
  destruct (test_artist (TEST_MODE_ARTIST run)) as [a |].
  - cbn [print] in H. apply Hgo in H. destruct H as (answer & H1 & H2 & H3).
    exists answer. split; [exact H1 |]. split; [exact H2 |].
    rewrite H3. apply in_or_app. right. now left.
  - cbn [ret] in H. apply Hgo in H. destruct H as (answer & H1 & H2 & H3).
    exists answer. split; [exact H1 |]. split; [exact H2 |].
    rewrite H3. apply in_or_app. right. now left.
Qed.

(** A live run that [setup] lets through was confirmed: the last line
    read from the console was the answer [y] to the confirmation. *)
Lemma setup_confirmed fuel args (w w1 : World R) run :
  setup py sp fuel args w = (Ok (Some run), w1) ->
  dry_run args = false ->
  (exists before answer,
     w_stdin w = before ++ answer :: w_stdin w1 /\ lower py answer = "y")
  /\ In (Prompt "Are you sure you want to continue? (y/n): ") (w_stdout w1).
Proof.
  unfold setup. intros H Hlive.
  set (I := fun w' : World R => exists used, w_stdin w = used ++ w_stdin w').
  assert (I_print : forall line (w0 : World R), I w0 -> I (snd (print line w0)))
    by (intros line w0 H0; exact H0).
  assert (I_input : forall prompt (w0 : World R), I w0 -> I (snd (input prompt w0))).
  { intros prompt w0 (used & H0).
    destruct (input_frame prompt w0) as (_ & _ & used' & H1).
    exists (used ++ used'). rewrite H0, H1 at 1. now rewrite app_assoc. }
  assert (I_read : forall (A : Type) c (op : R -> reply A * R),
             mutating c = false -> forall w0, I w0 -> I (snd (invoke c op w0))).
  { intros A c op _ w0 (used & H0). exists used.
    destruct (invoke_frame c op w0) as (_ & Hin & _). now rewrite Hin. }
  assert (H0 : I w) by (now exists []).
  apply bind_inv_ok in H. destruct H as (u1 & wa & Ha & H).
  pose proof (preserves_validation py I I_print args w H0) as Hwa.
  rewrite Ha in Hwa. cbn [snd] in Hwa.
  apply bind_inv_ok in H. destruct H as (user & wb & Hb & H).
  pose proof (preserves_authenticate sp I I_print I_read wa Hwa) as Hwb.
  rewrite Hb in Hwb. cbn [snd] in Hwb.
  apply bind_inv_ok in H. destruct H as (u2 & wc & Hc & H).
  pose proof (preserves_check_market sp I I_print I_read args
                (upper py (market args)) wb Hwb) as Hwc.
  rewrite Hc in Hwc. cbn [snd] in Hwc.
  apply bind_inv_ok in H. destruct H as (source & wd & Hd & H).
  pose proof (preserves_determine_source py sp I I_print I_input I_read
                fuel args user wc Hwc) as Hwd.
  rewrite Hd in Hwd. cbn [snd] in Hwd.
  apply bind_inv_ok in H. destruct H as (continue & we & He & H).
  destruct continue; [| discriminate]. injection H as _ <-.
  apply announce_mode_confirmed in He; [| exact Hlive].
  destruct He as (answer & Hin & Hy & Hout).
  destruct Hwd as (used & Hused). split.
  - exists used, answer. rewrite Hused, Hin. auto.
  - exact Hout.
Qed.

(** X10. Nothing is changed without consent. If a run issues a call that
    changes the library, then it is a live run, it has asked
    [Are you sure you want to continue? (y/n): ], and the last line it has
    read from the console, after which it reads no more, is the answer
    [y], in either case. *)
Theorem changes_require_confirmation fuel args (w : World R) tr ev :
  w_calls (snd (main py sp fuel (Parsed args) w)) = w_calls w ++ tr ->
  In ev tr ->
  mutating (fst ev) = true ->
  dry_run args = false
  /\ In (Prompt "Are you sure you want to continue? (y/n): ")
        (w_stdout (snd (main py sp fuel (Parsed args) w)))
  /\ exists before answer,
       w_stdin w = before ++ answer :: w_stdin (snd (main py sp fuel (Parsed args) w))
       /\ lower py answer = "y".
Proof.
  intros Htrace Hin Hmut.
  destruct (main_frame py sp fuel args w) as (Hcalls & Hstdin & _ & out & Hstdout).
  rewrite Hcalls in Htrace. rewrite Hstdin, Hstdout.
  clear Hcalls Hstdin Hstdout.
  remember (snd (main_body py sp fuel args w)) as wf eqn:Ewf.
  rewrite main_body_phases in Ewf.
  destruct (read_only_setup fuel args w) as (tr1 & Htr1 & Hquiet1).
  assert (Hcontra : forall l, Forall quiet l -> w_calls wf = w_calls w ++ l -> False).
  { intros l Hl Heq. rewrite Htrace in Heq. apply app_inv_head in Heq. subst l.
    rewrite Forall_forall in Hl. specialize (Hl ev Hin).
    unfold quiet in Hl. congruence. }
  unfold bind at 1 in Ewf.
  destruct (setup py sp fuel args w) as [[[run |] | e |] w1] eqn:Hsetup;
    cbn [snd] in *;
    try (exfalso; subst wf; exact (Hcontra tr1 Hquiet1 Htr1)).
  destruct (setup_run py sp _ _ _ _ _ Hsetup run eq_refl) as (Hdry & _).
  destruct (dry_run args) eqn:Eargs.
  - exfalso.
    destruct (read_only_finish_dry fuel run Hdry w1) as (tr2 & Htr2 & Hquiet2).
    apply (Hcontra (tr1 ++ tr2)).
    + apply Forall_app. split; assumption.
    + subst wf. eapply issues_trans; eassumption.
  - split; [reflexivity |].
    destruct (setup_confirmed _ _ _ _ _ Hsetup Eargs)
      as ((before & answer & Hread & Hy) & Hprompt).
    assert (Hfinish :
             w_stdin wf = w_stdin w1
             /\ In (Prompt "Are you sure you want to continue? (y/n): ") (w_stdout wf)).
    { subst wf.
      apply (preserves_finish py sp
               (fun w' => w_stdin w' = w_stdin w1
                          /\ In (Prompt "Are you sure you want to continue? (y/n): ")
                                (w_stdout w'))).
      - intros line w0 [H1 H2]. cbn. split; [exact H1 |].
        apply in_or_app. now left.
      - intros filename wb w0 H. unfold save.
        destruct (save_error py filename wb) as [[cls msg] |]; exact H.
      - intros A c op _ w0 [H1 H2].
        destruct (invoke_frame c op w0) as (Hout & Hinp & _).
        rewrite Hout, Hinp. split; assumption.
      - intros A c op _ w0 [H1 H2].
        destruct (invoke_frame c op w0) as (Hout & Hinp & _).
        rewrite Hout, Hinp. split; assumption.
      - split; [reflexivity | exact Hprompt]. }
    destruct Hfinish as [Hs Hp]. split.
    + apply in_or_app. now left.
    + exists before, answer. rewrite Hs. split; assumption.
Qed.

End Consent.

(** ** How a run can end *)

Section Outcomes.

Context {R : Type}.
Variable py : Builtins.
Variable sp : Spotify R.

(** A set of exceptions, and what it holds: each lemma below depends only
    on what the function it is about can raise. *)
Variable E : exn -> Prop.
Hypothesis E_exception : forall cls msg, E (PyException cls msg).
Hypothesis E_exit1 : E (SystemExit 1).
Hypothesis E_exit0 : E (SystemExit 0).

Lemma raises_only_ret {A : Type} (a : A) : raises_only E (@ret R A a).
Proof. intros w e H. discriminate. Qed.

Lemma raises_only_out_of_fuel {A : Type} : raises_only E (@out_of_fuel R A).
Proof. intros w e H. discriminate. Qed.

Lemma raises_only_print line : raises_only E (@print R line).
Proof. intros w e H. discriminate. Qed.

Lemma raises_only_save filename wb : raises_only E (@save R py filename wb).
Proof.
  intros w e H. unfold save in H.
  destruct (save_error py filename wb) as [[cls msg] |];
    [injection H as <-; apply E_exception | discriminate].
Qed.

Lemma raises_only_lift {A : Type} (r : reply A) : raises_only E (@lift R A r).
Proof.
  intros w e H. destruct r as [[cls msg] | a];
    [injection H as <-; apply E_exception | discriminate].
Qed.

Lemma raises_only_raise {A : Type} e : E e -> raises_only E (@raise R A e).
Proof. intros He w e' H. injection H as <-. exact He. Qed.

Lemma raises_only_exit1 {A : Type} : raises_only E (@sys_exit R A 1).
Proof. now apply raises_only_raise. Qed.

Lemma raises_only_exit0 {A : Type} : raises_only E (@sys_exit R A 0).
Proof. now apply raises_only_raise. Qed.

Lemma raises_only_input prompt : raises_only E (@input R prompt).
Proof.
  intros w e H. unfold input in H.
  destruct (w_stdin w); [injection H as <-; apply E_exception | discriminate].
Qed.

Lemma raises_only_invoke {A : Type} c (op : R -> reply A * R) :
  raises_only E (invoke c op).
Proof.
  intros w e H. unfold invoke in H.
  destruct (op (w_remote w)) as [[[cls msg] | a] r'];
    [injection H as <-; apply E_exception | discriminate].
Qed.

Lemma raises_only_bind {A B : Type} (m : M R A) (k : A -> M R B) :
  raises_only E m -> (forall a, raises_only E (k a)) -> raises_only E (bind m k).
Proof.
  intros Hm Hk w e H. unfold bind in H.
  destruct (m w) as [[a | e' |] w1] eqn:Em; cbn [fst] in H.
  - eapply Hk. exact H.
  - injection H as <-. eapply Hm. rewrite Em. reflexivity.
  - discriminate.
Qed.

(** A [try] whose body and handlers raise only in [E] raises only in
    [E]. *)
Lemma raises_only_try_except {A : Type} (m : M R A) handles h :
  raises_only E m -> (forall e, raises_only E (h e)) ->
  raises_only E (try_except m handles h).
Proof.
  intros Hm Hh w e H. unfold try_except in H.
  destruct (m w) as [[a | e' |] w1] eqn:Em; cbn [fst] in H.
  - discriminate.
  - destruct (handles e').
    + eapply Hh. exact H.
    + injection H as <-. eapply Hm. rewrite Em. reflexivity.
  - discriminate.
Qed.

(** Splits a composed statement into its parts. *)
Ltac raises_only_step :=
  match goal with
  | |- raises_only _ (bind _ _) => apply raises_only_bind; [| intros ?]
  | |- raises_only _ (try_except _ _ _) => apply raises_only_try_except; [| intros ?]
  | |- raises_only _ (ret _) => apply raises_only_ret
  | |- raises_only _ (sys_exit 1) => apply raises_only_exit1
  | |- raises_only _ (sys_exit 0) => apply raises_only_exit0
  | |- raises_only _ (raise (PyException _ _)) =>
      apply raises_only_raise; apply E_exception
  | |- raises_only _ out_of_fuel => apply raises_only_out_of_fuel
  | |- raises_only _ (print _) => apply raises_only_print
  | |- raises_only _ (input _) => apply raises_only_input
  | |- raises_only _ (save _ _ _) => apply raises_only_save
  | |- raises_only _ (lift _) => apply raises_only_lift
  | |- raises_only _ (invoke _ _) => apply raises_only_invoke
  | |- raises_only _ (if ?b then _ else _) => destruct b
  | |- raises_only _ (match ?x with _ => _ end) => destruct x
  end.

Ltac raises_only_auto := repeat raises_only_step.

Lemma raises_only_validation args :
  raises_only E
    (match arg_artist args with
     | Some a =>
         if truthy (strip py a)
         then ret tt
         else print "Error: --artist parameter cannot be an empty string." ;;
              @sys_exit R unit 1
     | None => ret tt
     end).
Proof. raises_only_auto. Qed.

Lemma raises_only_authenticate : raises_only E (authenticate sp).
Proof. unfold authenticate. raises_only_auto. Qed.

Lemma raises_only_check_market args USER_MARKET :
  raises_only E (check_market sp args USER_MARKET).
Proof. unfold check_market. raises_only_auto. Qed.

Lemma raises_only_fetch_playlists fuel user offset selection_options :
  raises_only E (fetch_playlists sp fuel user offset selection_options).
Proof.
  revert offset selection_options.
  induction fuel as [| fuel IH]; intros offset selection_options; simpl.
  - raises_only_auto.
  - apply raises_only_bind; [raises_only_auto |].
    intros [| playlist rest]; [raises_only_auto | apply IH].
Qed.

Lemma raises_only_print_menu i selection_options :
  raises_only E (@print_menu R i selection_options).
Proof.
  revert i. induction selection_options as [| option rest IH]; intros i; simpl.
  - raises_only_auto.
  - apply raises_only_bind; [raises_only_auto | intros _; apply IH].
Qed.

Lemma raises_only_choose_source fuel selection_options :
  raises_only E (@choose_source R py fuel selection_options).
Proof.
  induction fuel as [| fuel IH]; simpl.
  - raises_only_auto.
  - apply raises_only_bind; [raises_only_auto |]. intros choice_str.
    destruct (int_of_str py choice_str) as [choice_index |].
    + match goal with |- raises_only _ (if ?b then _ else _) => destruct b end.
      * raises_only_auto.
      * apply raises_only_bind; [raises_only_auto | intros _; apply IH].
    + apply raises_only_bind; [raises_only_auto | intros _; apply IH].
Qed.

(** Without the menu, step 3 never exits with status 0. *)
Lemma raises_only_determine_source_by_id fuel args user :
  select_from_list args = false ->
  raises_only E (determine_source py sp fuel args user).
Proof.
  intros Hmenu. unfold determine_source. rewrite Hmenu. raises_only_auto.
Qed.

Lemma raises_only_determine_source fuel args user :
  raises_only E (determine_source py sp fuel args user).
Proof.
  destruct (select_from_list args) eqn:Hmenu;
    [| now apply raises_only_determine_source_by_id].
  unfold determine_source. rewrite Hmenu.
  apply raises_only_bind; [raises_only_auto | intros _].
  apply raises_only_bind; [apply raises_only_fetch_playlists | intros options].
  apply raises_only_bind; [raises_only_auto | intros _].
  apply raises_only_bind; [apply raises_only_print_menu | intros _].
  apply raises_only_choose_source.
Qed.

Lemma raises_only_announce_mode run : raises_only E (@announce_mode R py run).
Proof. unfold announce_mode. raises_only_auto. Qed.

Lemma raises_only_fetch_page run offset : raises_only E (fetch_page sp run offset).
Proof. unfold fetch_page. raises_only_auto. Qed.

Lemma raises_only_audit_track original_track_map resolved_track :
  raises_only E (audit_track py sp original_track_map resolved_track).
Proof. unfold audit_track. raises_only_auto. Qed.

Lemma raises_only_audit_tracks original_track_map full_tracks_details log :
  raises_only E (audit_tracks py sp original_track_map full_tracks_details log).
Proof.
  revert log.
  induction full_tracks_details as [| [resolved_track |] rest IH]; intros log; simpl.
  - raises_only_auto.
  - apply raises_only_bind; [apply raises_only_audit_track |].
    intros [log_entry |]; apply IH.
  - apply IH.
Qed.

Lemma raises_only_audit_page run offset log :
  raises_only E (audit_page py sp run offset log).
Proof.
  unfold audit_page.
  apply raises_only_bind; [apply raises_only_fetch_page |]. intros [| item results].
  - raises_only_auto.
  - destruct (dict_keys (original_track_map_of (item :: results))).
    + raises_only_auto.
    + apply raises_only_bind; [raises_only_auto | intros full_tracks_details].
      apply raises_only_bind; [apply raises_only_audit_tracks | intros log'].
      raises_only_auto.
Qed.

Lemma raises_only_audit_loop fuel run offset log :
  raises_only E (audit_loop py sp fuel run offset log).
Proof.
  revert offset log. induction fuel as [| fuel IH]; intros offset log; simpl.
  - raises_only_auto.
  - apply raises_only_bind; [apply raises_only_audit_page |].
    intros [| offset' log']; [raises_only_auto | apply IH].
Qed.

Lemma raises_only_audit fuel run : raises_only E (audit py sp fuel run).
Proof.
  unfold audit. apply raises_only_bind; [raises_only_auto | intros _].
  apply raises_only_audit_loop.
Qed.

Lemma raises_only_report run log : raises_only E (@report R py run log).
Proof. unfold report. raises_only_auto. Qed.

(** Step 7 raises nothing at all. *)
Lemma raises_only_live_run_actions run log :
  raises_only E (live_run_actions py sp run log).
Proof.
  intros w e H. exfalso.
  destruct (DRY_RUN run) eqn:Hdry.
  - unfold live_run_actions in H. rewrite Hdry in H. cbn [negb] in H.
    rewrite bind_print in H.
    destruct (Nat.ltb 0 (count_replacements log)); discriminate.
  - destruct (live_run_actions_spec py sp run log w Hdry) as (w' & tr & out & Hrun & _).
    rewrite Hrun in H. discriminate.
Qed.

Lemma raises_only_finish fuel run : raises_only E (finish py sp fuel run).
Proof.
  unfold finish.
  apply raises_only_bind; [apply raises_only_audit | intros log].
  apply raises_only_bind; [apply raises_only_report | intros _].
  apply raises_only_live_run_actions.
Qed.

Lemma raises_only_setup_by_id fuel args :
  select_from_list args = false -> raises_only E (setup py sp fuel args).
Proof.
  intros Hmenu. unfold setup.
  apply raises_only_bind; [apply raises_only_validation | intros _].
  apply raises_only_bind; [apply raises_only_authenticate | intros user].
  apply raises_only_bind; [apply raises_only_check_market | intros _].
  apply raises_only_bind;
    [now apply raises_only_determine_source_by_id | intros source].
  apply raises_only_bind; [apply raises_only_announce_mode | intros continue].
  raises_only_auto.
Qed.

Lemma raises_only_setup fuel args : raises_only E (setup py sp fuel args).
Proof.
  unfold setup.
  apply raises_only_bind; [apply raises_only_validation | intros _].
  apply raises_only_bind; [apply raises_only_authenticate | intros user].
  apply raises_only_bind; [apply raises_only_check_market | intros _].
  apply raises_only_bind; [apply raises_only_determine_source | intros source].
  apply raises_only_bind; [apply raises_only_announce_mode | intros continue].
  raises_only_auto.
Qed.

Lemma raises_only_main_body_by_id fuel args :
  select_from_list args = false -> raises_only E (main_body py sp fuel args).
Proof.
  intros Hmenu w e H. rewrite main_body_phases in H. revert w e H.
  apply raises_only_bind; [now apply raises_only_setup_by_id |].
  intros [run |]; [apply raises_only_finish | apply raises_only_ret].
Qed.

Lemma raises_only_main_body fuel args : raises_only E (main_body py sp fuel args).
Proof.
  intros w e H. rewrite main_body_phases in H. revert w e H.
  apply raises_only_bind; [apply raises_only_setup |].
  intros [run |]; [apply raises_only_finish | apply raises_only_ret].
Qed.

End Outcomes.

Section ExitStatus.

Context {R : Type}.
Variable py : Builtins.
Variable sp : Spotify R.

(** X11. [main] never ends with an exception of its own: whatever is
    raised inside is turned into the exit status 1. When it does not
    return, it exits: with status 1 when there is no argument, with
    status 0 after the help, with status 2 when the parser refuses the
    command line, and, once the arguments are parsed, with status 1, or
    with status 0, which then happens only in a run started with the
    menu. *)
Theorem main_exit_status fuel command_line (w : World R) e :
  fst (main py sp fuel command_line w) = Raise e ->
  match command_line with
  | NoArguments _ => e = SystemExit 1
  | HelpRequested _ => e = SystemExit 0
  | Refused _ _ => e = SystemExit 2
  | Parsed args =>
      e = SystemExit 1 \/ (e = SystemExit 0 /\ select_from_list args = true)
  end.
Proof.
  destruct command_line as [help | help | usage message | args];
    [intros [= <-]; reflexivity | intros [= <-]; reflexivity
     | intros [= <-]; reflexivity |].
  rewrite main_parsed; unfold try_except. intros H.
  destruct (main_body py sp fuel args w) as [[u | e' |] w1] eqn:Ebody;
    cbn [fst] in H; try discriminate.
  destruct (is_Exception e') eqn:Eexc.
  - rewrite bind_print in H. injection H as <-. now left.
  - injection H as <-.
    destruct (select_from_list args) eqn:Hmenu.
    + assert (He : is_Exception e' = true \/ e' = SystemExit 1 \/ e' = SystemExit 0).
      { apply (raises_only_main_body py sp
                 (fun e => is_Exception e = true \/ e = SystemExit 1 \/ e = SystemExit 0))
          with (fuel := fuel) (args := args) (w := w); auto.
        now rewrite Ebody. }
      destruct He as [He | [He | He]]; [congruence | now left | now right].
    + assert (He : is_Exception e' = true \/ e' = SystemExit 1).
      { apply (raises_only_main_body_by_id py sp
                 (fun e => is_Exception e = true \/ e = SystemExit 1))
          with (fuel := fuel) (args := args) (w := w); auto.
        now rewrite Ebody. }
      destruct He as [He | He]; [congruence | now left].
Qed.

End ExitStatus.

(** ** The source *)

Section Source.

Context {R : Type}.
Variable py : Builtins.
Variable sp : Spotify R.

Lemma invoke_ok {A : Type} c (op : R -> reply A * R) (w w' : World R) a :
  invoke c op w = (Ok a, w') -> op (w_remote w) = (inr a, w_remote w').
Proof.
  unfold invoke. destruct (op (w_remote w)) as [[[cls msg] | a'] r'];
    [discriminate |]. now intros [= <- <-].
Qed.

Lemma input_raises prompt (w w' : World R) e :
  input prompt w = (Raise e, w') -> e = PyException EOFError "EOF when reading a line".
Proof.
  unfold input. destruct (w_stdin w); [now intros [= <- _] | discriminate].
Qed.

(** A choice that passed the test of its bounds indexes the menu. *)
Lemma choice_in_range (selection_options : list Option_) (choice_index : Z) :
  ((1 <=? choice_index)%Z
   && (choice_index <=? Z.of_nat (List.length selection_options))%Z)%bool = true ->
  exists selected_source,
    nth_error selection_options (Z.to_nat (choice_index - 1)) = Some selected_source.
Proof.
  intros H. apply andb_true_iff in H. destruct H as [H1 H2].
  apply Z.leb_le in H1. apply Z.leb_le in H2.
  destruct (nth_error selection_options (Z.to_nat (choice_index - 1))) as [o |] eqn:E;
    [eauto |].
  apply nth_error_None in E. lia.
Qed.

(** How the selection loop can end. *)
Lemma choose_source_ends fuel (selection_options : list Option_) :
  forall (w w' : World R) r,
    choose_source py fuel selection_options w = (r, w') ->
    match r with
    | Ok (name, PLAYLIST_ID) =>
        exists option,
          In option selection_options
          /\ name = opt_name option
          /\ PLAYLIST_ID = if String.eqb (opt_id option) "liked_songs"
                           then None
                           else Some (opt_id option)
    | Raise e => e = PyException EOFError "EOF when reading a line" \/ e = SystemExit 0
    | OutOfFuel => True
    end.
Proof.
  induction fuel as [| fuel IH]; intros w w' r H.
  - injection H as <- _. exact I.
  - cbn [choose_source] in H. unfold bind at 1 in H.
    destruct (input (nl ++ "Enter the number of your choice: ") w)
      as [[choice_str | e0 |] w1] eqn:Einput.
    2: { injection H as <- _. left. eapply input_raises. exact Einput. }
    2: { injection H as <- _. exact I. }
    destruct (int_of_str py choice_str) as [choice_index |].
    + destruct ((1 <=? choice_index)%Z
                && (choice_index <=? Z.of_nat (List.length selection_options))%Z)%bool
        eqn:Erange.
      * destruct (choice_in_range _ _ Erange) as (selected_source & Enth).
        rewrite Enth in H. unfold bind at 1 in H.
        match type of H with
        | context [input ?p w1] =>
            destruct (input p w1) as [[confirm_source | e0 |] w2] eqn:Econfirm
        end.
        2: { injection H as <- _. left. eapply input_raises. exact Econfirm. }
        2: { injection H as <- _. exact I. }
        destruct (String.eqb (lower py confirm_source) "y").
        -- injection H as <- _.
           exists selected_source. split; [eapply nth_error_In; exact Enth | auto].
        -- rewrite bind_print in H. injection H as <- _. now right.
      * rewrite bind_print in H. eapply IH. exact H.
    + rewrite bind_print in H. eapply IH. exact H.
Qed.

(** X12. The choice read from the menu is checked against its bounds
    before it is used: the selection loop never fails with an index error.
    It raises only at the end of the console input or, with status 0, when
    the user declines the source; and when it completes, the source it
    returns is an entry of the menu, the entry [liked_songs] standing for
    the saved tracks. *)
Theorem menu_choice_is_in_range fuel (selection_options : list Option_) (w : World R) :
  (forall e,
     fst (choose_source py fuel selection_options w) = Raise e ->
     e = PyException EOFError "EOF when reading a line" \/ e = SystemExit 0)
  /\ (forall name PLAYLIST_ID w',
        choose_source py fuel selection_options w = (Ok (name, PLAYLIST_ID), w') ->
        exists option,
          In option selection_options
          /\ name = opt_name option
          /\ PLAYLIST_ID = if String.eqb (opt_id option) "liked_songs"
                           then None
                           else Some (opt_id option)).
Proof.
  split.
  - intros e H.
    destruct (choose_source py fuel selection_options w) as [r w'] eqn:E.
    cbn [fst] in H. subst r. exact (choose_source_ends _ _ _ _ _ E).
  - intros name PLAYLIST_ID w' H. exact (choose_source_ends _ _ _ _ _ H).
Qed.

(** The menu holds, after its first entries, only playlists that the
    service lists as owned by the user. *)
Lemma fetch_playlists_options fuel user :
  forall offset selection_options (w : World R) selection_options' w',
    fetch_playlists sp fuel user offset selection_options w
    = (Ok selection_options', w') ->
    exists extra,
      selection_options' = selection_options ++ extra
      /\ Forall (fun option =>
                   exists playlist offset0 r r' playlists_page,
                     current_user_playlists sp 50 offset0 r = (inr playlists_page, r')
                     /\ In playlist playlists_page
                     /\ pl_owner_id playlist = user_id user
                     /\ option = {| opt_name := pl_name playlist;
                                    opt_id := pl_id playlist |})
                extra.
Proof.
  induction fuel as [| fuel IH]; intros offset options w options' w' H;
    [discriminate |].
  cbn [fetch_playlists] in H.
  apply bind_inv_ok in H. destruct H as (page & w1 & Hpage & H).
  apply invoke_ok in Hpage.
  destruct page as [| playlist rest].
  - injection H as <- _. exists []. split; [now rewrite app_nil_r | constructor].
  - apply IH in H. destruct H as (extra & -> & Hextra).
    exists (owned_options user (playlist :: rest) ++ extra).
    split; [now rewrite app_assoc |].
    apply Forall_app. split; [| exact Hextra].
    apply Forall_forall. intros option Hin. unfold owned_options in Hin.
    apply in_map_iff in Hin. destruct Hin as (p & <- & Hp).
    apply filter_In in Hp. destruct Hp as [Hp Howner].
    apply String.eqb_eq in Howner.
    exists p, offset, (w_remote w), (w_remote w1), (playlist :: rest). auto.
Qed.

(** X13. The source of a run is never a playlist of someone else. When
    step 3 completes with a playlist as the source, the service has
    reported that playlist as owned by the authenticated user: either in
    answer to the request for the playlist named on the command line, or
    on a page of the user's playlists, from which the menu was built. *)
Theorem source_is_owned fuel args user (w w' : World R) name PLAYLIST_ID pid :
  determine_source py sp fuel args user w = (Ok (name, PLAYLIST_ID), w') ->
  source_playlist PLAYLIST_ID = Some pid ->
  exists owned r r',
    pl_owner_id owned = user_id user
    /\ ((select_from_list args = false
         /\ playlist sp pid r = (inr owned, r')
         /\ name = ("Playlist '" ++ pl_name owned ++ "'")%string)
        \/ (select_from_list args = true
            /\ pl_id owned = pid
            /\ name = pl_name owned
            /\ exists offset playlists_page,
                 current_user_playlists sp 50 offset r = (inr playlists_page, r')
                 /\ In owned playlists_page)).
Proof.
  unfold determine_source. intros H Hpid.
  destruct (select_from_list args) eqn:Hmenu.
  - rewrite bind_print in H.
    apply bind_inv_ok in H. destruct H as (options & w1 & Hfetch & H).
    rewrite bind_print in H.
    apply bind_inv_ok in H. destruct H as (u & w2 & _ & H).
    apply fetch_playlists_options in Hfetch.
    destruct Hfetch as (extra & -> & Hextra).
    apply choose_source_ends in H.
    destruct H as (option & Hin & -> & ->).
    destruct (String.eqb (opt_id option) "liked_songs") eqn:Eliked;
      [discriminate |].
    destruct Hin as [<- | Hin]; [discriminate |].
    rewrite Forall_forall in Hextra.
    destruct (Hextra option Hin) as (p & offset0 & r & r' & page & Hpage & Hp & Howner & ->).
    cbn [opt_id opt_name] in *.
    unfold source_playlist in Hpid.
    destruct (truthy (pl_id p)); [| discriminate]. injection Hpid as <-.
    exists p, r, r'. split; [exact Howner |]. right.
    split; [reflexivity |]. split; [reflexivity |]. split; [reflexivity |]. eauto.
  - destruct (source_playlist (playlist_id args)) as [pid0 |] eqn:Eid.
    + unfold try_except in H.
      match type of H with
      | context [bind ?m ?k w] => destruct (bind m k w) as [[res | e |] w1] eqn:Ebody
      end.
      * injection H as -> ->.
        apply bind_inv_ok in Ebody. destruct Ebody as (p & w2 & Hget & Ebody).
        apply invoke_ok in Hget.
        destruct (String.eqb (pl_owner_id p) (user_id user)) eqn:Howner.
        -- injection Ebody as <- <- _. apply String.eqb_eq in Howner.
           rewrite Eid in Hpid. injection Hpid as <-.
           exists p, (w_remote w), (w_remote w2). split; [exact Howner |]. left. auto.
        -- rewrite bind_print in Ebody. discriminate.
      * destruct (is_SpotifyException e); [rewrite bind_print in H |]; discriminate.
      * discriminate.
    + injection H as _ <- _. congruence.
Qed.

End Source.

(** ** Arguments refused *)

Section Refusals.

Context {R : Type}.
Variable py : Builtins.
Variable sp : Spotify R.

(** X14. A blank artist filter is refused at once: [main] prints the
    error and exits with status 1 before it has issued any call, read
    anything or written anything, in a dry run as in a live one. *)
Theorem blank_artist_is_rejected fuel args (w : World R) a :
  arg_artist args = Some a ->
  strip py a = EmptyString ->
  main py sp fuel (Parsed args) w
  = (Raise (SystemExit 1),
     {| w_remote := w_remote w;
        w_calls := w_calls w;
        w_stdout :=
          w_stdout w ++ [Print "Error: --artist parameter cannot be an empty string."];
        w_stderr := w_stderr w;
        w_stdin := w_stdin w;
        w_files := w_files w |}).
Proof.
  intros Ha Hblank. rewrite main_parsed; unfold try_except, main_body.
  rewrite Ha, Hblank. reflexivity.
Qed.

Lemma existsb_eqb_false (x : string) (l : list string) :
  ~ In x l -> existsb (String.eqb x) l = false.
Proof.
  intros H. destruct (existsb (String.eqb x) l) eqn:E; [| reflexivity].
  apply existsb_exists in E. destruct E as (y & Hin & Heq).
  apply String.eqb_eq in Heq. subst y. contradiction.
Qed.

(** X15. A market that the service does not list is refused after the
    two calls that authenticate the user and fetch the markets: [main]
    exits with status 1, the error names the market as it was typed, and
    nothing else is called, read or written. The market is compared in
    upper case. *)
Theorem unknown_market_is_rejected fuel args (w : World R) user r1 markets r2 :
  (forall a, arg_artist args = Some a -> strip py a <> EmptyString) ->
  current_user sp (w_remote w) = (inr user, r1) ->
  available_markets sp r1 = (inr markets, r2) ->
  ~ In (upper py (market args)) markets ->
  main py sp fuel (Parsed args) w
  = (Raise (SystemExit 1),
     {| w_remote := r2;
        w_calls := w_calls w ++ [(CurrentUser, Returned); (AvailableMarkets, Returned)];
        w_stdout :=
          w_stdout w
          ++ [Print ("Authenticated as " ++ display_name user
                     ++ " (" ++ user_id user ++ ")")%string;
              Print (nl ++ "Error: '" ++ market args
                     ++ "' is not a valid Spotify market code.")%string];
        w_stderr := w_stderr w;
        w_stdin := w_stdin w;
        w_files := w_files w |}).
Proof.
  intros Hartist Huser Hmarkets Hnotin.
  rewrite main_parsed; unfold try_except, main_body.
  assert (Hvalid :
            match arg_artist args with
            | Some a =>
                if truthy (strip py a)
                then ret tt
                else print "Error: --artist parameter cannot be an empty string." ;;
                     @sys_exit R unit 1
            | None => ret tt
            end w = (Ok tt, w)).
  { destruct (arg_artist args) as [a |]; [| reflexivity].
    specialize (Hartist a eq_refl).
    destruct (strip py a); [contradiction | reflexivity]. }
  rewrite (bind_ok _ _ _ _ _ Hvalid).
  assert (Hauth : authenticate sp w
                  = (Ok user,
                     {| w_remote := r1;
                        w_calls := w_calls w ++ [(CurrentUser, Returned)];
                        w_stdout :=
                          w_stdout w
                          ++ [Print ("Authenticated as " ++ display_name user
                                     ++ " (" ++ user_id user ++ ")")%string];
                        w_stderr := w_stderr w;
                        w_stdin := w_stdin w;
                        w_files := w_files w |})).
  { unfold authenticate, bind, invoke. rewrite Huser. reflexivity. }
  rewrite (bind_ok _ _ _ _ _ Hauth).
  unfold check_market. unfold bind at 1. unfold bind at 1. unfold invoke.
  cbn [w_remote]. rewrite Hmarkets.
  rewrite (existsb_eqb_false _ _ Hnotin).
  rewrite bind_print. cbn. rewrite <- !app_assoc. reflexivity.
Qed.

End Refusals.

(** ** Termination of the audit *)

Section Termination.

Context {R : Type}.
Variable py : Builtins.
Variable sp : Spotify R.

(** X16. The audit terminates on a source of bounded size. If no page
    fetched at an offset of [size] or more holds an item, then from any
    offset the loop ends, by completing or by raising, within
    [size - offset + 1] iterations: that much fuel is never exhausted. *)
Theorem audit_terminates run size :
  (forall offset (w w1 : World R) results,
     size <= offset ->
     fetch_page sp run offset w = (Ok results, w1) ->
     results = []) ->
  forall fuel offset log (w : World R),
    size - offset < fuel ->
    fst (audit_loop py sp fuel run offset log w) <> OutOfFuel.
Proof.
  intros Hbound. induction fuel as [| fuel IH]; intros offset log w Hfuel; [lia |].
  cbn [audit_loop]. unfold bind.
  pose proof (fuel_free_audit_page py sp run offset log w) as Hfree.
  destruct (audit_page py sp run offset log w) as [[control | e |] w1] eqn:Epage;
    cbn [fst] in *; [| discriminate | contradiction].
  destruct control as [| offset' log']; [discriminate |].
  apply audit_page_ok in Epage.
  destruct Epage as (results & w2 & Hfetch & [(_ & Hc & _) | (Hne & log1 & Hc)]);
    [discriminate |].
  injection Hc as -> _.
  assert (offset < size).
  { destruct (Nat.lt_ge_cases offset size) as [Hlt | Hge]; [exact Hlt |].
    exfalso. apply Hne. eapply Hbound; eassumption. }
  assert (0 < List.length results) by (destruct results; [congruence | cbn; lia]).
  apply IH. lia.
Qed.

End Termination.

(** ** The count of an artist test *)

Section Count.

Context {R : Type}.
Variable py : Builtins.
Variable sp : Spotify R.

Lemma is_remove_remove_call run t : is_remove (remove_call run t) = true.
Proof. unfold remove_call. now destruct (source_playlist (PLAYLIST_ID run)). Qed.

Lemma replaced_add run t outcome : replaced (add_call run t, outcome) = false.
Proof. unfold replaced. cbn [fst]. now rewrite is_remove_add_call. Qed.

Lemma replaced_remove_failed run t cls msg :
  replaced (remove_call run t, Failed cls msg) = false.
Proof. unfold replaced. cbn [snd]. apply andb_false_r. Qed.

Lemma replaced_remove_returned run t : replaced (remove_call run t, Returned) = true.
Proof. unfold replaced. cbn [fst snd]. now rewrite is_remove_remove_call. Qed.

(** The loop counts the records whose add and removal both returned. *)
Lemma replacement_loop_count run total ts :
  forall i processed_count (w w' : World R) r,
    replacement_loop py sp run total i processed_count ts w = (r, w') ->
    exists tr,
      issues w w' tr
      /\ r = Ok (processed_count + List.length (filter replaced tr)).
Proof.
  induction ts as [| t ts IH]; intros i processed_count w w' r H;
    cbn [replacement_loop] in H.
  - injection H as <- <-. exists []. split; [apply issues_nil | cbn; f_equal; lia].
  - destruct (filtered_out py run t); [eapply IH; exact H |].
    pose proof (replace_track_cases sp run i total t w) as Hcases.
    unfold bind at 1 in H. unfold try_except in H. unfold bind at 1 in H.
    destruct (replace_track sp run i total t w) as [res w1].
    cbn [fst snd] in Hcases. destruct Hcases as [_ Hcases].
    destruct Hcases as [(cls & msg & -> & Htr1)
                       | [(cls & msg & -> & Htr1) | (-> & Htr1)]].
    + cbn [is_Exception] in H. rewrite bind_print in H. cbv [ret] in H.
      apply IH in H. destruct H as (tr & Htr & ->).
      exists ([(add_call run t, Failed cls msg)] ++ tr). split.
      * eapply issues_trans; [exact Htr1 | exact Htr].
      * cbn [app]. cbn [filter]. rewrite replaced_add. reflexivity.
    + cbn [is_Exception] in H. rewrite bind_print in H. cbv [ret] in H.
      apply IH in H. destruct H as (tr & Htr & ->).
      exists ([(add_call run t, Returned); (remove_call run t, Failed cls msg)] ++ tr).
      split.
      * eapply issues_trans; [exact Htr1 | exact Htr].
      * cbn [app]. cbn [filter].
        rewrite replaced_add, replaced_remove_failed. reflexivity.
    + cbv [ret] in H.
      apply IH in H. destruct H as (tr & Htr & ->).
      exists ([(add_call run t, Returned); (remove_call run t, Returned)] ++ tr).
      split.
      * eapply issues_trans; [exact Htr1 | exact Htr].
      * cbn [app]. cbn [filter].
        rewrite replaced_add, replaced_remove_returned. cbn [List.length].
        f_equal. lia.
Qed.

(** X17. The count announced at the end of an artist test is truthful. In
    a live run with an artist filter and at least one replacement found,
    the last line printed is [Processed <n> track(s) for artist '<a>'.],
    where [n] is the number of removals that returned in the trace of the
    run: the tracks whose new version was added and whose old version was
    removed. *)
Theorem processed_count_is_truthful run log (w : World R) a t :
  DRY_RUN run = false ->
  test_artist (TEST_MODE_ARTIST run) = Some a ->
  In t log ->
  new_id t <> EmptyString ->
  exists tr out,
    w_calls (snd (live_run_actions py sp run log w)) = w_calls w ++ tr
    /\ w_stdout (snd (live_run_actions py sp run log w))
       = w_stdout w ++ out
         ++ [Print ("Processed "
                    ++ str_of_nat (List.length (filter replaced tr))
                    ++ " track(s) for artist '" ++ a ++ "'.")%string].
Proof.
  intros Hlive Hartist Hin Hnew. unfold live_run_actions.
  rewrite Hlive, Hartist. cbn [negb].
  destruct (filter (fun t => truthy (new_id t)) log) as [| t0 ts] eqn:Eproc.
  { exfalso. assert (Hf : In t (filter (fun t => truthy (new_id t)) log)).
    { apply filter_In. split; [exact Hin |]. destruct (new_id t); [contradiction | reflexivity]. }
    rewrite Eproc in Hf. destruct Hf. }
  rewrite bind_print.
  match goal with
  | |- context [bind (replacement_loop py sp run ?total 1 0 (t0 :: ts)) _ ?w1] =>
      destruct (replacement_loop_spec py sp run total (t0 :: ts) 1 0 w1)
        as (pc' & w' & tr' & out & Hrun & _ & Hout & _);
      destruct (replacement_loop_count run total (t0 :: ts) 1 0 w1 w' (Ok pc') Hrun)
        as (tr & Htr & Hcount)
  end.
  injection Hcount as ->.
  rewrite (bind_ok _ _ _ _ _ Hrun). rewrite !bind_print. cbn [snd print w_calls w_stdout ret].
  exists tr, ([Print (nl ++ "Starting replacement process...")%string]
              ++ out ++ [Print (nl ++ "Cleanup complete!")%string]).
  split.
  - unfold issues in Htr. cbn [w_calls snd print] in Htr. exact Htr.
  - unfold printed in Hout. rewrite Hout. cbn [w_stdout snd print].
    cbn [Nat.add]. rewrite <- !app_assoc. reflexivity.
Qed.

End Count.

(** ** The further properties at work on the concrete world *)

(** A dry run of the demo library leaves the line waiting on the console
    where it is. *)
Lemma dry_run_is_unattended_witness :
  dry_run Demo.args_dry = true
  /\ select_from_list Demo.args_dry = false
  /\ w_stdin (snd (main Demo.py Demo.sp 5 (Parsed Demo.args_dry)
                     (Demo.world Demo.library ["kept"])))
     = ["kept"].
Proof.
  split; [reflexivity |]. split; [reflexivity |].
  exact (proj1 (dry_run_is_unattended Demo.py Demo.sp 5 Demo.args_dry
                  (Demo.world Demo.library ["kept"]) eq_refl eq_refl)).
Defined.

(** The live run of the demo library adds [B]: it was confirmed with
    [Y], the last line read. *)
Lemma changes_require_confirmation_witness :
  dry_run Demo.args_live = false
  /\ In (Prompt "Are you sure you want to continue? (y/n): ")
        (w_stdout (snd (main Demo.py Demo.sp 5 (Parsed Demo.args_live)
                          (Demo.world Demo.library ["Y"; "unread"]))))
  /\ exists before answer,
       ["Y"; "unread"]
       = before ++ answer :: w_stdin (snd (main Demo.py Demo.sp 5 (Parsed Demo.args_live)
                                             (Demo.world Demo.library ["Y"; "unread"])))
       /\ lower Demo.py answer = "y".
Proof.
  apply (changes_require_confirmation Demo.py Demo.sp 5 Demo.args_live
           (Demo.world Demo.library ["Y"; "unread"])
           [(CurrentUser, Returned); (AvailableMarkets, Returned);
            (CurrentUserSavedTracks 50 0, Returned);
            (Tracks ["A"; "C"; "D"; "E"] "BE", Returned);
            (Search "Song C artist:Artist Two" 5, Returned);
            (CurrentUserSavedTracks 50 5, Returned);
            (CurrentUserSavedTracksAdd ["B"], Returned);
            (CurrentUserSavedTracksDelete ["A"], Returned);
            (CurrentUserSavedTracksAdd ["X3"], Returned);
            (CurrentUserSavedTracksDelete ["C"], Returned);
            (CurrentUserSavedTracksAdd ["F"], Returned);
            (CurrentUserSavedTracksDelete ["E"], Returned)]
           (CurrentUserSavedTracksAdd ["B"], Returned)).
  - vm_compute; reflexivity.
  - simpl. tauto.
  - reflexivity.
Defined.

(** A dry run on a playlist of someone else exits with status 1. *)
Lemma main_exit_status_witness :
  (fst (main Demo.py Demo.sp 5 (Parsed Demo.args_theirs) (Demo.world Demo.library []))
   = Raise (SystemExit 1)
   /\ (SystemExit 1 = SystemExit 1
       \/ (SystemExit 1 = SystemExit 0 /\ select_from_list Demo.args_theirs = true)))
  /\ (main Demo.py Demo.sp 5 (Refused "usage: relink" "relink: error: no market")
           (Demo.world Demo.library [])
      = (Raise (SystemExit 2),
         {| w_remote := Demo.library; w_calls := []; w_stdout := [];
            w_stderr := ["usage: relink"; "relink: error: no market"];
            w_stdin := []; w_files := [] |})
      /\ SystemExit 2 = SystemExit 2).
Proof.
  split; (split; [vm_compute; reflexivity |]).
  - apply (main_exit_status Demo.py Demo.sp 5 (Parsed Demo.args_theirs)
             (Demo.world Demo.library [])).
    vm_compute; reflexivity.
  - apply (main_exit_status Demo.py Demo.sp 5
             (Refused "usage: relink" "relink: error: no market")
             (Demo.world Demo.library [])).
    reflexivity.
Defined.

(** The playlist [P1], named on the command line, is the user's. *)
Lemma source_is_owned_witness :
  fst (determine_source Demo.py Demo.sp 5 Demo.args_mine Demo.me
         (Demo.world Demo.library []))
  = Ok ("Playlist 'Mine'", Some "P1")
  /\ exists owned r r',
       pl_owner_id owned = user_id Demo.me
       /\ ((select_from_list Demo.args_mine = false
            /\ playlist Demo.sp "P1" r = (inr owned, r')
            /\ "Playlist 'Mine'" = ("Playlist '" ++ pl_name owned ++ "'")%string)
           \/ (select_from_list Demo.args_mine = true
               /\ pl_id owned = "P1"
               /\ "Playlist 'Mine'" = pl_name owned
               /\ exists offset playlists_page,
                    current_user_playlists Demo.sp 50 offset r = (inr playlists_page, r')
                    /\ In owned playlists_page)).
Proof.
  split; [vm_compute; reflexivity |].
  apply (source_is_owned Demo.py Demo.sp 5 Demo.args_mine Demo.me
           (Demo.world Demo.library [])
           (snd (determine_source Demo.py Demo.sp 5 Demo.args_mine Demo.me
                   (Demo.world Demo.library [])))
           "Playlist 'Mine'" (Some "P1") "P1").
  - vm_compute; reflexivity.
  - reflexivity.
Defined.

(** A live run with an artist of three spaces stops before anything. *)
Lemma blank_artist_is_rejected_witness :
  strip Demo.py "   " = EmptyString
  /\ main Demo.py Demo.sp 5 (Parsed Demo.args_blank) (Demo.world Demo.library ["y"])
     = (Raise (SystemExit 1),
        {| w_remote := Demo.library;
           w_calls := [];
           w_stdout := [Print "Error: --artist parameter cannot be an empty string."];
           w_stderr := [];
           w_stdin := ["y"];
           w_files := [] |}).
Proof.
  split; [reflexivity |].
  apply (blank_artist_is_rejected Demo.py Demo.sp 5 Demo.args_blank
           (Demo.world Demo.library ["y"]) "   "); reflexivity.
Defined.

(** The market [zz] is not one of [BE] and [US]. *)
Lemma unknown_market_is_rejected_witness :
  fst (main Demo.py Demo.sp 5 (Parsed Demo.args_nowhere) (Demo.world Demo.library []))
  = Raise (SystemExit 1)
  /\ w_calls (snd (main Demo.py Demo.sp 5 (Parsed Demo.args_nowhere) (Demo.world Demo.library [])))
     = [(CurrentUser, Returned); (AvailableMarkets, Returned)].
Proof.
  rewrite (unknown_market_is_rejected Demo.py Demo.sp 5 Demo.args_nowhere
             (Demo.world Demo.library []) Demo.me Demo.library ["BE"; "US"] Demo.library).
  - split; reflexivity.
  - intros a Ha. discriminate.
  - reflexivity.
  - reflexivity.
  - simpl. intros [H | [H | []]]; discriminate.
Defined.

(** The saved tracks of the frozen service are five: six iterations are
    enough from the start. *)
Lemma audit_terminates_witness :
  fst (audit_loop Demo.py Demo.frozen 6 Demo.live 0 [] (Demo.world Demo.library []))
  <> OutOfFuel.
Proof.
  apply (audit_terminates Demo.py Demo.frozen Demo.live 5).
  - intros offset w w1 results Hsize H.
    unfold fetch_page in H. cbn in H. unfold invoke in H. cbn in H.
    injection H as <- _. unfold Demo.page_of.
    rewrite skipn_all2; [reflexivity | exact Hsize].
  - cbn. lia.
Defined.

(** An artist test against the stubborn service: of the two tracks by
    [Artist One], one is replaced in full, and so says the last line. *)
Lemma processed_count_is_truthful_witness :
  (exists tr out,
     w_calls (snd (live_run_actions Demo.py Demo.sp Demo.live_artist_one Demo.audit_log
                     (Demo.world Demo.stubborn [])))
     = w_calls (Demo.world Demo.stubborn []) ++ tr
     /\ w_stdout (snd (live_run_actions Demo.py Demo.sp Demo.live_artist_one
                         Demo.audit_log (Demo.world Demo.stubborn [])))
        = w_stdout (Demo.world Demo.stubborn []) ++ out
          ++ [Print ("Processed "
                     ++ str_of_nat (List.length (filter replaced tr))
                     ++ " track(s) for artist 'ARTIST one'.")%string])
  /\ last (w_stdout (snd (live_run_actions Demo.py Demo.sp Demo.live_artist_one
                            Demo.audit_log (Demo.world Demo.stubborn []))))
          (Print EmptyString)
     = Print "Processed 1 track(s) for artist 'ARTIST one'.".
Proof.
  split; [| vm_compute; reflexivity].
  apply (processed_count_is_truthful Demo.py Demo.sp Demo.live_artist_one Demo.audit_log
           (Demo.world Demo.stubborn []) "ARTIST one" Demo.entry_A).
  - reflexivity.
  - reflexivity.
  - simpl. tauto.
  - discriminate.
Defined.
